(** * Verification of the floor-plan edit orchestrator (src/worker.ts)

    A shallow embedding of the Cloudflare Worker that versions image edits:
    the two D1 tables, the upload and edit workflows, the lineage and
    latest-by-angle queries, the bounded session history and the camera-angle
    tagger.

    Conventions of the embedding.
    - A JavaScript string is a [string]; each [ascii] is one code unit in
      U+0000..U+00FF (Latin-1), on which [toLowerCase] and [trim] are the
      ECMAScript ones.
    - A D1 table is the list of its rows in insertion (rowid) order.
    - The handlers run in a small state-and-exception monad [M]: the state
      holds the database, the console and the trace of the external effects
      so far; a thrown JavaScript error is [Throw] (the dispatcher turns it
      into a 500), and what was written before the throw stays written, as
      D1 runs each statement on its own.
    - The two read-only queries are relations between the database and the
      response: SQL leaves the order of rows that tie under [ORDER BY]
      open, and so does the model.
    - Everything the Worker does not own (the generation oracle, the blob
      store API, the CDN, [crypto], [JSON], the clock) is a field of [Env]. *)

From Stdlib Require Import List String Ascii Bool Arith ZArith Lia DecimalString.
From Stdlib Require Import Permutation Sorted.
Import ListNotations.
Set Warnings "-register-all".
Local Open Scope string_scope.
Local Open Scope list_scope.
Local Open Scope nat_scope.

(** String concatenation, JavaScript's [+] and template literals. *)
Infix "+++" := String.append (right associativity, at level 60).

(* ================================================================= *)
(** ** JavaScript strings *)

Module JsString.

Definition code (c : ascii) : nat := nat_of_ascii c.

(** [String.prototype.toLowerCase] on U+0000..U+00FF: A-Z, and the Latin-1
    capitals U+00C0..U+00DE except the multiplication sign U+00D7. *)
Definition lower_char (c : ascii) : ascii :=
  let n := code c in
  if ((65 <=? n) && (n <=? 90)) || ((192 <=? n) && (n <=? 222) && negb (n =? 215))
  then ascii_of_nat (n + 32)
  else c.

Fixpoint toLowerCase (s : string) : string :=
  match s with
  | EmptyString => EmptyString
  | String c r => String (lower_char c) (toLowerCase r)
  end.

(** WhiteSpace and LineTerminator code points below U+0100: TAB, LF, VT,
    FF, CR, SP, NBSP. *)
Definition isWhiteSpace (c : ascii) : bool :=
  let n := code c in
  ((9 <=? n) && (n <=? 13)) || (n =? 32) || (n =? 160).

Fixpoint trimStart (s : string) : string :=
  match s with
  | EmptyString => EmptyString
  | String c r => if isWhiteSpace c then trimStart r else s
  end.

Fixpoint trimEnd (s : string) : string :=
  match s with
  | EmptyString => EmptyString
  | String c r =>
      match trimEnd r with
      | EmptyString => if isWhiteSpace c then EmptyString else String c EmptyString
      | r' => String c r'
      end
  end.

Definition trim (s : string) : string := trimEnd (trimStart s).

(** [s.replace(/\s+/g, "")] *)
Fixpoint removeWhiteSpace (s : string) : string :=
  match s with
  | EmptyString => EmptyString
  | String c r => if isWhiteSpace c then removeWhiteSpace r else String c (removeWhiteSpace r)
  end.

Fixpoint startsWith (s k : string) : bool :=
  match k, s with
  | EmptyString, _ => true
  | String _ _, EmptyString => false
  | String a k', String b s' => Ascii.eqb a b && startsWith s' k'
  end.

(** [s.includes(k)] *)
Fixpoint includes (s k : string) : bool :=
  startsWith s k ||
  match s with
  | EmptyString => false
  | String _ s' => includes s' k
  end.

(** Truthiness of a string value: [""] is falsy. *)
Definition truthy (s : string) : bool :=
  match s with EmptyString => false | _ => true end.

(** [k] occurs in [s] as a contiguous substring. *)
Definition occurs (k s : string) : Prop :=
  exists pre post, s = pre +++ k +++ post.

(** [parts.join(sep)] *)
Fixpoint join (sep : string) (l : list string) : string :=
  match l with
  | [] => ""
  | [x] => x
  | x :: r => x +++ sep +++ join sep r
  end.

(** [url.replace(/\/$/, "")]: drop one trailing slash. *)
Fixpoint stripTrailingSlash (s : string) : string :=
  match s with
  | EmptyString => EmptyString
  | String c EmptyString => if Ascii.eqb c "/" then EmptyString else s
  | String c r => String c (stripTrailingSlash r)
  end.

End JsString.
Import JsString.

(* ================================================================= *)
(** ** Camera-angle tagger (worker.ts 44-56, 523-534) *)

(** [Object.entries(CAMERA_KEYWORDS)]: string keys in insertion order. *)
Definition CAMERA_KEYWORDS : list (string * string) :=
  [ ("north", "north"); ("patio", "patio"); ("south", "south");
    ("east", "east"); ("west", "west"); ("stairs", "stairs");
    ("entry", "entry"); ("foyer", "entry"); ("kitchen", "kitchen");
    ("living", "living"); ("exterior", "exterior") ].

(** The [for ... of Object.entries(...)] loop of [inferCameraAngle]. *)
Fixpoint scanKeywords (lower : string) (table : list (string * string)) : option string :=
  match table with
  | [] => None
  | (keyword, angle) :: rest =>
      if includes lower keyword then Some angle else scanKeywords lower rest
  end.

Definition inferCameraAngle (prompt : string) (explicit : option string) : option string :=
  match explicit with
  | Some e =>
      if truthy e && truthy (trim e) then Some (trim e)
      else scanKeywords (toLowerCase prompt) CAMERA_KEYWORDS
  | None => scanKeywords (toLowerCase prompt) CAMERA_KEYWORDS
  end.

(* ================================================================= *)
(** ** JavaScript values as they come out of [JSON.parse]

    A number is kept as the decimal [mantissa * 10 ^ exponent] its literal
    denotes; the Worker only ever tests a number for being zero. *)

Inductive json : Type :=
| JNull
| JBool (b : bool)
| JNum (mantissa exponent : Z)
| JStr (s : string)
| JArr (items : list json)
| JObj (fields : list (string * json)).

(** A computation that may throw. *)
Inductive Result (A : Type) : Type :=
| Ok (a : A)
| Throw (e : string).
Arguments Ok {A} a.
Arguments Throw {A} e.

Definition TypeError : string := "TypeError".

Fixpoint assoc {A : Type} (k : string) (l : list (string * A)) : option A :=
  match l with
  | [] => None
  | (k', v) :: r => if String.eqb k k' then Some v else assoc k r
  end.

(** Property read [v.k] for the property names the Worker uses (none of
    them is defined on a prototype): [None] is [undefined]; reading a
    property of [null] throws. *)
Definition getProp (v : json) (k : string) : Result (option json) :=
  match v with
  | JNull => Throw TypeError
  | JObj fields => Ok (assoc k fields)
  | _ => Ok None
  end.

(** [a ?? b] *)
Definition nullish (a b : option json) : option json :=
  match a with
  | None | Some JNull => b
  | Some v => Some v
  end.

(** Truthiness of a possibly-undefined value.  A number is falsy when its
    mantissa is 0; a literal so small that the platform rounds it to 0
    ([1e-400]) is outside the model. *)
Definition truthyJs (v : option json) : bool :=
  match v with
  | None | Some JNull => false
  | Some (JBool b) => b
  | Some (JNum m _) => negb (m =? 0)%Z
  | Some (JStr s) => truthy s
  | Some (JArr _) | Some (JObj _) => true
  end.

(** [parts.map(f)] where [f] may throw: left to right, first error wins. *)
Fixpoint mapResult {A B : Type} (f : A -> Result B) (l : list A) : Result (list B) :=
  match l with
  | [] => Ok []
  | x :: r =>
      match f x with
      | Throw e => Throw e
      | Ok y => match mapResult f r with
                | Throw e => Throw e
                | Ok ys => Ok (y :: ys)
                end
      end
  end.

(* ================================================================= *)
(** ** A reference [JSON.parse] / [JSON.stringify]

    The theorems below hold for every [JSON.parse] an environment may
    supply; this implementation of ECMA-404 over Latin-1 text is the one the
    concrete scenarios run with.  A string is a sequence of code units below
    U+0100: an escape that names a higher code unit has no value here and
    is not read, where the platform reads it. *)

Module Json.

Definition dquote : ascii := ascii_of_nat 34.
Definition backslash : ascii := ascii_of_nat 92.

Definition isWs (c : ascii) : bool :=
  let n := code c in (n =? 32) || (n =? 9) || (n =? 10) || (n =? 13).

Fixpoint skipWs (s : string) : string :=
  match s with
  | EmptyString => EmptyString
  | String c r => if isWs c then skipWs r else s
  end.

Definition isDigit (c : ascii) : bool :=
  let n := code c in (48 <=? n) && (n <=? 57).

Definition hexVal (c : ascii) : option nat :=
  let n := code c in
  if (48 <=? n) && (n <=? 57) then Some (n - 48)
  else if (97 <=? n) && (n <=? 102) then Some (n - 87)
  else if (65 <=? n) && (n <=? 70) then Some (n - 55)
  else None.

Fixpoint takeDigits (s : string) : list nat * string :=
  match s with
  | EmptyString => ([], EmptyString)
  | String c r =>
      if isDigit c
      then let (ds, rest) := takeDigits r in ((code c - 48) :: ds, rest)
      else ([], s)
  end.

Definition digitsValue (ds : list nat) : Z :=
  fold_left (fun acc d => acc * 10 + Z.of_nat d)%Z ds 0%Z.

Definition parseExponent (s : string) : option (Z * string) :=
  match s with
  | String c r =>
      if (code c =? 101) || (code c =? 69) then
        let (sign, r1) :=
          match r with
          | String c' r' =>
              if code c' =? 43 then (1%Z, r')
              else if code c' =? 45 then ((-1)%Z, r')
              else (1%Z, r)
          | EmptyString => (1%Z, r)
          end in
        match takeDigits r1 with
        | ([], _) => None
        | (es, r2) => Some ((sign * digitsValue es)%Z, r2)
        end
      else Some (0%Z, s)
  | EmptyString => Some (0%Z, s)
  end.

Definition parseNumber (s : string) : option (json * string) :=
  let (negative, s1) :=
    match s with
    | String c r => if code c =? 45 then (true, r) else (false, s)
    | EmptyString => (false, s)
    end in
  match takeDigits s1 with
  | ([], _) => None
  | (d :: more, s2) =>
      if (d =? 0) && negb (List.length more =? 0) then None
      else
        let frac :=
          match s2 with
          | String c r =>
              if code c =? 46 then
                match takeDigits r with
                | ([], _) => None
                | (fs, r') => Some (fs, r')
                end
              else Some ([], s2)
          | EmptyString => Some ([], s2)
          end in
        match frac with
        | None => None
        | Some (fs, s3) =>
            match parseExponent s3 with
            | None => None
            | Some (e, s4) =>
                let m := digitsValue ((d :: more) ++ fs) in
                Some (JNum (if negative then - m else m)%Z
                           (e - Z.of_nat (List.length fs))%Z, s4)
            end
        end
  end.

(** The characters of a string literal after its opening quote. *)
Fixpoint parseStringBody (s : string) : option (string * string) :=
  match s with
  | EmptyString => None
  | String c r =>
      if Ascii.eqb c dquote then Some (EmptyString, r)
      else if Ascii.eqb c backslash then
        match r with
        | EmptyString => None
        | String e r1 =>
            let simple (x : nat) :=
              match parseStringBody r1 with
              | Some (str, rest) => Some (String (ascii_of_nat x) str, rest)
              | None => None
              end in
            let n := code e in
            if n =? 34 then simple 34
            else if n =? 92 then simple 92
            else if n =? 47 then simple 47
            else if n =? 98 then simple 8
            else if n =? 102 then simple 12
            else if n =? 110 then simple 10
            else if n =? 114 then simple 13
            else if n =? 116 then simple 9
            else if n =? 117 then
              match r1 with
              | String h1 (String h2 (String h3 (String h4 r5))) =>
                  match hexVal h1, hexVal h2, hexVal h3, hexVal h4 with
                  | Some 0, Some 0, Some a, Some b =>
                      match parseStringBody r5 with
                      | Some (str, rest) => Some (String (ascii_of_nat (16 * a + b)) str, rest)
                      | None => None
                      end
                  | _, _, _, _ => None
                  end
              | _ => None
              end
            else None
        end
      else if code c <? 32 then None
      else
        match parseStringBody r with
        | Some (str, rest) => Some (String c str, rest)
        | None => None
        end
  end.

Fixpoint expect (word s : string) : option string :=
  match word, s with
  | EmptyString, _ => Some s
  | String a w, String b r => if Ascii.eqb a b then expect w r else None
  | String _ _, EmptyString => None
  end.

(** A repeated key keeps its first position and its last value. *)
Definition addMember (k : string) (v : json) (ms : list (string * json))
  : list (string * json) :=
  match assoc k ms with
  | Some v' => (k, v') :: filter (fun kv => negb (String.eqb (fst kv) k)) ms
  | None => (k, v) :: ms
  end.

Fixpoint parseValue (fuel : nat) (s : string) {struct fuel} : option (json * string) :=
  match fuel with
  | 0 => None
  | S f =>
      match skipWs s with
      | EmptyString => None
      | String c r =>
          let n := code c in
          if n =? 110 then option_map (pair JNull) (expect "ull" r)
          else if n =? 116 then option_map (pair (JBool true)) (expect "rue" r)
          else if n =? 102 then option_map (pair (JBool false)) (expect "alse" r)
          else if n =? 34 then
            match parseStringBody r with
            | Some (str, rest) => Some (JStr str, rest)
            | None => None
            end
          else if n =? 91 then
            match skipWs r with
            | String c' r' =>
                if code c' =? 93 then Some (JArr [], r')
                else match parseElements f r with
                     | Some (vs, rest) => Some (JArr vs, rest)
                     | None => None
                     end
            | EmptyString => None
            end
          else if n =? 123 then
            match skipWs r with
            | String c' r' =>
                if code c' =? 125 then Some (JObj [], r')
                else match parseMembers f r with
                     | Some (ms, rest) => Some (JObj ms, rest)
                     | None => None
                     end
            | EmptyString => None
            end
          else parseNumber (String c r)
      end
  end
with parseElements (fuel : nat) (s : string) {struct fuel} : option (list json * string) :=
  match fuel with
  | 0 => None
  | S f =>
      match parseValue f s with
      | None => None
      | Some (v, rest) =>
          match skipWs rest with
          | String c r =>
              if code c =? 44 then
                match parseElements f r with
                | Some (vs, rest') => Some (v :: vs, rest')
                | None => None
                end
              else if code c =? 93 then Some ([v], r)
              else None
          | EmptyString => None
          end
      end
  end
with parseMembers (fuel : nat) (s : string) {struct fuel}
  : option (list (string * json) * string) :=
  match fuel with
  | 0 => None
  | S f =>
      match skipWs s with
      | String q r =>
          if code q =? 34 then
            match parseStringBody r with
            | None => None
            | Some (k, rest) =>
                match skipWs rest with
                | String c r2 =>
                    if code c =? 58 then
                      match parseValue f r2 with
                      | None => None
                      | Some (v, rest2) =>
                          match skipWs rest2 with
                          | String c' r3 =>
                              if code c' =? 44 then
                                match parseMembers f r3 with
                                | Some (ms, rest3) => Some (addMember k v ms, rest3)
                                | None => None
                                end
                              else if code c' =? 125 then Some ([(k, v)], r3)
                              else None
                          | EmptyString => None
                          end
                      end
                    else None
                | EmptyString => None
                end
            end
          else None
      | EmptyString => None
      end
  end.

Definition parse (s : string) : option json :=
  match parseValue (2 * String.length s + 2) s with
  | Some (v, rest) =>
      match skipWs rest with
      | EmptyString => Some v
      | String _ _ => None
      end
  | None => None
  end.

Definition showZ (z : Z) : string := NilZero.string_of_int (Z.to_int z).

Definition hexChar (n : nat) : ascii :=
  if n <? 10 then ascii_of_nat (48 + n) else ascii_of_nat (87 + n).

Fixpoint escape (s : string) : string :=
  match s with
  | EmptyString => EmptyString
  | String c r =>
      let n := code c in
      let two (x : nat) := String backslash (String (ascii_of_nat x) (escape r)) in
      if n =? 34 then two 34
      else if n =? 92 then two 92
      else if n =? 8 then two 98
      else if n =? 12 then two 102
      else if n =? 10 then two 110
      else if n =? 13 then two 114
      else if n =? 9 then two 116
      else if n <? 32 then
        String backslash
          ("u00" +++ String (hexChar (n / 16)) (String (hexChar (n mod 16)) (escape r)))
      else String c (escape r)
  end.

Definition quote (s : string) : string :=
  String dquote (escape s +++ String dquote EmptyString).

Fixpoint stringify (j : json) : string :=
  match j with
  | JNull => "null"
  | JBool true => "true"
  | JBool false => "false"
  | JNum m e => if (e =? 0)%Z then showZ m else showZ m +++ "e" +++ showZ e
  | JStr s => quote s
  | JArr items =>
      "[" +++ join "," (map stringify items) +++ "]"
  | JObj fields =>
      "{" +++ join "," (map (fun kv => quote (fst kv) +++ ":" +++ stringify (snd kv)) fields)
          +++ "}"
  end.

End Json.

(* ================================================================= *)
(** ** Conversation turns (worker.ts 4-13) *)

Record InlineData : Type := {
  mimeType : json;
  data : option json
}.

Record GeminiPart : Type := {
  text : option string;
  inlineData : option InlineData;
  thought : option json
}.

Record GeminiMessage : Type := {
  role : option json;
  parts : list GeminiPart
}.

Definition textPart (s : string) : GeminiPart :=
  {| text := Some s; inlineData := None; thought := None |}.

Definition inlinePart (mime data : string) : GeminiPart :=
  {| text := None;
     inlineData := Some {| mimeType := JStr mime; data := Some (JStr data) |};
     thought := None |}.

(** [v.k] once [v] is known not to be [null]. *)
Definition prop (v : json) (k : string) : option json :=
  match getProp v k with Ok x => x | Throw _ => None end.

(** [a ?? d] with a default that is a value. *)
Definition nullishOr (a : option json) (d : json) : json :=
  match a with
  | None | Some JNull => d
  | Some v => v
  end.

(** The callback of [normalizeParts] (worker.ts 633-651). *)
Definition normalizePart (part : json) : Result GeminiPart :=
  match getProp part "inlineData" with
  | Throw e => Throw e
  | Ok inlineData =>
      let inline := nullish inlineData (prop part "inline_data") in
      let text := prop part "text" in
      let thought := prop part "thought" in
      Ok {| text := match text with Some (JStr s) => Some s | _ => None end;
            inlineData :=
              if truthyJs inline then
                option_map
                  (fun i =>
                     {| mimeType := nullishOr (prop i "mimeType")
                                      (nullishOr (prop i "mime_type") (JStr "image/png"));
                        data := prop i "data" |})
                  inline
              else None;
            thought := thought |}
  end.

(** [normalizeParts(parts)]: [parts.map] exists only on an array. *)
Definition normalizeParts (parts : option json) : Result (list GeminiPart) :=
  match parts with
  | Some (JArr items) => mapResult normalizePart items
  | _ => Throw TypeError
  end.

(** The callback of [parsed.map] in [parseHistory] (worker.ts 622-625). *)
Definition decodeMessage (message : json) : Result GeminiMessage :=
  match getProp message "role" with
  | Throw e => Throw e
  | Ok r =>
      match getProp message "parts" with
      | Throw e => Throw e
      | Ok p =>
          match normalizeParts p with
          | Throw e => Throw e
          | Ok ps => Ok {| role := r; parts := ps |}
          end
      end
  end.

(** The body of the [try] once [JSON.parse] has returned [parsed]. *)
Definition decodeHistory (parsed : json) : Result (list GeminiMessage) :=
  match parsed with
  | JArr items => mapResult decodeMessage items
  | _ => Throw TypeError
  end.

(** What [JSON.stringify] sees of a turn: absent properties are omitted. *)
Definition optField (k : string) (v : option json) : list (string * json) :=
  match v with Some j => [(k, j)] | None => [] end.

Definition jsonOfPart (p : GeminiPart) : json :=
  JObj (optField "text" (option_map JStr (text p))
        ++ optField "inlineData"
             (option_map (fun i => JObj (("mimeType", mimeType i) :: optField "data" (data i)))
                         (inlineData p))
        ++ optField "thought" (thought p)).

Definition jsonOfMessage (m : GeminiMessage) : json :=
  JObj (optField "role" (role m) ++ [("parts", JArr (map jsonOfPart (parts m)))]).

Definition jsonOfHistory (h : list GeminiMessage) : json :=
  JArr (map jsonOfMessage h).

(** [summarizeParts] (worker.ts 536-541) *)
Definition hasText (part : GeminiPart) : bool :=
  match text part with
  | Some t => 0 <? String.length (trim t)
  | None => false
  end.

Definition summarizeParts (parts : list GeminiPart) : string :=
  join " " (map (fun part => match text part with Some t => trim t | None => "" end)
                (filter hasText parts)).

(** [buildFollowupSuggestion] (worker.ts 543-550) *)
Definition buildFollowupSuggestion (angle : option string) (hasDiffText : bool) : string :=
  match angle with
  | Some a =>
      if truthy a
      then "Would you like to explore another perspective beyond the " +++ a +++ " angle?"
      else if hasDiffText
           then "Should we generate a comparison view or adjust lighting next?"
           else "Would you like to request another refinement?"
  | None =>
      if hasDiffText
      then "Should we generate a comparison view or adjust lighting next?"
      else "Would you like to request another refinement?"
  end.

(** [trimHistory] (worker.ts 729-732); [slice(n)] is [skipn n]. *)
Definition trimHistoryTo {A : Type} (maxMessages : nat) (history : list A) : list A :=
  if List.length history <=? maxMessages then history
  else skipn (List.length history - maxMessages) history.

Definition trimHistory {A : Type} (history : list A) : list A :=
  trimHistoryTo 20 history.

(* ================================================================= *)
(** ** The two D1 tables (migrations: prompt_sessions, image_versions) *)

(** The metadata object that is serialised into [image_versions.metadata]
    and sent to the blob store; an absent property is [None]. *)
Record Metadata : Type := {
  md_asset_type : option string;
  md_parent_id : option string;
  md_edit_instruction : option string;
  md_model : string;
  md_base_prompt_hash : string;
  md_timestamp : nat;
  md_synth_id : bool;
  md_image_ids : list string;
  md_session_id : option string;
  md_angle_id : option string;
  md_aspect_ratio : option string;
  md_previous_version_id : option string;
  md_cloudflare_image_id : option string;
  md_diff_summary : option string
}.

(** A row of [image_versions]; nullable columns are options. *)
Record VersionRow : Type := {
  iv_id : string;
  iv_parent_id : option string;
  iv_base_prompt : option string;
  iv_edit_prompt : option string;
  iv_model : string;
  iv_created_at : nat;
  iv_image_url : string;
  iv_metadata : option Metadata;
  iv_chat_id : option string;
  iv_aspect_ratio : option string;
  iv_diff_summary : option string
}.

(** A row of [prompt_sessions], which is also the [SessionRecord] the
    Worker reads back (its [created_at] column is never read). *)
Record SessionRecord : Type := {
  ps_id : string;
  ps_base_prompt : string;
  ps_system_prompt : string;
  ps_base_prompt_hash : string;
  ps_history : string
}.

Record DB : Type := {
  prompt_sessions : list SessionRecord;
  image_versions : list VersionRow
}.

(** What [getVersionById] returns (worker.ts 591-598). *)
Record VersionRecord : Type := {
  vr_id : string;
  vr_parent_id : option string;
  vr_base_prompt : string;
  vr_metadata : option Metadata;
  vr_chat_id : option string;
  vr_aspect_ratio : option string
}.

(* ================================================================= *)
(** ** Requests and responses *)

Record Mask : Type := {
  mask_image_id : option string;
  mask_data : option string;
  mask_mime_type : option string
}.

Record EditRequestBody : Type := {
  image_ids : list string;
  edit_prompt : string;
  base_prompt : option string;
  previous_version_id : option string;
  aspect_ratio : option string;
  session_id : option string;
  masks : list Mask;
  camera_hint : option string
}.

Record File : Type := {
  file_bytes : string;
  file_type : string
}.

Record UploadRequest : Type := {
  content_type : option string;
  form_file : option File;
  form_asset_type : option string;
  form_base_prompt : option string;
  form_design_intent : option string;
  form_aspect_ratio : option string
}.

(** One element of the [versions] array of the history response. *)
Record HistoryEntry : Type := {
  he_id : string;
  he_parent_id : option string;
  he_image_url : string;
  he_edit_prompt : option string;
  he_diff_summary : option string;
  he_metadata : option Metadata;
  he_created_at : nat
}.

Inductive Body : Type :=
| BError (error : string)
| BUploaded (image_id version_id session_id public_url diff_summary followup_suggestion : string)
| BEdited (new_image_id version_id public_url diff_summary followup_suggestion : string)
| BRender (version_id public_url : string) (diff_summary : option string)
          (metadata : option Metadata)
| BVersions (versions : list HistoryEntry).

Record Response : Type := {
  body : Body;
  status : nat
}.

Definition jsonResponse (data : Body) (status : nat) : Response :=
  {| body := data; status := status |}.

(* ================================================================= *)
(** ** The environment: configuration and external collaborators *)

Record AiResponse : Type := {
  (** [aiResponse.candidates?.[0]?.content?.parts] *)
  candidate_parts : option json
}.

Record Env : Type := {
  GEMINI_MODEL : option string;
  SYSTEM_PROMPT : option string;
  CF_IMAGES_DELIVERY_URL : string;
  (** the n-th value [crypto.randomUUID()] hands out *)
  randomUUID : nat -> string;
  (** [new Date()] in the Worker, and D1's [CURRENT_TIMESTAMP] *)
  Date_now : nat;
  CURRENT_TIMESTAMP : nat;
  (** [crypto.subtle.digest("SHA-256", utf8(s))], as bytes *)
  sha256 : string -> list nat;
  (** [JSON.parse]; [None] when it throws a SyntaxError *)
  JSON_parse : string -> option json;
  JSON_stringify : json -> string;
  (** [atob]; [None] when it throws *)
  atob : string -> option string;
  btoa : string -> string;
  (** GET of a delivery URL: body and content-type when [response.ok] *)
  cdn_fetch : string -> option (string * option string);
  (** the generation oracle: turns, system instruction, aspect ratio;
      [None] when the call throws *)
  gemini : list GeminiMessage -> GeminiMessage -> option string -> option AiResponse;
  (** POST to the Cloudflare Images API: bytes, mime type, metadata;
      the new image id when [response.ok && payload.success] *)
  images_api : string -> json -> Metadata -> option string
}.

(** Observable effects, in the order they happen. *)
Inductive Event : Type :=
| EvInsertSession (id : string)
| EvOracle (messages : list GeminiMessage) (answered : bool)
| EvBlobWrite (stored : option string)
| EvInsertVersion (id : string) (image_id : string)
| EvUpdateHistory (session : string).

Record State : Type := {
  db : DB;
  console : list string;
  trace : list Event;
  uuid_calls : nat
}.

Definition initial : State :=
  {| db := {| prompt_sessions := []; image_versions := [] |};
     console := []; trace := []; uuid_calls := 0 |}.

(* ================================================================= *)
(** ** The handler monad: state plus thrown errors *)

Definition M (A : Type) : Type := State -> Result A * State.

Definition ret {A : Type} (a : A) : M A := fun st => (Ok a, st).

Definition throw {A : Type} (e : string) : M A := fun st => (Throw e, st).

Definition bind {A B : Type} (m : M A) (k : A -> M B) : M B :=
  fun st =>
    match m st with
    | (Ok a, st') => k a st'
    | (Throw e, st') => (Throw e, st')
    end.

Notation "x <- m ;; k" := (bind m (fun x => k))
  (at level 100, m at next level, right associativity).
Notation "m ;;; k" := (bind m (fun _ => k))
  (at level 100, right associativity).

Definition lift {A : Type} (r : Result A) : M A := fun st => (r, st).

Definition log (line : string) : M unit :=
  fun st => (Ok tt, {| db := db st; console := console st ++ [line];
                       trace := trace st; uuid_calls := uuid_calls st |}).

Definition emit (e : Event) : M unit :=
  fun st => (Ok tt, {| db := db st; console := console st;
                       trace := trace st ++ [e]; uuid_calls := uuid_calls st |}).

Definition newUUID (env : Env) : M string :=
  fun st => (Ok (randomUUID env (uuid_calls st)),
             {| db := db st; console := console st;
                trace := trace st; uuid_calls := S (uuid_calls st) |}).

Definition readDB : M DB := fun st => (Ok (db st), st).

Definition writeDB (d : DB) : M unit :=
  fun st => (Ok tt, {| db := d; console := console st;
                       trace := trace st; uuid_calls := uuid_calls st |}).

(* ================================================================= *)
(** ** Constants (worker.ts 58-77) *)

Definition SUPPORTED_ASPECT_RATIOS : list string :=
  ["1:1"; "3:2"; "4:3"; "4:5"; "16:9"; "9:16"; "2:3"].

Definition supportedAspectRatio (r : string) : bool :=
  existsb (String.eqb r) SUPPORTED_ASPECT_RATIOS.

Definition DEFAULT_MODEL : string := "gemini-2.5-flash-image-preview".

Definition DEFAULT_SYSTEM_PROMPT : string :=
  "You are an AI Orchestrator Worker that manages Gemini image generation and editing for architectural floor plans and interior/exterior photos. You handle upload, transformation, and conversational edits using Gemini's multimodal image API. All images are stored and served from Cloudflare Images, and you maintain a structured version history for every session.".

Definition orElse {A : Type} (a : option A) (d : A) : A :=
  match a with Some x => x | None => d end.

(** [s || d] on strings. *)
Definition orString (s d : string) : string := if truthy s then s else d.

(** An optional string that is present and not empty. *)
Definition truthyOpt (s : option string) : bool :=
  match s with Some x => truthy x | None => false end.

(* ================================================================= *)
(** ** Hashing (worker.ts 552-562) *)

Definition hexDigit (n : nat) : ascii :=
  if n <? 10 then ascii_of_nat (48 + n) else ascii_of_nat (87 + n).

(** [byte.toString(16).padStart(2, "0")] *)
Definition hexByte (b : nat) : string :=
  String (hexDigit (b / 16)) (String (hexDigit (b mod 16)) EmptyString).

Definition hashString (env : Env) (input : string) : string :=
  fold_left (fun hex byte => hex +++ hexByte byte) (sha256 env input) "".

(* ================================================================= *)
(** ** Database access (worker.ts 564-616, 721-727) *)

Definition publicUrl (env : Env) (imageId : string) : string :=
  stripTrailingSlash (CF_IMAGES_DELIVERY_URL env) +++ "/" +++ imageId +++ "/public".

(** [INSERT INTO prompt_sessions]: [id] is the primary key. *)
Definition insertSession (row : SessionRecord) : M unit :=
  d <- readDB ;;
  if existsb (fun s => String.eqb (ps_id s) (ps_id row)) (prompt_sessions d)
  then throw "UNIQUE constraint failed: prompt_sessions.id"
  else
    writeDB {| prompt_sessions := prompt_sessions d ++ [row];
               image_versions := image_versions d |} ;;;
    emit (EvInsertSession (ps_id row)).

(** [INSERT INTO image_versions]: [id] is the primary key. *)
Definition insertVersion (row : VersionRow) (imageId : string) : M unit :=
  d <- readDB ;;
  if existsb (fun v => String.eqb (iv_id v) (iv_id row)) (image_versions d)
  then throw "UNIQUE constraint failed: image_versions.id"
  else
    writeDB {| prompt_sessions := prompt_sessions d;
               image_versions := image_versions d ++ [row] |} ;;;
    emit (EvInsertVersion (iv_id row) imageId).

Definition createSession (env : Env) (basePrompt : string) : M SessionRecord :=
  sessionId <- newUUID env ;;
  let hash := hashString env basePrompt in
  let systemPrompt := orElse (SYSTEM_PROMPT env) DEFAULT_SYSTEM_PROMPT in
  let row := {| ps_id := sessionId; ps_base_prompt := basePrompt;
                ps_system_prompt := systemPrompt; ps_base_prompt_hash := hash;
                ps_history := "[]" |} in
  insertSession row ;;;
  ret row.

Definition getVersionById (id : string) : M (option VersionRecord) :=
  d <- readDB ;;
  match find (fun v => String.eqb (iv_id v) id) (image_versions d) with
  | None => ret None
  | Some row =>
      ret (Some {| vr_id := iv_id row;
                   vr_parent_id := iv_parent_id row;
                   vr_base_prompt := orElse (iv_base_prompt row) "";
                   vr_metadata := iv_metadata row;
                   vr_chat_id := iv_chat_id row;
                   vr_aspect_ratio := iv_aspect_ratio row |})
  end.

Definition getSessionById (id : string) : M (option SessionRecord) :=
  d <- readDB ;;
  ret (find (fun s => String.eqb (ps_id s) id) (prompt_sessions d)).

(** [UPDATE prompt_sessions SET history = ? WHERE id = ?] on one row. *)
Definition setHistory (sessionId history : string) (s : SessionRecord) : SessionRecord :=
  if String.eqb (ps_id s) sessionId
  then {| ps_id := ps_id s; ps_base_prompt := ps_base_prompt s;
          ps_system_prompt := ps_system_prompt s;
          ps_base_prompt_hash := ps_base_prompt_hash s;
          ps_history := history |}
  else s.

Definition saveHistory (env : Env) (sessionId : string) (history : list GeminiMessage) : M unit :=
  d <- readDB ;;
  writeDB {| prompt_sessions :=
               map (setHistory sessionId (JSON_stringify env (jsonOfHistory history)))
                   (prompt_sessions d);
             image_versions := image_versions d |} ;;;
  emit (EvUpdateHistory sessionId).

(** [parseHistory] (worker.ts 618-630) *)
Definition parseHistory (env : Env) (history : option string) : M (list GeminiMessage) :=
  if negb (truthyOpt history) then ret []
  else
    match JSON_parse env (orElse history "") with
    | None => log "Failed to parse session history" ;;; ret []
    | Some parsed =>
        match decodeHistory parsed with
        | Throw _ => log "Failed to parse session history" ;;; ret []
        | Ok messages => ret messages
        end
    end.

(* ================================================================= *)
(** ** External calls (worker.ts 450-521, 654-719) *)

Record UploadResult : Type := {
  ur_id : string;
  ur_publicUrl : string
}.

Definition uploadToCloudflareImages (env : Env) (imageBytes : string) (mime : json)
    (metadata : Metadata) : M UploadResult :=
  match images_api env imageBytes mime metadata with
  | None =>
      log "Cloudflare Images error" ;;;
      emit (EvBlobWrite None) ;;;
      throw "Failed to upload to Cloudflare Images"
  | Some imageId =>
      emit (EvBlobWrite (Some imageId)) ;;;
      ret {| ur_id := imageId; ur_publicUrl := publicUrl env imageId |}
  end.

Definition fetchImageAsBase64 (env : Env) (imageId : string) : Result (string * string) :=
  match cdn_fetch env (publicUrl env imageId) with
  | None => Throw ("Unable to download image " +++ imageId +++ " for editing")
  | Some (buffer, contentType) => Ok (btoa env buffer, orElse contentType "image/png")
  end.

Definition decodeBase64 (env : Env) (d : option json) : Result string :=
  match d with
  | Some (JStr s) =>
      match atob env (removeWhiteSpace s) with
      | Some binary => Ok binary
      | None => Throw "InvalidCharacterError"
      end
  | _ => Throw TypeError
  end.

Definition buildSystemInstruction (env : Env) (basePrompt : string)
    (cameraAngle : option string) : GeminiMessage :=
  let promptLines :=
    [orElse (SYSTEM_PROMPT env) DEFAULT_SYSTEM_PROMPT]
    ++ (if truthy basePrompt then ["Design intent: " +++ basePrompt] else [])
    ++ (if truthyOpt cameraAngle
        then ["Focus on the " +++ orElse cameraAngle "" +++ " angle unless directed otherwise."]
        else [])
    ++ ["Preserve project context across turns and never overwrite previous versions; always branch new variations."] in
  {| role := Some (JStr "system");
     parts := [textPart (join (String (ascii_of_nat 10) EmptyString) promptLines)] |}.

Definition generateImageFromGemini (env : Env) (messages : list GeminiMessage)
    (systemMessage : GeminiMessage) (aspectRatio : option string) : M AiResponse :=
  match gemini env messages systemMessage aspectRatio with
  | None => emit (EvOracle messages false) ;;; throw "Gemini request failed"
  | Some response => emit (EvOracle messages true) ;;; ret response
  end.

(* ================================================================= *)
(** ** Upload workflow (worker.ts 123-194) *)

Definition handleUpload (env : Env) (request : UploadRequest) : M Response :=
  let contentType := orElse (content_type request) "" in
  if negb (includes contentType "multipart/form-data")
  then ret (jsonResponse (BError "Expected multipart/form-data") 415)
  else
    match form_file request with
    | None => ret (jsonResponse (BError "File field is required") 400)
    | Some file =>
        let assetType := orElse (form_asset_type request) "photo" in
        let basePrompt := orElse (form_base_prompt request) "" in
        let designIntent := orElse (form_design_intent request) basePrompt in
        let aspectRatio := form_aspect_ratio request in
        let systemPrompt := orElse (SYSTEM_PROMPT env) DEFAULT_SYSTEM_PROMPT in
        let basePromptHash := hashString env designIntent in
        sessionId <- newUUID env ;;
        insertSession {| ps_id := sessionId; ps_base_prompt := designIntent;
                         ps_system_prompt := systemPrompt;
                         ps_base_prompt_hash := basePromptHash;
                         ps_history := JSON_stringify env (JArr []) |} ;;;
        let fileBytes := file_bytes file in
        let now := Date_now env in
        let imageMetadata :=
          {| md_asset_type := Some assetType;
             md_parent_id := None;
             md_edit_instruction := None;
             md_model := "source";
             md_base_prompt_hash := basePromptHash;
             md_timestamp := now;
             md_synth_id := true;
             md_image_ids := [];
             md_session_id := None;
             md_angle_id := None;
             md_aspect_ratio :=
               match aspectRatio with
               | Some r => if truthy r && supportedAspectRatio r then Some r else None
               | None => None
               end;
             md_previous_version_id := None;
             md_cloudflare_image_id := None;
             md_diff_summary := None |} in
        uploadResult <- uploadToCloudflareImages env fileBytes
                          (JStr (orString (file_type file) "image/png")) imageMetadata ;;
        versionId <- newUUID env ;;
        insertVersion
          {| iv_id := versionId;
             iv_parent_id := None;
             iv_base_prompt := Some designIntent;
             iv_edit_prompt := None;
             iv_model := "source";
             iv_created_at := CURRENT_TIMESTAMP env;
             iv_image_url := ur_publicUrl uploadResult;
             iv_metadata :=
               Some {| md_asset_type := md_asset_type imageMetadata;
                       md_parent_id := None;
                       md_edit_instruction := None;
                       md_model := "source";
                       md_base_prompt_hash := basePromptHash;
                       md_timestamp := now;
                       md_synth_id := true;
                       md_image_ids := [];
                       md_session_id := Some sessionId;
                       md_angle_id := None;
                       md_aspect_ratio := md_aspect_ratio imageMetadata;
                       md_previous_version_id := None;
                       md_cloudflare_image_id := Some (ur_id uploadResult);
                       md_diff_summary := None |};
             iv_chat_id := Some sessionId;
             iv_aspect_ratio := aspectRatio;
             iv_diff_summary := None |}
          (ur_id uploadResult) ;;;
        ret (jsonResponse
               (BUploaded (ur_id uploadResult) versionId sessionId
                          (ur_publicUrl uploadResult) "Initial upload"
                          "Would you like to request an initial render or annotate the floor plan?")
               200)
    end.

(* ================================================================= *)
(** ** Edit workflow (worker.ts 196-351) *)

(** Lines 211-227: the previous version, then the session, by the three
    rules in order; each rule runs only while no session has been found. *)
Definition resolveSession (env : Env) (body : EditRequestBody)
  : M (option VersionRecord * option SessionRecord) :=
  previousVersion <-
    (if truthyOpt (previous_version_id body)
     then getVersionById (orElse (previous_version_id body) "")
     else ret None) ;;
  session <-
    (match previousVersion with
     | Some pv =>
         if truthyOpt (vr_chat_id pv)
         then getSessionById (orElse (vr_chat_id pv) "")
         else ret None
     | None => ret None
     end) ;;
  session <-
    (match session with
     | None =>
         if truthyOpt (session_id body)
         then getSessionById (orElse (session_id body) "")
         else ret None
     | Some s => ret (Some s)
     end) ;;
  session <-
    (match session with
     | None =>
         if truthyOpt (base_prompt body)
         then s <- createSession env (orElse (base_prompt body) "") ;; ret (Some s)
         else ret None
     | Some s => ret (Some s)
     end) ;;
  ret (previousVersion, session).

(** Lines 247-252: the callback of [body.image_ids.map]. *)
Definition imagePayload (env : Env) (imageId : string) : Result GeminiPart :=
  match fetchImageAsBase64 env imageId with
  | Throw e => Throw e
  | Ok (base64, mime) => Ok (inlinePart mime base64)
  end.

(** Lines 256-270: the parts contributed by the masks. *)
Fixpoint maskParts (env : Env) (ms : list Mask) : Result (list GeminiPart) :=
  match ms with
  | [] => Ok []
  | mask :: rest =>
      let here :=
        if truthyOpt (mask_data mask)
        then Ok [inlinePart (orElse (mask_mime_type mask) "image/png")
                            (orElse (mask_data mask) "")]
        else if truthyOpt (mask_image_id mask)
        then match fetchImageAsBase64 env (orElse (mask_image_id mask) "") with
             | Throw e => Throw e
             | Ok (base64, mime) => Ok [inlinePart mime base64]
             end
        else Ok [] in
      match here with
      | Throw e => Throw e
      | Ok ps =>
          match maskParts env rest with
          | Throw e => Throw e
          | Ok qs => Ok (ps ++ qs)
          end
      end
  end.

(** [parts?.length] as a condition. *)
Definition lengthTruthy (p : option json) : bool :=
  match p with
  | Some (JArr items) => negb (Nat.eqb (List.length items) 0)
  | Some (JStr s) => truthy s
  | Some (JObj fields) => truthyJs (assoc "length" fields)
  | _ => false
  end.

Definition hasInline (part : GeminiPart) : bool :=
  match inlineData part with Some _ => true | None => false end.

Definition handleEdit (env : Env) (request : option EditRequestBody) : M Response :=
  match request with
  | None => ret (jsonResponse (BError "Invalid JSON body") 400)
  | Some body =>
    if Nat.eqb (List.length (image_ids body)) 0
    then ret (jsonResponse (BError "At least one image_id is required") 400)
    else if negb (truthy (edit_prompt body))
    then ret (jsonResponse (BError "edit_prompt is required") 400)
    else
      resolved <- resolveSession env body ;;
      let previousVersion := fst resolved in
      let parentId := option_map vr_id previousVersion in
      match snd resolved with
      | None => ret (jsonResponse (BError "A session or base prompt is required to edit") 400)
      | Some session =>
        let aspectRatio :=
          if truthyOpt (aspect_ratio body)
             && supportedAspectRatio (orElse (aspect_ratio body) "")
          then aspect_ratio body
          else match previousVersion with
               | Some pv => vr_aspect_ratio pv
               | None => None
               end in
        let cameraAngle := inferCameraAngle (edit_prompt body) (camera_hint body) in
        let designIntent :=
          match previousVersion with
          | Some pv => vr_base_prompt pv
          | None => ps_base_prompt session
          end in
        let basePromptHash := ps_base_prompt_hash session in
        conversation <- parseHistory env (Some (ps_history session)) ;;
        imagePayloads <- lift (mapResult (imagePayload env) (image_ids body)) ;;
        maskPayloads <- lift (maskParts env (masks body)) ;;
        let inlineParts := imagePayloads ++ maskPayloads in
        let userMessage :=
          {| role := Some (JStr "user");
             parts := textPart (edit_prompt body) :: inlineParts |} in
        let systemInstruction := buildSystemInstruction env designIntent cameraAngle in
        let messages := conversation ++ [userMessage] in
        aiResponse <- generateImageFromGemini env messages systemInstruction aspectRatio ;;
        if negb (lengthTruthy (candidate_parts aiResponse))
        then ret (jsonResponse (BError "Gemini response did not include image data") 502)
        else
          modelParts <- lift (normalizeParts (candidate_parts aiResponse)) ;;
          match find hasInline modelParts with
          | None => ret (jsonResponse (BError "Gemini response missing inline image") 502)
          | Some inlineImagePart =>
            match inlineData inlineImagePart with
            | None => ret (jsonResponse (BError "Gemini response missing inline image") 502)
            | Some image =>
              let textSummary := summarizeParts modelParts in
              let followup :=
                buildFollowupSuggestion cameraAngle (0 <? String.length textSummary) in
              imageBytes <- lift (decodeBase64 env (data image)) ;;
              let now := Date_now env in
              let metadata :=
                {| md_asset_type := None;
                   md_parent_id := parentId;
                   md_edit_instruction := Some (edit_prompt body);
                   md_model := orElse (GEMINI_MODEL env) DEFAULT_MODEL;
                   md_base_prompt_hash := basePromptHash;
                   md_timestamp := now;
                   md_synth_id := true;
                   md_image_ids := image_ids body;
                   md_session_id := Some (ps_id session);
                   md_angle_id := cameraAngle;
                   md_aspect_ratio := aspectRatio;
                   md_previous_version_id := parentId;
                   md_cloudflare_image_id := None;
                   md_diff_summary := None |} in
              uploadResult <- uploadToCloudflareImages env imageBytes (mimeType image) metadata ;;
              versionId <- newUUID env ;;
              insertVersion
                {| iv_id := versionId;
                   iv_parent_id := parentId;
                   iv_base_prompt := Some designIntent;
                   iv_edit_prompt := Some (edit_prompt body);
                   iv_model := md_model metadata;
                   iv_created_at := CURRENT_TIMESTAMP env;
                   iv_image_url := ur_publicUrl uploadResult;
                   iv_metadata :=
                     Some {| md_asset_type := None;
                             md_parent_id := parentId;
                             md_edit_instruction := Some (edit_prompt body);
                             md_model := md_model metadata;
                             md_base_prompt_hash := basePromptHash;
                             md_timestamp := now;
                             md_synth_id := true;
                             md_image_ids := image_ids body;
                             md_session_id := Some (ps_id session);
                             md_angle_id := cameraAngle;
                             md_aspect_ratio := aspectRatio;
                             md_previous_version_id := parentId;
                             md_cloudflare_image_id := Some (ur_id uploadResult);
                             md_diff_summary := Some textSummary |};
                   iv_chat_id := Some (ps_id session);
                   iv_aspect_ratio := aspectRatio;
                   iv_diff_summary := if truthy textSummary then Some textSummary else None |}
                (ur_id uploadResult) ;;;
              let updatedHistory :=
                messages ++ [{| role := Some (JStr "model"); parts := modelParts |}] in
              saveHistory env (ps_id session) (trimHistory updatedHistory) ;;;
              ret (jsonResponse
                     (BEdited (ur_id uploadResult) versionId (ur_publicUrl uploadResult)
                              (orString textSummary "Updated render created.")
                              followup)
                     200)
            end
          end
      end
  end.

(* ================================================================= *)
(** ** Latest render by angle (worker.ts 353-379) *)

(** [json_extract(metadata, '$.angle_id') = ?] *)
Definition angleMatches (angleId : string) (v : VersionRow) : bool :=
  match iv_metadata v with
  | Some m => match md_angle_id m with
              | Some a => String.eqb a angleId
              | None => false
              end
  | None => false
  end.

Definition renderAngleRows (d : DB) (angleId : string) : list VersionRow :=
  filter (angleMatches angleId) (image_versions d).

(** The rows that [ORDER BY datetime(created_at) DESC] may put first: the
    query names no second sort key, so any row with the greatest
    [created_at] can be the one [LIMIT 1] keeps. *)
Definition latestRows (rows : list VersionRow) : list VersionRow :=
  filter (fun v => forallb (fun u => iv_created_at u <=? iv_created_at v) rows) rows.

Inductive handleRenderAngle (d : DB) : option string -> Response -> Prop :=
| RenderAngle_required : forall angleId,
    truthyOpt angleId = false ->
    handleRenderAngle d angleId (jsonResponse (BError "angle_id is required") 400)
| RenderAngle_none : forall angleId,
    truthy angleId = true ->
    renderAngleRows d angleId = [] ->
    handleRenderAngle d (Some angleId)
      (jsonResponse (BError "No render found for that angle") 404)
| RenderAngle_first : forall angleId result,
    truthy angleId = true ->
    In result (latestRows (renderAngleRows d angleId)) ->
    handleRenderAngle d (Some angleId)
      (jsonResponse (BRender (iv_id result) (iv_image_url result)
                             (iv_diff_summary result) (iv_metadata result)) 200).

(** The row SQLite returns.  No index serves the [WHERE] clause, so the
    table is scanned in rowid order, which is the order of insertion (the
    Worker never deletes a row); the sorter behind [ORDER BY ... LIMIT 1]
    replaces the row it holds only by one whose [created_at] is strictly
    greater.  Of several rows with the greatest [created_at], the one
    inserted first is returned. *)
Definition firstLatest (rows : list VersionRow) : option VersionRow :=
  fold_left (fun kept v =>
               match kept with
               | None => Some v
               | Some k => if iv_created_at k <? iv_created_at v then Some v else Some k
               end)
            rows None.

(** [handleRenderAngle] as it runs on SQLite: one of the responses the
    relation above admits. *)
Definition renderAngle (d : DB) (angleId : option string) : Response :=
  if negb (truthyOpt angleId)
  then jsonResponse (BError "angle_id is required") 400
  else match firstLatest (renderAngleRows d (orElse angleId "")) with
       | None => jsonResponse (BError "No render found for that angle") 404
       | Some result =>
           jsonResponse (BRender (iv_id result) (iv_image_url result)
                                 (iv_diff_summary result) (iv_metadata result)) 200
       end.

(* ================================================================= *)
(** ** Lineage (worker.ts 381-408) *)

(** A row of the recursive table [history(id, parent_id, depth)]. *)
Record HistoryRow : Type := {
  h_id : string;
  h_parent_id : option string;
  h_depth : nat
}.

(** [SELECT id, parent_id, 0 FROM image_versions WHERE id = ?] *)
Definition cteSeed (rows : list VersionRow) (id : string) : list HistoryRow :=
  map (fun iv => {| h_id := iv_id iv; h_parent_id := iv_parent_id iv; h_depth := 0 |})
      (filter (fun iv => String.eqb (iv_id iv) id) rows).

(** The recursive member, for one row of [history]:
    [SELECT iv.id, iv.parent_id, history.depth + 1 ... ON iv.parent_id = history.id] *)
Definition cteStep (rows : list VersionRow) (h : HistoryRow) : list HistoryRow :=
  map (fun iv => {| h_id := iv_id iv; h_parent_id := iv_parent_id iv;
                    h_depth := h_depth h + 1 |})
      (filter (fun iv => match iv_parent_id iv with
                         | Some p => String.eqb p (h_id h)
                         | None => false
                         end) rows).

(** [WITH RECURSIVE ... UNION ALL]: the working table is fed back until it
    is empty; [fuel] bounds the number of rounds. *)
Fixpoint cteRounds (fuel : nat) (rows : list VersionRow) (working : list HistoryRow)
  : list HistoryRow :=
  match fuel with
  | 0 => []
  | S fuel' => working ++ cteRounds fuel' rows (flat_map (cteStep rows) working)
  end.

Definition historyCte (rows : list VersionRow) (id : string) : list HistoryRow :=
  cteRounds (S (List.length rows)) rows (cteSeed rows id).

(** [image_versions iv JOIN history ON iv.id = history.id], each joined row
    with the depth it is ordered by. *)
Definition historyJoin (rows : list VersionRow) (hist : list HistoryRow)
  : list (VersionRow * nat) :=
  flat_map (fun h => map (fun iv => (iv, h_depth h))
                         (filter (fun iv => String.eqb (iv_id iv) (h_id h)) rows))
           hist.

Definition byDepth (a b : VersionRow * nat) : Prop := snd a <= snd b.

(** The rows the query may return: the joined rows in any order that
    [ORDER BY history.depth] allows. *)
Definition historyRows (d : DB) (id : string) (result : list (VersionRow * nat)) : Prop :=
  Permutation result (historyJoin (image_versions d) (historyCte (image_versions d) id))
  /\ StronglySorted byDepth result.

(** The rows in the order SQLite returns them.  The recursive table is
    filled first in, first out; the children of a row are found through
    the index on [parent_id], in rowid order, which is the order of
    insertion; the outer query visits the rows of [history] in that order
    and looks each version up by its key; and the sorter keeps rows of
    equal depth in the order in which they arrive.  So the versions of one
    depth come grouped under their parents. *)
Definition lineage (d : DB) (id : string) : list (VersionRow * nat) :=
  historyJoin (image_versions d) (historyCte (image_versions d) id).

Definition historyEntry (row : VersionRow) : HistoryEntry :=
  {| he_id := iv_id row;
     he_parent_id := iv_parent_id row;
     he_image_url := iv_image_url row;
     he_edit_prompt := iv_edit_prompt row;
     he_diff_summary := iv_diff_summary row;
     he_metadata := iv_metadata row;
     he_created_at := iv_created_at row |}.

Inductive handleHistory (d : DB) (id : string) : Response -> Prop :=
| History_rows : forall result,
    historyRows d id result ->
    handleHistory d id
      (jsonResponse (BVersions (map (fun r => historyEntry (fst r)) result)) 200).

(* ================================================================= *)
(** ** Runs of the Worker *)

(** One request served: the state after an upload or an edit, whatever the
    collaborators answered and whether or not the handler threw. *)
Inductive step : State -> State -> Prop :=
| step_upload : forall env request st,
    step st (snd (handleUpload env request st))
| step_edit : forall env request st,
    step st (snd (handleEdit env request st)).

Inductive reachable : State -> Prop :=
| reach_initial : reachable initial
| reach_step : forall st st', reachable st -> step st st' -> reachable st'.

(** The version graph is a forest in insertion order: ids are unique and a
    parent is an earlier row. *)
Fixpoint forest (seen : list string) (rows : list VersionRow) : Prop :=
  match rows with
  | [] => True
  | v :: rest =>
      ~ In (iv_id v) seen
      /\ match iv_parent_id v with
         | Some p => In p seen
         | None => True
         end
      /\ forest (seen ++ [iv_id v]) rest
  end.

Definition wellFormed (d : DB) : Prop := forest [] (image_versions d).

(** [v] is [d] generations below the version [root]. *)
Inductive descends (rows : list VersionRow) (root : string) : VersionRow -> nat -> Prop :=
| descends_self : forall v,
    In v rows -> iv_id v = root -> descends rows root v 0
| descends_child : forall p v n,
    descends rows root p n -> In v rows -> iv_parent_id v = Some (iv_id p) ->
    descends rows root v (S n).

(* ================================================================= *)
(** ** A reference [btoa] / [atob] (RFC 4648 base64 over binary strings) *)

Module Base64.

Definition encodeChar (n : nat) : ascii :=
  if n <? 26 then ascii_of_nat (65 + n)
  else if n <? 52 then ascii_of_nat (71 + n)
  else if n <? 62 then ascii_of_nat (n - 4)
  else if n =? 62 then ascii_of_nat 43
  else ascii_of_nat 47.

Definition decodeChar (c : ascii) : option nat :=
  let n := code c in
  if (65 <=? n) && (n <=? 90) then Some (n - 65)
  else if (97 <=? n) && (n <=? 122) then Some (n - 71)
  else if (48 <=? n) && (n <=? 57) then Some (n + 4)
  else if n =? 43 then Some 62
  else if n =? 47 then Some 63
  else None.

Definition pad : ascii := ascii_of_nat 61.

Fixpoint btoa (s : string) : string :=
  match s with
  | EmptyString => EmptyString
  | String a EmptyString =>
      let x := code a in
      String (encodeChar (x / 4))
        (String (encodeChar ((x mod 4) * 16)) (String pad (String pad EmptyString)))
  | String a (String b EmptyString) =>
      let x := code a in
      let y := code b in
      String (encodeChar (x / 4))
        (String (encodeChar ((x mod 4) * 16 + y / 16))
           (String (encodeChar ((y mod 16) * 4)) (String pad EmptyString)))
  | String a (String b (String c rest)) =>
      let x := code a in
      let y := code b in
      let z := code c in
      String (encodeChar (x / 4))
        (String (encodeChar ((x mod 4) * 16 + y / 16))
           (String (encodeChar ((y mod 16) * 4 + z / 64))
              (String (encodeChar (z mod 64)) (btoa rest))))
  end.

(** Input without its padding; a single leftover character is an error. *)
Fixpoint decodeUnpadded (s : string) : option string :=
  match s with
  | EmptyString => Some EmptyString
  | String _ EmptyString => None
  | String a (String b EmptyString) =>
      match decodeChar a, decodeChar b with
      | Some p, Some q => Some (String (ascii_of_nat (p * 4 + q / 16)) EmptyString)
      | _, _ => None
      end
  | String a (String b (String c EmptyString)) =>
      match decodeChar a, decodeChar b, decodeChar c with
      | Some p, Some q, Some r =>
          Some (String (ascii_of_nat (p * 4 + q / 16))
                  (String (ascii_of_nat ((q mod 16) * 16 + r / 4)) EmptyString))
      | _, _, _ => None
      end
  | String a (String b (String c (String d rest))) =>
      match decodeChar a, decodeChar b, decodeChar c, decodeChar d, decodeUnpadded rest with
      | Some p, Some q, Some r, Some t, Some tail =>
          Some (String (ascii_of_nat (p * 4 + q / 16))
                  (String (ascii_of_nat ((q mod 16) * 16 + r / 4))
                     (String (ascii_of_nat ((r mod 4) * 64 + t)) tail)))
      | _, _, _, _, _ => None
      end
  end.

(** One or two trailing [=] are dropped when the length is a multiple of 4. *)
Fixpoint dropPadding (s : string) : string :=
  match s with
  | String a (String b EmptyString) =>
      if Ascii.eqb b pad
      then if Ascii.eqb a pad then EmptyString else String a EmptyString
      else s
  | String a rest => String a (dropPadding rest)
  | EmptyString => EmptyString
  end.

Definition atob (s : string) : option string :=
  decodeUnpadded (if String.length s mod 4 =? 0 then dropPadding s else s).

End Base64.

(* ================================================================= *)
(** ** A concrete environment for the scenarios

    [scenarioEnv n] answers the n-th request of a scenario: every CDN image
    exists, the oracle returns one commentary part and one image part, and
    the blob store accepts the upload under the id [img-n].  SHA-256 is
    tabulated on the two intents the scenarios use. *)

Module Scenario.

Definition showNat (n : nat) : string := NilZero.string_of_uint (Nat.to_uint n).

Definition sha256_table (s : string) : list nat :=
  if String.eqb s ""
  then [227; 176; 196; 66; 152; 252; 28; 20; 154; 251; 244; 200; 153; 111; 185; 36;
        39; 174; 65; 228; 100; 155; 147; 76; 164; 149; 153; 27; 120; 82; 184; 85]
  else if String.eqb s "modern kitchen"
  then [84; 1; 161; 192; 195; 32; 25; 228; 208; 212; 77; 130; 40; 147; 74; 8;
        217; 74; 146; 49; 241; 231; 185; 63; 149; 210; 45; 136; 120; 88; 162; 126]
  else [].

Definition oracleParts : json :=
  JArr [ JObj [("text", JStr "Added a patio door.")];
         JObj [("inlineData", JObj [("mimeType", JStr "image/png"); ("data", JStr "QUJD")])] ].

Definition scenarioEnv (n : nat) : Env :=
  {| GEMINI_MODEL := None;
     SYSTEM_PROMPT := None;
     CF_IMAGES_DELIVERY_URL := "https://imagedelivery.net/acct/";
     randomUUID := fun k => "uuid-" +++ showNat k;
     Date_now := 7;
     CURRENT_TIMESTAMP := 7;
     sha256 := sha256_table;
     JSON_parse := Json.parse;
     JSON_stringify := Json.stringify;
     atob := fun s => Some s;
     btoa := fun s => s;
     cdn_fetch := fun _ => Some ("PNG", Some "image/png");
     gemini := fun _ _ _ => Some {| candidate_parts := Some oracleParts |};
     images_api := fun _ _ _ => Some ("img-" +++ showNat n) |}.

(** The same environment with another answer from one collaborator. *)
Definition withOracle (env : Env) (answer : option AiResponse) : Env :=
  {| GEMINI_MODEL := GEMINI_MODEL env; SYSTEM_PROMPT := SYSTEM_PROMPT env;
     CF_IMAGES_DELIVERY_URL := CF_IMAGES_DELIVERY_URL env;
     randomUUID := randomUUID env; Date_now := Date_now env;
     CURRENT_TIMESTAMP := CURRENT_TIMESTAMP env; sha256 := sha256 env;
     JSON_parse := JSON_parse env; JSON_stringify := JSON_stringify env;
     atob := atob env; btoa := btoa env; cdn_fetch := cdn_fetch env;
     gemini := fun _ _ _ => answer;
     images_api := images_api env |}.

Definition withBlobStore (env : Env) (answer : option string) : Env :=
  {| GEMINI_MODEL := GEMINI_MODEL env; SYSTEM_PROMPT := SYSTEM_PROMPT env;
     CF_IMAGES_DELIVERY_URL := CF_IMAGES_DELIVERY_URL env;
     randomUUID := randomUUID env; Date_now := Date_now env;
     CURRENT_TIMESTAMP := CURRENT_TIMESTAMP env; sha256 := sha256 env;
     JSON_parse := JSON_parse env; JSON_stringify := JSON_stringify env;
     atob := atob env; btoa := btoa env; cdn_fetch := cdn_fetch env;
     gemini := gemini env;
     images_api := fun _ _ _ => answer |}.

Definition upload (intent : option string) : UploadRequest :=
  {| content_type := Some "multipart/form-data; boundary=x";
     form_file := Some {| file_bytes := "PNG"; file_type := "image/png" |};
     form_asset_type := None;
     form_base_prompt := None;
     form_design_intent := intent;
     form_aspect_ratio := None |}.

Definition edit (instruction : string) (previous session intent : option string)
  : EditRequestBody :=
  {| image_ids := ["img-0"];
     edit_prompt := instruction;
     base_prompt := intent;
     previous_version_id := previous;
     aspect_ratio := None;
     session_id := session;
     masks := [];
     camera_hint := None |}.

(** Upload F with intent "modern kitchen", then two edits of the root. *)
Definition afterUpload : State :=
  snd (handleUpload (scenarioEnv 0) (upload (Some "modern kitchen")) initial).

Definition afterPatio : State :=
  snd (handleEdit (scenarioEnv 1)
         (Some (edit "render the patio view" (Some "uuid-1") None None)) afterUpload).

Definition afterSecondPatio : State :=
  snd (handleEdit (scenarioEnv 2)
         (Some (edit "patio at dusk" (Some "uuid-1") None None)) afterPatio).

End Scenario.

(** Lines 279 and 341-342: what one edit stores back as the session's
    history, given the conversation it read. *)
Definition appendTurn (conversation : list GeminiMessage)
    (userMessage modelMessage : GeminiMessage) : list GeminiMessage :=
  trimHistory ((conversation ++ [userMessage]) ++ [modelMessage]).

(** A sequence of edits on one session, each reading what the last stored. *)
Definition appendTurns (start : list GeminiMessage)
    (turns : list (GeminiMessage * GeminiMessage)) : list GeminiMessage :=
  fold_left (fun h t => appendTurn h (fst t) (snd t)) turns start.

(** The last [n] elements of a list. *)
Definition lastn {A : Type} (n : nat) (l : list A) : list A :=
  skipn (List.length l - n) l.


(* ================================================================= *)
(** ** What session resolution may do to the state *)

Definition sessionAdded (st st' : State) (row : SessionRecord) : Prop :=
  db st' = {| prompt_sessions := prompt_sessions (db st) ++ [row];
              image_versions := image_versions (db st) |}
  /\ console st' = console st
  /\ trace st' = trace st ++ [EvInsertSession (ps_id row)]
  /\ ps_history row = "[]"
  /\ ~ In (ps_id row) (map ps_id (prompt_sessions (db st))).

Definition sameStores (st st' : State) : Prop :=
  db st' = db st /\ console st' = console st /\ trace st' = trace st.

Definition knownVersion (st : State) (pv : option VersionRecord) : Prop :=
  forall v, pv = Some v ->
    exists row, In row (image_versions (db st)) /\ vr_id v = iv_id row
                /\ vr_chat_id v = iv_chat_id row.


(* ================================================================= *)
(** ** The runs of [handleEdit], path by path *)

Definition validBody (body : EditRequestBody) : Prop :=
  image_ids body <> [] /\ edit_prompt body <> EmptyString.

(** Line 272-275: the new user turn. *)
Definition userTurn (body : EditRequestBody) (inlineParts : list GeminiPart) : GeminiMessage :=
  {| role := Some (JStr "user"); parts := textPart (edit_prompt body) :: inlineParts |}.

Definition modelTurn (modelParts : list GeminiPart) : GeminiMessage :=
  {| role := Some (JStr "model"); parts := modelParts |}.

(** Everything up to the oracle call went through: the session is
    resolved, its history read, the images fetched, and [messages] is what
    the oracle is about to receive in state [st2]. *)
Definition Prepared (env : Env) (body : EditRequestBody) (st : State)
    (pv : option VersionRecord) (session : SessionRecord) (st2 : State)
    (conversation messages : list GeminiMessage) : Prop :=
  validBody body
  /\ exists st1 imagePayloads maskPayloads,
       resolveSession env body st = (Ok (pv, Some session), st1)
       /\ parseHistory env (Some (ps_history session)) st1 = (Ok conversation, st2)
       /\ mapResult (imagePayload env) (image_ids body) = Ok imagePayloads
       /\ maskParts env (masks body) = Ok maskPayloads
       /\ messages = conversation ++ [userTurn body (imagePayloads ++ maskPayloads)].

Inductive EditRun (env : Env) (body : EditRequestBody) (st : State)
  : Result Response -> State -> Prop :=
| Run_no_images :
    image_ids body = [] ->
    EditRun env body st
      (Ok (jsonResponse (BError "At least one image_id is required") 400)) st
| Run_no_prompt :
    image_ids body <> [] -> edit_prompt body = EmptyString ->
    EditRun env body st (Ok (jsonResponse (BError "edit_prompt is required") 400)) st
| Run_resolve_threw : forall e st',
    validBody body ->
    resolveSession env body st = (Throw e, st') ->
    EditRun env body st (Throw e) st'
| Run_no_session : forall pv st',
    validBody body ->
    resolveSession env body st = (Ok (pv, None), st') ->
    EditRun env body st
      (Ok (jsonResponse (BError "A session or base prompt is required to edit") 400)) st'
| Run_fetch_failed : forall pv session st1 conversation st' e,
    validBody body ->
    resolveSession env body st = (Ok (pv, Some session), st1) ->
    parseHistory env (Some (ps_history session)) st1 = (Ok conversation, st') ->
    (mapResult (imagePayload env) (image_ids body) = Throw e
     \/ maskParts env (masks body) = Throw e) ->
    EditRun env body st (Throw e) st'
| Run_oracle_threw : forall pv session st2 conversation messages sys ar e st',
    Prepared env body st pv session st2 conversation messages ->
    gemini env messages sys ar = None ->
    db st' = db st2 ->
    trace st' = trace st2 ++ [EvOracle messages false] ->
    EditRun env body st (Throw e) st'
| Run_unusable : forall pv session st2 conversation messages sys ar answer r st',
    Prepared env body st pv session st2 conversation messages ->
    gemini env messages sys ar = Some answer ->
    ((exists e, r = Throw e)
     \/ (exists msg, r = Ok (jsonResponse (BError msg) 502))) ->
    db st' = db st2 ->
    trace st' = trace st2 ++ [EvOracle messages true] ->
    EditRun env body st r st'
| Run_blob_failed : forall pv session st2 conversation messages sys ar answer
                           modelParts image e st',
    Prepared env body st pv session st2 conversation messages ->
    gemini env messages sys ar = Some answer ->
    normalizeParts (candidate_parts answer) = Ok modelParts ->
    find hasInline modelParts = Some image ->
    db st' = db st2 ->
    trace st' = trace st2 ++ [EvOracle messages true; EvBlobWrite None] ->
    EditRun env body st (Throw e) st'
| Run_version_conflict : forall pv session st2 conversation messages sys ar answer
                                modelParts image imageId e st',
    Prepared env body st pv session st2 conversation messages ->
    gemini env messages sys ar = Some answer ->
    normalizeParts (candidate_parts answer) = Ok modelParts ->
    find hasInline modelParts = Some image ->
    db st' = db st2 ->
    trace st' = trace st2 ++ [EvOracle messages true; EvBlobWrite (Some imageId)] ->
    EditRun env body st (Throw e) st'
| Run_done : forall pv session st2 conversation messages sys ar answer
                    modelParts image imageId versionId row md st',
    Prepared env body st pv session st2 conversation messages ->
    gemini env messages sys ar = Some answer ->
    normalizeParts (candidate_parts answer) = Ok modelParts ->
    find hasInline modelParts = Some image ->
    image_versions (db st') = image_versions (db st2) ++ [row] ->
    iv_metadata row = Some md ->
    iv_id row = versionId ->
    ~ In versionId (map iv_id (image_versions (db st2))) ->
    iv_parent_id row = option_map vr_id pv ->
    iv_chat_id row = Some (ps_id session) ->
    iv_created_at row = CURRENT_TIMESTAMP env ->
    iv_image_url row = publicUrl env imageId ->
    iv_diff_summary row
      = (if truthy (summarizeParts modelParts) then Some (summarizeParts modelParts) else None) ->
    md_cloudflare_image_id md = Some imageId ->
    md_angle_id md = inferCameraAngle (edit_prompt body) (camera_hint body) ->
    md_base_prompt_hash md = ps_base_prompt_hash session ->
    prompt_sessions (db st')
      = map (setHistory (ps_id session)
               (JSON_stringify env
                  (jsonOfHistory (trimHistory (messages ++ [modelTurn modelParts])))))
            (prompt_sessions (db st2)) ->
    trace st' = trace st2 ++ [EvOracle messages true; EvBlobWrite (Some imageId);
                              EvInsertVersion versionId imageId;
                              EvUpdateHistory (ps_id session)] ->
    EditRun env body st
      (Ok (jsonResponse
             (BEdited imageId versionId (publicUrl env imageId)
                      (orString (summarizeParts modelParts) "Updated render created.")
                      (buildFollowupSuggestion
                         (inferCameraAngle (edit_prompt body) (camera_hint body))
                         (0 <? String.length (summarizeParts modelParts))))
             200))
      st'.


(* ================================================================= *)
(** ** The runs of [handleUpload], path by path *)

(** Lines 137-138: the design intent an upload carries. *)
Definition uploadIntent (request : UploadRequest) : string :=
  orElse (form_design_intent request) (orElse (form_base_prompt request) "").

(** The session row an upload inserts first. *)
Definition UploadSession (env : Env) (request : UploadRequest) (st : State)
    (session : SessionRecord) : Prop :=
  ps_id session = randomUUID env (uuid_calls st)
  /\ ps_base_prompt session = uploadIntent request
  /\ ps_base_prompt_hash session = hashString env (uploadIntent request)
  /\ ps_history session = JSON_stringify env (JArr [])
  /\ ~ In (ps_id session) (map ps_id (prompt_sessions (db st))).

Inductive UploadRun (env : Env) (request : UploadRequest) (st : State)
  : Result Response -> State -> Prop :=
| Up_not_multipart :
    includes (orElse (content_type request) "") "multipart/form-data" = false ->
    UploadRun env request st
      (Ok (jsonResponse (BError "Expected multipart/form-data") 415)) st
| Up_no_file :
    includes (orElse (content_type request) "") "multipart/form-data" = true ->
    form_file request = None ->
    UploadRun env request st (Ok (jsonResponse (BError "File field is required") 400)) st
| Up_session_conflict : forall e st',
    sameStores st st' ->
    UploadRun env request st (Throw e) st'
| Up_blob_failed : forall session e st',
    UploadSession env request st session ->
    prompt_sessions (db st') = prompt_sessions (db st) ++ [session] ->
    image_versions (db st') = image_versions (db st) ->
    trace st' = trace st ++ [EvInsertSession (ps_id session); EvBlobWrite None] ->
    UploadRun env request st (Throw e) st'
| Up_version_conflict : forall session imageId e st',
    UploadSession env request st session ->
    prompt_sessions (db st') = prompt_sessions (db st) ++ [session] ->
    image_versions (db st') = image_versions (db st) ->
    trace st' = trace st ++ [EvInsertSession (ps_id session); EvBlobWrite (Some imageId)] ->
    UploadRun env request st (Throw e) st'
| Up_done : forall session imageId versionId row md st',
    UploadSession env request st session ->
    prompt_sessions (db st') = prompt_sessions (db st) ++ [session] ->
    image_versions (db st') = image_versions (db st) ++ [row] ->
    iv_metadata row = Some md ->
    iv_id row = versionId ->
    versionId = randomUUID env (S (uuid_calls st)) ->
    ~ In versionId (map iv_id (image_versions (db st))) ->
    iv_parent_id row = None ->
    iv_chat_id row = Some (ps_id session) ->
    iv_base_prompt row = Some (uploadIntent request) ->
    iv_created_at row = CURRENT_TIMESTAMP env ->
    iv_image_url row = publicUrl env imageId ->
    iv_diff_summary row = None ->
    md_cloudflare_image_id md = Some imageId ->
    md_angle_id md = None ->
    md_base_prompt_hash md = hashString env (uploadIntent request) ->
    trace st' = trace st ++ [EvInsertSession (ps_id session); EvBlobWrite (Some imageId);
                             EvInsertVersion versionId imageId] ->
    UploadRun env request st
      (Ok (jsonResponse
             (BUploaded imageId versionId (randomUUID env (uuid_calls st))
                (publicUrl env imageId)
                "Initial upload"
                "Would you like to request an initial render or annotate the floor plan?")
             200))
      st'.


(* ================================================================= *)
(** ** Observations on a run *)

(** What session resolution can have done by the time the oracle is
    called: nothing, or one new session row with an empty history. *)
Definition Resolved (st st1 : State) : Prop :=
  image_versions (db st1) = image_versions (db st)
  /\ ((prompt_sessions (db st1) = prompt_sessions (db st) /\ trace st1 = trace st)
      \/ exists row,
           prompt_sessions (db st1) = prompt_sessions (db st) ++ [row]
           /\ trace st1 = trace st ++ [EvInsertSession (ps_id row)]
           /\ ps_history row = "[]"
           /\ ~ In (ps_id row) (map ps_id (prompt_sessions (db st)))).


(** The artifact a version row points at. *)
Definition artifactOf (row : VersionRow) : option string :=
  match iv_metadata row with
  | Some md => md_cloudflare_image_id md
  | None => None
  end.

(** Every [EvInsertVersion] of the trace comes after a successful
    [EvBlobWrite] of the image it references; [stored] are the images
    written before the trace starts. *)
Fixpoint blobFirst (stored : list string) (t : list Event) : bool :=
  match t with
  | [] => true
  | EvBlobWrite (Some imageId) :: rest => blobFirst (imageId :: stored) rest
  | EvInsertVersion _ imageId :: rest =>
      existsb (String.eqb imageId) stored && blobFirst stored rest
  | _ :: rest => blobFirst stored rest
  end.

(** The sessions the first two rules of session resolution name. *)
Definition previousOf (st : State) (body : EditRequestBody) : option VersionRow :=
  if truthyOpt (previous_version_id body)
  then find (fun v => String.eqb (iv_id v) (orElse (previous_version_id body) ""))
            (image_versions (db st))
  else None.

Definition sessionOfPrevious (st : State) (body : EditRequestBody) : option SessionRecord :=
  match previousOf st body with
  | Some v =>
      if truthyOpt (iv_chat_id v)
      then find (fun s => String.eqb (ps_id s) (orElse (iv_chat_id v) ""))
                (prompt_sessions (db st))
      else None
  | None => None
  end.

Definition sessionOfId (st : State) (body : EditRequestBody) : option SessionRecord :=
  if truthyOpt (session_id body)
  then find (fun s => String.eqb (ps_id s) (orElse (session_id body) ""))
            (prompt_sessions (db st))
  else None.

Definition versionRecord (row : VersionRow) : VersionRecord :=
  {| vr_id := iv_id row; vr_parent_id := iv_parent_id row;
     vr_base_prompt := orElse (iv_base_prompt row) "";
     vr_metadata := iv_metadata row; vr_chat_id := iv_chat_id row;
     vr_aspect_ratio := iv_aspect_ratio row |}.

(** The stored history is unparseable: [JSON.parse] throws, or what it
    returns makes the mapping of [parseHistory] throw. *)
Definition corruptHistory (env : Env) (h : string) : Prop :=
  JSON_parse env h = None
  \/ exists parsed e, JSON_parse env h = Some parsed /\ decodeHistory parsed = Throw e.


(** Requests and environments of the failure scenarios. *)
Module Failures.

(** An edit that names no previous version and no session, only an intent. *)
Definition freshEdit : EditRequestBody :=
  Scenario.edit "add a skylight" None None (Some "modern kitchen").

(** An edit whose previous-version id and session id name nothing. *)
Definition danglingEdit : EditRequestBody :=
  Scenario.edit "add a skylight" (Some "no-such-version") (Some "no-such-session")
    (Some "modern kitchen").


Definition blobStoreDown : Env := Scenario.withBlobStore (Scenario.scenarioEnv 1) None.

End Failures.


(** More scenarios: an oracle that returns an image and no commentary, and
    a session whose stored history is not JSON. *)
Module Edge.

Definition imageOnly : json :=
  JArr [ JObj [("inlineData", JObj [("mimeType", JStr "image/png"); ("data", JStr "QUJD")])] ].

Definition silentOracle : Env :=
  Scenario.withOracle (Scenario.scenarioEnv 1)
    (Some {| candidate_parts := Some imageOnly |}).

(** An oracle whose only commentary is a single space. *)
Definition blankText : json :=
  JArr [ JObj [("text", JStr " ")];
         JObj [("inlineData", JObj [("mimeType", JStr "image/png"); ("data", JStr "QUJD")])] ].

Definition blankOracle : Env :=
  Scenario.withOracle (Scenario.scenarioEnv 1)
    (Some {| candidate_parts := Some blankText |}).

(** The state after the upload, with the session's history overwritten by
    text that is not JSON. *)
Definition corrupted : State :=
  {| db := {| prompt_sessions :=
                map (setHistory "uuid-0" "{not json")
                    (prompt_sessions (db Scenario.afterUpload));
              image_versions := image_versions (db Scenario.afterUpload) |};
     console := [];
     trace := trace Scenario.afterUpload;
     uuid_calls := uuid_calls Scenario.afterUpload |}.

Definition patioEdit : EditRequestBody :=
  Scenario.edit "render the patio view" (Some "uuid-1") None None.

End Edge.


(** The angle label a version carries, if any. *)
Definition angleOf (row : VersionRow) : option string :=
  match iv_metadata row with
  | Some md => md_angle_id md
  | None => None
  end.


(** What one request adds, as far as versions and the blob store go. *)
Definition orderly (st st' : State) : Prop :=
  exists new,
    trace st' = trace st ++ new
    /\ blobFirst [] new = true
    /\ (In (EvBlobWrite None) new ->
        image_versions (db st') = image_versions (db st)
        /\ forall id img, ~ In (EvInsertVersion id img) new)
    /\ (forall row, In row (image_versions (db st')) ->
                    In row (image_versions (db st))
                    \/ exists img, artifactOf row = Some img
                                   /\ In (EvInsertVersion (iv_id row) img) new).

(** What a request may do to the version table: nothing, in which case it
    is not answered 200; or add one row, after the blob store, called with
    some bytes, content type and metadata, has accepted the artifact and
    returned the id the row references and its URL is built from. *)
Definition storeFirst (env : Env) (st : State) (out : Result Response * State) : Prop :=
  (image_versions (db (snd out)) = image_versions (db st)
   /\ forall resp, fst out = Ok resp -> status resp <> 200)
  \/ exists row bytes mime md imageId,
       image_versions (db (snd out)) = image_versions (db st) ++ [row]
       /\ images_api env bytes mime md = Some imageId
       /\ artifactOf row = Some imageId
       /\ iv_image_url row = publicUrl env imageId.

(** The states reached by requests that are all served in environments
    that satisfy [ok]. *)
Inductive reachableWith (ok : Env -> Prop) : State -> Prop :=
| reachWith_initial : reachableWith ok initial
| reachWith_upload : forall env request st,
    ok env -> reachableWith ok st ->
    reachableWith ok (snd (handleUpload env request st))
| reachWith_edit : forall env request st,
    ok env -> reachableWith ok st ->
    reachableWith ok (snd (handleEdit env request st)).

(** Every stored history measures at most [cap]. *)
Definition historiesWithin (measure : string -> nat) (cap : nat) (st : State) : Prop :=
  forall s, In s (prompt_sessions (db st)) -> measure (ps_history s) <= cap.

(** The blob store of [env] returned the artifact id that [row] references. *)
Definition storedBy (env : Env) (row : VersionRow) : Prop :=
  exists bytes mime md imageId,
    images_api env bytes mime md = Some imageId
    /\ artifactOf row = Some imageId
    /\ iv_image_url row = publicUrl env imageId.



(** The rank of the first row with a given id: how many rows come before. *)
Fixpoint posOf (id : string) (rows : list VersionRow) : nat :=
  match rows with
  | [] => 0
  | v :: rest => if String.eqb (iv_id v) id then 0 else S (posOf id rest)
  end.

(** The row of [history] a version gives rise to at some depth. *)
Definition historyRowOf (iv : VersionRow) (depth : nat) : HistoryRow :=
  {| h_id := iv_id iv; h_parent_id := iv_parent_id iv; h_depth := depth |}.

(** The working table after [k] rounds. *)
Definition cteLevel (rows : list VersionRow) (id : string) (k : nat) : list HistoryRow :=
  Nat.iter k (flat_map (cteStep rows)) (cteSeed rows id).


(** A branching scenario: a root R, two edits A and B of the root, then an
    edit B1 of B created before an edit A1 of A; every request is served in
    its own second. *)
Module Branching.

Definition atTime (t : nat) (env : Env) : Env :=
  {| GEMINI_MODEL := GEMINI_MODEL env; SYSTEM_PROMPT := SYSTEM_PROMPT env;
     CF_IMAGES_DELIVERY_URL := CF_IMAGES_DELIVERY_URL env;
     randomUUID := randomUUID env; Date_now := t; CURRENT_TIMESTAMP := t;
     sha256 := sha256 env;
     JSON_parse := JSON_parse env; JSON_stringify := JSON_stringify env;
     atob := atob env; btoa := btoa env; cdn_fetch := cdn_fetch env;
     gemini := gemini env; images_api := images_api env |}.

Definition request (n : nat) (instruction previous : string) (st : State) : State :=
  snd (handleEdit (atTime n (Scenario.scenarioEnv n))
         (Some (Scenario.edit instruction (Some previous) None None)) st).

Definition withRoot : State :=
  snd (handleUpload (atTime 1 (Scenario.scenarioEnv 1))
         (Scenario.upload (Some "modern kitchen")) initial).

Definition withA : State := request 2 "add a skylight" "uuid-1" withRoot.
Definition withB : State := request 3 "widen the hallway" "uuid-1" withA.
Definition withB1 : State := request 4 "use oak flooring" "uuid-3" withB.
Definition withA1 : State := request 5 "use slate flooring" "uuid-2" withB1.

End Branching.


(** Eleven edits of the same root version, one after the other: twenty-two
    turns on one session. *)
Module Long.

Definition edit (n : nat) : EditRequestBody :=
  Scenario.edit ("step " +++ Scenario.showNat n) (Some "uuid-1") None None.

Definition request (n : nat) (st : State) : State :=
  snd (handleEdit (Scenario.scenarioEnv n) (Some (edit n)) st).

Fixpoint after (n : nat) : State :=
  match n with
  | 0 => Scenario.afterUpload
  | S k => request (S k) (after k)
  end.

End Long.


(* ================================================================= *)
(** ** Sequences of requests and what they keep *)

(** Any number of requests served one after the other. *)
Inductive steps : State -> State -> Prop :=
| steps_refl : forall st, steps st st
| steps_next : forall st st1 st2, steps st st1 -> step st1 st2 -> steps st st2.

(** The columns of a session that no statement of the Worker updates. *)
Definition sessionCore (s : SessionRecord) : string * string * string * string :=
  (ps_id s, ps_base_prompt s, ps_system_prompt s, ps_base_prompt_hash s).

Definition prefixOf {A : Type} (l l' : list A) : Prop := exists new, l' = l ++ new.

(** Keys are unique and every reference names a row that exists. *)
Definition integrity (d : DB) : Prop :=
  NoDup (map ps_id (prompt_sessions d))
  /\ NoDup (map iv_id (image_versions d))
  /\ (forall v, In v (image_versions d) ->
        exists c, iv_chat_id v = Some c /\ In c (map ps_id (prompt_sessions d)))
  /\ (forall v p, In v (image_versions d) -> iv_parent_id v = Some p ->
        In p (map iv_id (image_versions d))).

(** What one request does to the tables: at most one session row and at
    most one version row are appended, under fresh keys; the new version
    references a session of the new table and a parent of the old one. *)
Definition grows (st st' : State) : Prop :=
  (map sessionCore (prompt_sessions (db st')) = map sessionCore (prompt_sessions (db st))
   \/ exists row,
        map sessionCore (prompt_sessions (db st'))
        = map sessionCore (prompt_sessions (db st)) ++ [sessionCore row]
        /\ ~ In (ps_id row) (map ps_id (prompt_sessions (db st))))
  /\ (image_versions (db st') = image_versions (db st)
      \/ exists v,
           image_versions (db st') = image_versions (db st) ++ [v]
           /\ ~ In (iv_id v) (map iv_id (image_versions (db st)))
           /\ (exists c, iv_chat_id v = Some c
                         /\ In c (map ps_id (prompt_sessions (db st'))))
           /\ (forall p, iv_parent_id v = Some p ->
                         In p (map iv_id (image_versions (db st))))).



(* ================================================================= *)
(** ** Turns as [normalizeParts] leaves them *)

(** An inline image of a normalised part has a mime type that is not
    [null]: [normalizeParts] fills in ["image/png"]. *)
Definition normalPart (p : GeminiPart) : Prop :=
  forall i, inlineData p = Some i -> mimeType i <> JNull.

Definition normalTurn (m : GeminiMessage) : Prop := Forall normalPart (parts m).


(* ================================================================= *)
(** ** Hex strings *)

(** The digits [hashString] writes for a digest, two per byte. *)
Definition hexOfBytes (bytes : list nat) : string :=
  fold_right (fun byte rest => hexByte byte +++ rest) EmptyString bytes.

Definition isLowerHex (c : ascii) : bool :=
  let n := code c in ((48 <=? n) && (n <=? 57)) || ((97 <=? n) && (n <=? 102)).

Fixpoint allChars (p : ascii -> bool) (s : string) : bool :=
  match s with
  | EmptyString => true
  | String c r => p c && allChars p r
  end.


(* ================================================================= *)
(** ** An environment with the reference base64 codec *)

Module Codec.

(** [Scenario.scenarioEnv 1] with [btoa] and [atob] as RFC 4648 has them. *)
Definition env : Env :=
  {| GEMINI_MODEL := None;
     SYSTEM_PROMPT := None;
     CF_IMAGES_DELIVERY_URL := "https://imagedelivery.net/acct/";
     randomUUID := fun k => "uuid-" +++ Scenario.showNat k;
     Date_now := 7;
     CURRENT_TIMESTAMP := 7;
     sha256 := Scenario.sha256_table;
     JSON_parse := Json.parse;
     JSON_stringify := Json.stringify;
     atob := Base64.atob;
     btoa := Base64.btoa;
     cdn_fetch := fun _ => Some ("PNG", Some "image/png");
     gemini := fun _ _ _ => Some {| candidate_parts := Some Scenario.oracleParts |};
     images_api := fun _ _ _ => Some "img-1" |}.

End Codec.


(* ================================================================= *)
(** ** The metadata document of a version *)

(** The metadata document repeats what the columns of its row say, and
    names the image the row's URL points at. *)
Definition metadataAgrees (row : VersionRow) : Prop :=
  exists md imageId,
    iv_metadata row = Some md
    /\ md_cloudflare_image_id md = Some imageId
    /\ (exists base, iv_image_url row = base +++ "/" +++ imageId +++ "/public")
    /\ md_session_id md = iv_chat_id row
    /\ md_parent_id md = iv_parent_id row
    /\ md_previous_version_id md = iv_parent_id row
    /\ md_model md = iv_model row
    /\ md_edit_instruction md = iv_edit_prompt row
    /\ (forall r, md_aspect_ratio md = Some r -> iv_aspect_ratio row = Some r)
    /\ (forall t, iv_diff_summary row = Some t -> md_diff_summary md = Some t).


(* ================================================================= *)
(** ** What the oracle's SDK is handed (worker.ts 669-719) *)

(** [toApiMessages]: an image part is sent as its image alone, every other
    part as its text, [""] when it has none.  Objects are written as
    [JSON.stringify] sees them, a property that is [undefined] left out. *)
Definition toApiPart (part : GeminiPart) : json :=
  match inlineData part with
  | Some i =>
      JObj [("inlineData", JObj (("mimeType", mimeType i) :: optField "data" (data i)))]
  | None => JObj [("text", JStr (orElse (text part) ""))]
  end.

Definition toApiMessages (messages : list GeminiMessage) : list json :=
  map (fun message =>
         JObj (optField "role" (role message)
               ++ [("parts", JArr (map toApiPart (parts message)))]))
      messages.

(** The [request] object [generateImageFromGemini] passes to
    [ai.models.generateContent]; [systemMessage] is an object, so the
    branch on it is always taken and [config] is never empty. *)
Definition geminiRequest (env : Env) (messages : list GeminiMessage)
    (systemMessage : GeminiMessage) (aspectRatio : option string) : json :=
  let model := orElse (GEMINI_MODEL env) DEFAULT_MODEL in
  let config :=
    [("systemInstruction",
      JObj (optField "role" (role systemMessage)
            ++ [("parts",
                 JArr (map (fun part => JObj [("text", JStr (orElse (text part) ""))])
                           (parts systemMessage)))]))]
    ++ (if truthyOpt aspectRatio
        then [("imageConfig", JObj [("aspectRatio", JStr (orElse aspectRatio ""))])]
        else []) in
  JObj ([("model", JStr model); ("contents", JArr (toApiMessages messages))]
        ++ (if 0 <? List.length config then [("config", JObj config)] else [])).

(* ================================================================= *)
(** ** Looking a version up by either id (worker.ts 410-429) *)

Inductive Payload : Type :=
| NoBody
| JsonBody (b : Body)
| ViewBody (version_id public_url : string) (metadata : option Metadata).

(** A response with its headers; header names are in lower case, as a
    [Headers] object keeps them.  The status text is not modelled. *)
Record HttpResponse : Type := {
  http_status : nat;
  http_headers : list (string * string);
  http_body : Payload
}.

(** [jsonResponse] (worker.ts 431-436) with the header it sets. *)
Definition httpJson (payload : Payload) (status : nat) : HttpResponse :=
  {| http_status := status;
     http_headers := [("content-type", "application/json")];
     http_body := payload |}.

Definition httpOf (r : Response) : HttpResponse := httpJson (JsonBody (body r)) (status r).

(** [WHERE id = ? OR json_extract(metadata, '$.cloudflare_image_id') = ?] *)
Definition viewMatches (id : string) (v : VersionRow) : bool :=
  String.eqb (iv_id v) id
  || match artifactOf v with
     | Some imageId => String.eqb imageId id
     | None => false
     end.

(** [LIMIT 1] without [ORDER BY]: any matching row may be the one
    returned.  The [metadata] column holds the document the Worker
    serialised when it inserted the row, which [JSON.parse] reads back;
    a [NULL] column is answered as the empty object. *)
Inductive handleView (d : DB) (id : string) : HttpResponse -> Prop :=
| View_none :
    filter (viewMatches id) (image_versions d) = [] ->
    handleView d id (httpJson (JsonBody (BError "Image not found")) 404)
| View_row : forall row,
    In row (filter (viewMatches id) (image_versions d)) ->
    handleView d id
      (httpJson (ViewBody (iv_id row) (iv_image_url row) (iv_metadata row)) 200).

(* ================================================================= *)
(** ** The dispatcher (worker.ts 70-74, 79-121, 438-448) *)

Definition OK_HEADERS : list (string * string) :=
  [ ("Access-Control-Allow-Origin", "*");
    ("Access-Control-Allow-Headers", "*");
    ("Access-Control-Allow-Methods", "GET,POST,OPTIONS") ].

(** [new Headers(init)] for an object literal: one entry per property,
    names in lower case. *)
Definition newHeaders (init : list (string * string)) : list (string * string) :=
  map (fun kv => (toLowerCase (fst kv), snd kv)) init.

(** [headers.set(name, value)]: the first entry of that name takes the
    value and the others go; a new name is appended. *)
Fixpoint headersSet (name value : string) (headers : list (string * string))
  : list (string * string) :=
  match headers with
  | [] => [(name, value)]
  | (k, v) :: rest =>
      if String.eqb k name
      then (name, value) :: filter (fun kv => negb (String.eqb (fst kv) name)) rest
      else (k, v) :: headersSet name value rest
  end.

Definition withCors (response : HttpResponse) : HttpResponse :=
  {| http_status := http_status response;
     http_headers :=
       fold_left (fun headers kv => headersSet (toLowerCase (fst kv)) (snd kv) headers)
                 OK_HEADERS (http_headers response);
     http_body := http_body response |}.

(** What the dispatcher reads of a request: the method, [url.pathname],
    the [angle_id] query parameter, and the body as each handler reads it
    (the multipart form; the JSON document, [None] when [request.json()]
    throws). *)
Record Request : Type := {
  req_method : string;
  req_pathname : string;
  req_angle_id : option string;
  req_form : UploadRequest;
  req_json : option EditRequestBody
}.

Fixpoint dropChars (n : nat) (s : string) : string :=
  match n, s with
  | 0, _ => s
  | S n', String _ r => dropChars n' r
  | S _, EmptyString => EmptyString
  end.

(** [s.replace(pattern, replacement)] for a string pattern and a
    replacement without [$]: the first occurrence only. *)
Fixpoint replaceFirst (s pattern replacement : string) : string :=
  if startsWith s pattern
  then replacement +++ dropChars (String.length pattern) s
  else match s with
       | EmptyString => EmptyString
       | String c r => String c (replaceFirst r pattern replacement)
       end.

Inductive Route : Type :=
| RoutePreflight
| RouteUpload
| RouteEdit
| RouteRenderAngle
| RouteHistory (raw : string)
| RouteView (raw : string)
| RouteNone.

(** The chain of tests of [fetch], first match first. *)
Definition route (req : Request) : Route :=
  let method := req_method req in
  let pathname := req_pathname req in
  if String.eqb method "OPTIONS" then RoutePreflight
  else if String.eqb method "POST" && String.eqb pathname "/api/upload" then RouteUpload
  else if String.eqb method "POST" && String.eqb pathname "/api/edit" then RouteEdit
  else if String.eqb method "GET" && String.eqb pathname "/api/render-angle"
  then RouteRenderAngle
  else if String.eqb method "GET" && startsWith pathname "/api/history/"
  then RouteHistory (replaceFirst pathname "/api/history/" "")
  else if String.eqb method "GET" && startsWith pathname "/api/view/"
  then RouteView (replaceFirst pathname "/api/view/" "")
  else RouteNone.

Definition resultMap {A B : Type} (f : A -> B) (r : Result A) : Result B :=
  match r with
  | Ok a => Ok (f a)
  | Throw e => Throw e
  end.

(** The body of the [try]: the handler of the route, which may throw.
    [decodeURIComponent] is the platform's; it throws on a malformed
    escape. *)
Inductive dispatch (decodeURIComponent : string -> Result string) (env : Env)
    (req : Request) (st : State) : Result HttpResponse -> State -> Prop :=
| Dispatch_upload : forall r st',
    route req = RouteUpload ->
    handleUpload env (req_form req) st = (r, st') ->
    dispatch decodeURIComponent env req st (resultMap httpOf r) st'
| Dispatch_edit : forall r st',
    route req = RouteEdit ->
    handleEdit env (req_json req) st = (r, st') ->
    dispatch decodeURIComponent env req st (resultMap httpOf r) st'
| Dispatch_render : forall r,
    route req = RouteRenderAngle ->
    handleRenderAngle (db st) (req_angle_id req) r ->
    dispatch decodeURIComponent env req st (Ok (httpOf r)) st
| Dispatch_history_malformed : forall raw e,
    route req = RouteHistory raw ->
    decodeURIComponent raw = Throw e ->
    dispatch decodeURIComponent env req st (Throw e) st
| Dispatch_history : forall raw id r,
    route req = RouteHistory raw ->
    decodeURIComponent raw = Ok id ->
    handleHistory (db st) id r ->
    dispatch decodeURIComponent env req st (Ok (httpOf r)) st
| Dispatch_view_malformed : forall raw e,
    route req = RouteView raw ->
    decodeURIComponent raw = Throw e ->
    dispatch decodeURIComponent env req st (Throw e) st
| Dispatch_view : forall raw id r,
    route req = RouteView raw ->
    decodeURIComponent raw = Ok id ->
    handleView (db st) id r ->
    dispatch decodeURIComponent env req st (Ok r) st
| Dispatch_none :
    route req = RouteNone ->
    dispatch decodeURIComponent env req st
      (Ok (httpJson (JsonBody (BError "Not found")) 404)) st.

(** [fetch]: the preflight answer, or the handler's response with the CORS
    headers; a thrown error is logged and answered 500 with its message. *)
Inductive fetch (decodeURIComponent : string -> Result string) (env : Env)
    (req : Request) (st : State) : HttpResponse -> State -> Prop :=
| Fetch_preflight :
    route req = RoutePreflight ->
    fetch decodeURIComponent env req st
      {| http_status := 200; http_headers := newHeaders OK_HEADERS; http_body := NoBody |} st
| Fetch_response : forall response st',
    dispatch decodeURIComponent env req st (Ok response) st' ->
    fetch decodeURIComponent env req st (withCors response) st'
| Fetch_error : forall e st',
    dispatch decodeURIComponent env req st (Throw e) st' ->
    fetch decodeURIComponent env req st
      (withCors (httpJson (JsonBody (BError e)) 500))
      (snd (log "Worker error" st')).


(** The entries of a header list under one name. *)
Definition headerEntries (name : string) (headers : list (string * string))
  : list (string * string) :=
  filter (fun kv => String.eqb (fst kv) name) headers.

Definition corsNames : list string :=
  ["access-control-allow-origin"; "access-control-allow-headers";
   "access-control-allow-methods"].


(* ================================================================= *)
(** ** The plan-and-photo edit Worker (worker.ts 845-1240)

    The second Worker of the file.  It keeps no database: one request
    rasterises the floor plan, runs the photo operations one after the
    other, each on the image the last one produced, and uploads a preview
    and an archival variant of every result.  A request body is the value
    [EditPayloadSchema.safeParse] accepted, typed as [EditPayload], with
    the operations typed as [FloorPlanOp] and [PhotoOp] declare them: the
    schema only checks that [op] is a string and passes the other
    properties through, so this is the request of a client that sends
    [angle_id] and [instruction] as strings when it sends them.  A
    JavaScript object is the list of its properties, and the theorems only
    look properties up. *)

Module Planner.

Definition newline : string := String (ascii_of_nat 10) EmptyString.
Definition dollar : ascii := ascii_of_nat 36.

(** [{ op?: string; [key: string]: unknown }]: the [op] property and the
    others. *)
Record FloorPlanOp : Type := {
  fo_op : option string;
  fo_rest : list (string * json)
}.

Record PhotoOp : Type := {
  po_op : option string;
  po_angle_id : option string;
  po_instruction : option string;
  po_mask_hint : option json
}.

Record CameraPreset : Type := {
  cp_id : string;
  cp_camera : json
}.

Inductive FloorPlanAsset : Type :=
| SvgAsset (value : string)
| ImageIdAsset (value : string).

Record EditPayload : Type := {
  client_request_id : string;
  base_prompt : string;
  baseline_image_id : string;
  current_image_id : string;
  floor_plan_asset : FloorPlanAsset;
  angles : list CameraPreset;
  floor_plan_ops : list FloorPlanOp;
  photo_ops : list PhotoOp;
  style_lock : bool
}.

(** The answer of [fetch(url)]: a rejected promise, or a response. *)
Inductive Fetched : Type :=
| FetchRejected (message : string)
| FetchResponse (ok : bool) (status : nat) (bytes : string).

(** What [createMetadata] returns (worker.ts 1228-1240). *)
Record Metadata : Type := {
  parent_id : string;
  op_seq : nat;
  md_client_request_id : string;
  base_prompt_hash : string;
  angle_id : option string;
  source : string;
  kind : string;
  variant : string
}.

Record Env : Type := {
  IMAGES_DELIVERY_BASE : option string;
  randomUUID : nat -> string;
  sha256 : string -> list nat;
  JSON_stringify : json -> string;
  cdn : string -> Fetched;
  (** the Images binding, [input(...).output(options)] and [response()]:
      [false] when one of them throws *)
  images : string -> string -> Metadata -> string -> nat -> bool
}.

(** One call of the Images binding. *)
Record Upload : Type := {
  up_id : string;
  up_bytes : string;
  up_metadata : Metadata;
  up_format : string;
  up_quality : nat;
  up_stored : bool
}.

(** What a request has done to the outside so far. *)
Record World : Type := {
  uuids : nat;
  console : list string;
  uploads : list Upload
}.

Definition DEFAULT_DELIVERY_BASE : string :=
  "https://imagedelivery.net/guDBhnmcqEWgPQ1LAcR2gg".

(** [publicUrl] (worker.ts 1090-1093) *)
Definition publicUrl (env : Env) (id variant : string) : string :=
  orElse (IMAGES_DELIVERY_BASE env) DEFAULT_DELIVERY_BASE +++ "/" +++ id +++ "/" +++ variant.

Definition warn (line : string) (w : World) : World :=
  {| uuids := uuids w; console := console w ++ [line]; uploads := uploads w |}.

(** [fetchImageBytes] (worker.ts 1095-1107): the error is logged and thrown
    again. *)
Definition fetchImageBytes (env : Env) (id : string) (w : World) : Result string * World :=
  match cdn env (publicUrl env id "public") with
  | FetchRejected message => (Throw message, warn ("Error fetching image " +++ id +++ ":") w)
  | FetchResponse ok status bytes =>
      if ok then (Ok bytes, w)
      else (Throw ("Unable to fetch image " +++ id +++ ": " +++ Scenario.showNat status),
            warn ("Error fetching image " +++ id +++ ":") w)
  end.

(** [findCamera] (worker.ts 1109-1115) *)
Definition findCamera (angles : list CameraPreset) (id : string) : Result CameraPreset :=
  match find (fun angle => String.eqb (cp_id angle) id) angles with
  | Some found => Ok found
  | None => Throw ("Angle " +++ id +++ " not found")
  end.

(** [{ ...base, ...extra }] on property lists: a property of [extra]
    replaces the value of the property of that name, or is added.  The
    properties keep the place they have in the lists; JavaScript lists
    integer-like names first, which nothing below depends on: properties
    are only looked up. *)
Fixpoint setField (k : string) (v : json) (fields : list (string * json))
  : list (string * json) :=
  match fields with
  | [] => [(k, v)]
  | (k', v') :: rest =>
      if String.eqb k' k then (k', v) :: rest else (k', v') :: setField k v rest
  end.

Definition spread (base extra : list (string * json)) : list (string * json) :=
  fold_left (fun fields kv => setField (fst kv) (snd kv) fields) extra base.

(** The own properties of a floor-plan operation. *)
Definition opObject (op : FloorPlanOp) : list (string * json) :=
  optField "op" (option_map JStr (fo_op op)) ++ fo_rest op.

(** [summarizeOps] and [buildChangelog] (worker.ts 1117-1127) *)
Definition summarizeOps (ops : list FloorPlanOp) : list (list (string * json)) :=
  map (fun op => spread [("op", JStr (orElse (fo_op op) "unknown")); ("status", JStr "done")]
                        (opObject op))
      ops.

Definition buildChangelog (floorPlanOps : list FloorPlanOp) : list (list (string * json)) :=
  map (fun op => spread [("op", JStr (orElse (fo_op op) "unknown")); ("status", JStr "done")]
                        (opObject op))
      floorPlanOps.

(** [buildPhotoNote] (worker.ts 1129-1137) *)
Definition buildPhotoNote (op : PhotoOp) : string :=
  match po_op op, po_angle_id op with
  | Some o, Some a =>
      if String.eqb o "render_angle" && truthy a then "Rendered angle " +++ a
      else if String.eqb o "local_edit" && truthy a then "Applied local edit for " +++ a
      else "Photo operation processed"
  | _, _ => "Photo operation processed"
  end.

(** The first occurrence of [pattern] in [s]: what comes before it and
    what comes after. *)
Fixpoint splitOn (s pattern : string) : option (string * string) :=
  if startsWith s pattern then Some (EmptyString, dropChars (String.length pattern) s)
  else match s with
       | EmptyString => None
       | String c r =>
           match splitOn r pattern with
           | Some (before, after) => Some (String c before, after)
           | None => None
           end
       end.

(** The replacement text of [String.prototype.replace] for a string
    pattern: [$$] is a dollar sign, [$&] the match, [$`] what precedes
    it and [$'] what follows it; there are no captures, so every other
    [$] stands for itself. *)
Fixpoint expand (replacement matched before after : string) : string :=
  match replacement with
  | EmptyString => EmptyString
  | String c r =>
      if Ascii.eqb c dollar then
        match r with
        | String d r' =>
            if Ascii.eqb d dollar then String dollar (expand r' matched before after)
            else if Ascii.eqb d "&" then matched +++ expand r' matched before after
            else if Ascii.eqb d "`" then before +++ expand r' matched before after
            else if Ascii.eqb d "'" then after +++ expand r' matched before after
            else String c (expand r matched before after)
        | EmptyString => String c EmptyString
        end
      else String c (expand r matched before after)
  end.

(** [s.replace(pattern, replacement)] for a string pattern. *)
Definition replace (s pattern replacement : string) : string :=
  match splitOn s pattern with
  | Some (before, after) => before +++ expand replacement pattern before after +++ after
  | None => s
  end.

(** [svgApply] (worker.ts 1139-1153) *)
Definition svgApply (env : Env) (svg : string) (ops : list FloorPlanOp) : string :=
  match ops with
  | [] => svg
  | _ =>
      let details :=
        join ", " (map (fun op => match fo_op op with
                                  | Some name => name
                                  | None => JSON_stringify env (JObj (opObject op))
                                  end)
                       ops) in
      if includes svg "</svg>"
      then replace svg "</svg>" (newline +++ "<!-- ops:" +++ details +++ " -->" +++ newline +++ "</svg>")
      else svg +++ newline +++ "<!-- ops:" +++ details +++ " -->"
  end.

(** [svgFromImage] (worker.ts 1155-1157) *)
Definition svgFromImage (imageId : string) : string :=
  "<svg xmlns=" +++ String Json.dquote "http://www.w3.org/2000/svg" +++ String Json.dquote " data-source="
    +++ String Json.dquote imageId +++ String Json.dquote "></svg>".

(** [TextEncoder.encode] on a string of code units below U+0100. *)
Fixpoint utf8 (s : string) : string :=
  match s with
  | EmptyString => EmptyString
  | String c r =>
      let n := code c in
      if n <? 128 then String c (utf8 r)
      else String (ascii_of_nat (192 + n / 64)) (String (ascii_of_nat (128 + n mod 64)) (utf8 r))
  end.

(** [rasterize] (worker.ts 1159-1163) *)
Definition rasterize (env : Env) (svg : string) (width height dpi : nat) : string :=
  utf8 (JSON_stringify env
          (JObj [("svg", JStr svg); ("width", JNum (Z.of_nat width) 0);
                 ("height", JNum (Z.of_nat height) 0); ("dpi", JNum (Z.of_nat dpi) 0)])).

(** [geminiGenerateView] and [geminiEdit] (worker.ts 1165-1171) return the
    bytes they are given. *)
Definition geminiGenerateView (bytes : string) (camera : json) (basePrompt : string) : string :=
  bytes.

Definition geminiEdit (bytes instruction : string) (mask : option json) (basePrompt : string)
  : string := bytes.

(** [uploadBytesToImages] (worker.ts 1178-1197): the id is returned whether
    or not the binding stored anything. *)
Definition uploadBytesToImages (env : Env) (bytes : string) (metadata : Metadata)
    (format : option string) (quality : option nat) (w : World) : string * World :=
  let id := "img_" +++ randomUUID env (uuids w) in
  let fmt := orElse format "image/webp" in
  let q := orElse quality 82 in
  let stored := images env id bytes metadata fmt q in
  (id,
   {| uuids := S (uuids w);
      console := if stored then console w
                 else console w ++ ["Images binding unavailable, returning stub id"];
      uploads := uploads w ++ [{| up_id := id; up_bytes := bytes; up_metadata := metadata;
                                  up_format := fmt; up_quality := q; up_stored := stored |}] |}).

(** [hashString] (worker.ts 1208-1215) *)
Definition hashString (env : Env) (value : string) : string :=
  "sha256:" +++ join "" (map hexByte (sha256 env value)).

(** [createMetadata] (worker.ts 1228-1240) *)
Definition createMetadata (input : EditPayload) (basePromptHash parentId : string)
    (opSeq : nat) (kind source variant : string) (angleId : option string) : Metadata :=
  {| parent_id := parentId;
     op_seq := opSeq;
     md_client_request_id := client_request_id input;
     base_prompt_hash := basePromptHash;
     angle_id := angleId;
     source := source;
     kind := kind;
     variant := variant |}.

Record Photo : Type := {
  ph_angle : string;
  before_image_id : string;
  after_image_id : string;
  archival_image_id : string;
  public_url_after : string;
  notes : string
}.

(** The variables of the loop over [photo_ops] (worker.ts 925-1050). *)
Record Loop : Type := {
  opSeq : nat;
  currentId : string;
  newImageIds : list string;
  photos : list Photo;
  changelog : list (list (string * json));
  world : World
}.

(** One iteration of the loop (worker.ts 972-1050). *)
Definition photoStep (env : Env) (input : EditPayload) (basePromptHash : string)
    (acc : Loop) (op : PhotoOp) : Loop :=
  let logged entry w :=
    {| opSeq := opSeq acc; currentId := currentId acc; newImageIds := newImageIds acc;
       photos := photos acc; changelog := changelog acc ++ [entry]; world := w |} in
  match po_op op with
  | None => acc
  | Some name =>
    if negb (truthy name) then acc
    else if negb (String.eqb name "render_angle") && negb (String.eqb name "local_edit")
    then logged [("op", JStr name); ("status", JStr "skipped")] (world acc)
    else if negb (truthyOpt (po_angle_id op))
    then logged [("op", JStr name); ("status", JStr "blocked");
                 ("reason", JStr "Missing angle_id")] (world acc)
    else
      let angleId := orElse (po_angle_id op) "" in
      let beforeId := currentId acc in
      let blocked message w :=
        logged [("op", JStr name); ("status", JStr "blocked"); ("reason", JStr message);
                ("angle_id", JStr angleId)] w in
      match fetchImageBytes env beforeId (world acc) with
      | (Throw message, w1) => blocked message w1
      | (Ok baseBytes, w1) =>
        match findCamera (angles input) angleId with
        | Throw message => blocked message w1
        | Ok camera =>
          let resultBytes :=
            if String.eqb name "render_angle"
            then geminiGenerateView baseBytes (cp_camera camera) (base_prompt input)
            else geminiEdit baseBytes (orElse (po_instruction op) "") (po_mask_hint op)
                            (base_prompt input) in
          let seq := opSeq acc + 1 in
          let (previewId, w2) :=
            uploadBytesToImages env resultBytes
              (createMetadata input basePromptHash beforeId seq "photo" "gemini" "preview"
                              (Some angleId))
              (Some "image/webp") (Some 72) w1 in
          let (archivalId, w3) :=
            uploadBytesToImages env resultBytes
              (createMetadata input basePromptHash beforeId seq "photo" "gemini" "archival"
                              (Some angleId))
              (Some "image/png") None w2 in
          {| opSeq := seq;
             currentId := previewId;
             newImageIds := newImageIds acc ++ [previewId; archivalId];
             photos := photos acc
                       ++ [{| ph_angle := angleId;
                              before_image_id := beforeId;
                              after_image_id := previewId;
                              archival_image_id := archivalId;
                              public_url_after := publicUrl env previewId "preview";
                              notes := buildPhotoNote op |}];
             changelog := changelog acc
                          ++ [[("op", JStr name); ("angle_id", JStr angleId);
                               ("status", JStr "done")]];
             world := w3 |}
        end
      end
  end.

(** The [result] object of a served edit (worker.ts 1052-1071); the
    [follow_up] member is constant. *)
Record Result_ : Type := {
  updated_svg : string;
  raster_preview_image_id : string;
  ops_applied : list (list (string * json));
  result_photos : list Photo;
  parent_image_id : string;
  new_image_ids : list string;
  result_changelog : list (list (string * json))
}.

(** The part of [fetch] that serves a valid payload (worker.ts 913-1073). *)
Definition serveEdit (env : Env) (input : EditPayload) (w : World) : Result_ * World :=
  let basePromptHash := hashString env (base_prompt input) in
  let updatedSvg :=
    match floor_plan_asset input with
    | SvgAsset value => svgApply env value (floor_plan_ops input)
    | ImageIdAsset value => svgFromImage value
    end in
  let previewBytes := rasterize env updatedSvg 1600 1000 144 in
  let (planPreviewId, w1) :=
    uploadBytesToImages env previewBytes
      (createMetadata input basePromptHash (current_image_id input) 1 "plan" "svg-rasterize"
                      "preview" None)
      (Some "image/webp") (Some 70) w in
  let (planArchivalId, w2) :=
    uploadBytesToImages env previewBytes
      (createMetadata input basePromptHash (current_image_id input) 1 "plan" "svg-rasterize"
                      "archival" None)
      (Some "image/png") None w1 in
  let final :=
    fold_left (photoStep env input basePromptHash) (photo_ops input)
      {| opSeq := 1;
         currentId := current_image_id input;
         newImageIds := [planPreviewId; planArchivalId];
         photos := [];
         changelog := buildChangelog (floor_plan_ops input);
         world := w2 |} in
  ({| updated_svg := updatedSvg;
      raster_preview_image_id := planPreviewId;
      ops_applied := summarizeOps (floor_plan_ops input);
      result_photos := photos final;
      parent_image_id := current_image_id input;
      new_image_ids := newImageIds final;
      result_changelog := changelog final |},
   world final).

(** The body of a POST as the handler sees it: [req.json()] threw, the
    schema rejected the value (with the formatted issues), or accepted
    it. *)
Inductive ParsedBody : Type :=
| NotJson
| Rejected (issues : json)
| Accepted (input : EditPayload).

Inductive Reply : Type :=
| Preflight
| BadRequest (error : json)
| Served (result : Result_)
| OkText.

Definition replyStatus (r : Reply) : nat :=
  match r with
  | BadRequest _ => 400
  | _ => 200
  end.

(** [fetch] (worker.ts 886-1078) *)
Definition fetch (env : Env) (method pathname : string) (body : ParsedBody) (w : World)
  : Reply * World :=
  if String.eqb method "OPTIONS" then (Preflight, w)
  else if String.eqb method "POST" && String.eqb pathname "/edit" then
    match body with
    | NotJson => (BadRequest (JObj [("error", JStr "Invalid JSON body")]), w)
    | Rejected issues => (BadRequest issues, w)
    | Accepted input => let (result, w') := serveEdit env input w in (Served result, w')
    end
  else (OkText, w).

End Planner.


(* ================================================================= *)
(** ** Observations on the plan Worker *)

(** Each photo starts from the image the one before it produced. *)
Fixpoint chained (start : string) (photos : list Planner.Photo) : Prop :=
  match photos with
  | [] => True
  | p :: rest =>
      Planner.before_image_id p = start /\ chained (Planner.after_image_id p) rest
  end.

(** The ids [uploadBytesToImages] hands out from the [first]-th UUID on. *)
Definition imageIdsFrom (env : Planner.Env) (first count : nat) : list string :=
  map (fun k => "img_" +++ Planner.randomUUID env k) (seq first count).

(** The metadata of the two uploads of the photo produced as operation
    number [k]. *)
Definition photoMetadata (env : Planner.Env) (input : Planner.EditPayload)
    (indexed : nat * Planner.Photo) : list Planner.Metadata :=
  [ Planner.createMetadata input (Planner.hashString env (Planner.base_prompt input))
      (Planner.before_image_id (snd indexed)) (fst indexed) "photo" "gemini" "preview"
      (Some (Planner.ph_angle (snd indexed)));
    Planner.createMetadata input (Planner.hashString env (Planner.base_prompt input))
      (Planner.before_image_id (snd indexed)) (fst indexed) "photo" "gemini" "archival"
      (Some (Planner.ph_angle (snd indexed))) ].

Definition planMetadata (env : Planner.Env) (input : Planner.EditPayload)
  : list Planner.Metadata :=
  [ Planner.createMetadata input (Planner.hashString env (Planner.base_prompt input))
      (Planner.current_image_id input) 1 "plan" "svg-rasterize" "preview" None;
    Planner.createMetadata input (Planner.hashString env (Planner.base_prompt input))
      (Planner.current_image_id input) 1 "plan" "svg-rasterize" "archival" None ].

(** The calls of the Images binding a request has added. *)
Definition newUploads (w w' : Planner.World) : list Planner.Upload :=
  skipn (List.length (Planner.uploads w)) (Planner.uploads w').

(** A photo operation the loop acts on: it has a name. *)
Definition named (op : Planner.PhotoOp) : bool := truthyOpt (Planner.po_op op).

(** The same environment with another Images binding. *)
Definition withImages (env : Planner.Env)
    (binding : string -> string -> Planner.Metadata -> string -> nat -> bool) : Planner.Env :=
  {| Planner.IMAGES_DELIVERY_BASE := Planner.IMAGES_DELIVERY_BASE env;
     Planner.randomUUID := Planner.randomUUID env;
     Planner.sha256 := Planner.sha256 env;
     Planner.JSON_stringify := Planner.JSON_stringify env;
     Planner.cdn := Planner.cdn env;
     Planner.images := binding |}.

(** A request to the plan Worker, for the scenarios: two camera presets,
    one floor-plan operation, and photo operations of every kind. *)
Module PlanScenario.

Definition env : Planner.Env :=
  {| Planner.IMAGES_DELIVERY_BASE := None;
     Planner.randomUUID := fun k => "u" +++ Scenario.showNat k;
     Planner.sha256 := Scenario.sha256_table;
     Planner.JSON_stringify := Json.stringify;
     Planner.cdn := fun url =>
       if includes url "missing" then Planner.FetchResponse false 404 ""
       else Planner.FetchResponse true 200 "JPEG";
     Planner.images := fun _ _ _ _ _ => true |}.

Definition photoOp (name angle : string) : Planner.PhotoOp :=
  {| Planner.po_op := Some name; Planner.po_angle_id := Some angle;
     Planner.po_instruction := None; Planner.po_mask_hint := None |}.

Definition input : Planner.EditPayload :=
  {| Planner.client_request_id := "req-1";
     Planner.base_prompt := "modern kitchen";
     Planner.baseline_image_id := "img_base";
     Planner.current_image_id := "img_current";
     Planner.floor_plan_asset := Planner.SvgAsset "<svg><g/></svg>";
     Planner.angles := [ {| Planner.cp_id := "north"; Planner.cp_camera := JNull |};
                         {| Planner.cp_id := "patio"; Planner.cp_camera := JNull |} ];
     Planner.floor_plan_ops :=
       [ {| Planner.fo_op := Some "extend_wall"; Planner.fo_rest := [] |} ];
     Planner.photo_ops :=
       [ photoOp "render_angle" "north";
         photoOp "upscale" "north";
         photoOp "local_edit" "";
         photoOp "local_edit" "attic";
         photoOp "local_edit" "patio" ];
     Planner.style_lock := true |}.

Definition start : Planner.World :=
  {| Planner.uuids := 0; Planner.console := []; Planner.uploads := [] |}.

End PlanScenario.


(** What one iteration of the photo loop that produces no photo may do: it
    appends at most one changelog entry, whose status is not ["done"], and
    leaves everything else except the console as it was. *)
Definition quietStep (acc acc' : Planner.Loop) : Prop :=
  Planner.opSeq acc' = Planner.opSeq acc
  /\ Planner.currentId acc' = Planner.currentId acc
  /\ Planner.newImageIds acc' = Planner.newImageIds acc
  /\ Planner.photos acc' = Planner.photos acc
  /\ Planner.uuids (Planner.world acc') = Planner.uuids (Planner.world acc)
  /\ Planner.uploads (Planner.world acc') = Planner.uploads (Planner.world acc)
  /\ (Planner.changelog acc' = Planner.changelog acc
      \/ exists name status more,
           Planner.changelog acc'
           = Planner.changelog acc ++ [("op", JStr name) :: ("status", JStr status) :: more]
           /\ (status = "skipped" \/ status = "blocked")).

(** What an iteration that produces a photo does. *)
Definition photoTaken (env : Planner.Env) (input : Planner.EditPayload)
    (acc : Planner.Loop) (op : Planner.PhotoOp) (acc' : Planner.Loop) : Prop :=
  exists name angleId status bytes photo preview archival,
    Planner.po_op op = Some name
    /\ (name = "render_angle" \/ name = "local_edit")
    /\ Planner.po_angle_id op = Some angleId
    /\ angleId <> EmptyString
    /\ Planner.cdn env (Planner.publicUrl env (Planner.currentId acc) "public")
       = Planner.FetchResponse true status bytes
    /\ Planner.opSeq acc' = Planner.opSeq acc + 1
    /\ Planner.currentId acc' = Planner.after_image_id photo
    /\ Planner.newImageIds acc'
       = Planner.newImageIds acc
         ++ [Planner.after_image_id photo; Planner.archival_image_id photo]
    /\ Planner.photos acc' = Planner.photos acc ++ [photo]
    /\ Planner.changelog acc'
       = Planner.changelog acc
         ++ [[("op", JStr name); ("angle_id", JStr angleId); ("status", JStr "done")]]
    /\ Planner.uuids (Planner.world acc') = S (S (Planner.uuids (Planner.world acc)))
    /\ Planner.uploads (Planner.world acc')
       = Planner.uploads (Planner.world acc) ++ [preview; archival]
    /\ Planner.ph_angle photo = angleId
    /\ Planner.before_image_id photo = Planner.currentId acc
    /\ Planner.after_image_id photo
       = "img_" +++ Planner.randomUUID env (Planner.uuids (Planner.world acc))
    /\ Planner.archival_image_id photo
       = "img_" +++ Planner.randomUUID env (S (Planner.uuids (Planner.world acc)))
    /\ Planner.public_url_after photo
       = Planner.publicUrl env (Planner.after_image_id photo) "preview"
    /\ Planner.notes photo
       = (if String.eqb name "render_angle" then "Rendered angle " else "Applied local edit for ")
         +++ angleId
    /\ map Planner.up_id [preview; archival]
       = [Planner.after_image_id photo; Planner.archival_image_id photo]
    /\ map Planner.up_bytes [preview; archival] = [bytes; bytes]
    /\ map Planner.up_metadata [preview; archival]
       = photoMetadata env input (Planner.opSeq acc + 1, photo)
    /\ map (fun u => (Planner.up_format u, Planner.up_quality u)) [preview; archival]
       = [("image/webp", 72); ("image/png", 82)].


(** The floor plan a request answers with (worker.ts 916-921). *)
Definition planSvg (env : Planner.Env) (input : Planner.EditPayload) : string :=
  match Planner.floor_plan_asset input with
  | Planner.SvgAsset value => Planner.svgApply env value (Planner.floor_plan_ops input)
  | Planner.ImageIdAsset value => Planner.svgFromImage value
  end.

(** What holds of the loop variables after every iteration, [w] being the
    world in which the request started. *)
Definition loopInvariant (env : Planner.Env) (input : Planner.EditPayload)
    (w : Planner.World) (acc : Planner.Loop) : Prop :=
  exists ups chunks,
    Planner.uploads (Planner.world acc) = Planner.uploads w ++ ups
    /\ Planner.uuids (Planner.world acc) = Planner.uuids w + List.length ups
    /\ List.length ups = 2 + 2 * List.length (Planner.photos acc)
    /\ map Planner.up_id ups = Planner.newImageIds acc
    /\ Planner.newImageIds acc = imageIdsFrom env (Planner.uuids w) (List.length ups)
    /\ Planner.newImageIds acc
       = ("img_" +++ Planner.randomUUID env (Planner.uuids w))
         :: ("img_" +++ Planner.randomUUID env (S (Planner.uuids w)))
         :: flat_map (fun p => [Planner.after_image_id p; Planner.archival_image_id p])
                     (Planner.photos acc)
    /\ chained (Planner.current_image_id input) (Planner.photos acc)
    /\ Planner.currentId acc
       = last (map Planner.after_image_id (Planner.photos acc)) (Planner.current_image_id input)
    /\ Planner.opSeq acc = 1 + List.length (Planner.photos acc)
    /\ map Planner.up_metadata ups
       = planMetadata env input
         ++ flat_map (photoMetadata env input)
              (combine (seq 2 (List.length (Planner.photos acc))) (Planner.photos acc))
    /\ map (fun u => (Planner.up_format u, Planner.up_quality u)) ups
       = [("image/webp", 70); ("image/png", 82)]
         ++ flat_map (fun _ => [("image/webp", 72); ("image/png", 82)]) (Planner.photos acc)
    /\ firstn 2 (map Planner.up_bytes ups)
       = [Planner.rasterize env (planSvg env input) 1600 1000 144;
          Planner.rasterize env (planSvg env input) 1600 1000 144]
    /\ skipn 2 (map Planner.up_bytes ups) = List.concat chunks
    /\ Forall2 (fun p chunk =>
                  exists status bytes,
                    Planner.cdn env (Planner.publicUrl env (Planner.before_image_id p) "public")
                    = Planner.FetchResponse true status bytes
                    /\ chunk = [bytes; bytes])
               (Planner.photos acc) chunks.


(** A call of the Images binding without its outcome. *)
Definition uploadCall (u : Planner.Upload)
  : string * string * Planner.Metadata * string * nat :=
  (Planner.up_id u, Planner.up_bytes u, Planner.up_metadata u,
   Planner.up_format u, Planner.up_quality u).

(** Two runs of the photo loop that agree on everything but the outcome of
    the binding calls and what was logged. *)
Definition sameButStored (a b : Planner.Loop) : Prop :=
  Planner.opSeq a = Planner.opSeq b
  /\ Planner.currentId a = Planner.currentId b
  /\ Planner.newImageIds a = Planner.newImageIds b
  /\ Planner.photos a = Planner.photos b
  /\ Planner.changelog a = Planner.changelog b
  /\ Planner.uuids (Planner.world a) = Planner.uuids (Planner.world b)
  /\ map uploadCall (Planner.uploads (Planner.world a))
     = map uploadCall (Planner.uploads (Planner.world b)).

(** The loop variables before the first photo operation (worker.ts
    923-970): the two plan uploads are made. *)
Definition planStart (env : Planner.Env) (input : Planner.EditPayload) (w : Planner.World)
  : Planner.Loop :=
  let previewBytes := Planner.rasterize env (planSvg env input) 1600 1000 144 in
  let first :=
    Planner.uploadBytesToImages env previewBytes (nth 0 (planMetadata env input)
      (Planner.createMetadata input "" "" 0 "" "" "" None)) (Some "image/webp") (Some 70) w in
  let second :=
    Planner.uploadBytesToImages env previewBytes (nth 1 (planMetadata env input)
      (Planner.createMetadata input "" "" 0 "" "" "" None)) (Some "image/png") None
      (snd first) in
  {| Planner.opSeq := 1;
     Planner.currentId := Planner.current_image_id input;
     Planner.newImageIds := [fst first; fst second];
     Planner.photos := [];
     Planner.changelog := Planner.buildChangelog (Planner.floor_plan_ops input);
     Planner.world := snd second |}.

(** The response built from the loop variables after the last operation
    (worker.ts 1052-1071). *)
Definition planResult (env : Planner.Env) (input : Planner.EditPayload) (w : Planner.World)
    (final : Planner.Loop) : Planner.Result_ :=
  {| Planner.updated_svg := planSvg env input;
     Planner.raster_preview_image_id := "img_" +++ Planner.randomUUID env (Planner.uuids w);
     Planner.ops_applied := Planner.summarizeOps (Planner.floor_plan_ops input);
     Planner.result_photos := Planner.photos final;
     Planner.parent_image_id := Planner.current_image_id input;
     Planner.new_image_ids := Planner.newImageIds final;
     Planner.result_changelog := Planner.changelog final |}.


(** A changelog entry whose status is ["done"]. *)
Definition isDone (entry : list (string * json)) : bool :=
  match assoc "status" entry with
  | Some (JStr s) => String.eqb s "done"
  | _ => false
  end.

(** The last value a property list gives a name. *)
Definition lastValue (k : string) (fields : list (string * json)) : option json :=
  assoc k (rev fields).

(** What the loop has logged and noted so far, [ops] being the photo
    operations it has gone through. *)
Definition logInvariant (input : Planner.EditPayload) (ops : list Planner.PhotoOp)
    (acc : Planner.Loop) : Prop :=
  exists photoLog,
    Planner.changelog acc = Planner.buildChangelog (Planner.floor_plan_ops input) ++ photoLog
    /\ List.length photoLog = List.length (filter named ops)
    /\ List.length (filter isDone photoLog) = List.length (Planner.photos acc)
    /\ Forall (fun p =>
                 Planner.ph_angle p <> EmptyString
                 /\ (Planner.notes p = "Rendered angle " +++ Planner.ph_angle p
                     \/ Planner.notes p = "Applied local edit for " +++ Planner.ph_angle p))
              (Planner.photos acc).


(** The text [svgApply] lists the operations with. *)
Definition opDetails (env : Planner.Env) (ops : list Planner.FloorPlanOp) : string :=
  join ", " (map (fun op => match Planner.fo_op op with
                            | Some name => name
                            | None => Planner.JSON_stringify env (JObj (Planner.opObject op))
                            end)
                 ops).

Definition notDollar (c : ascii) : bool := negb (Ascii.eqb c Planner.dollar).

(** [s] is [before], then [pattern], then [after], and [pattern] does not
    occur in [s] any earlier. *)
Definition firstOccurrence (s pattern before after : string) : Prop :=
  s = before +++ pattern +++ after
  /\ forall before' after',
       s = before' +++ pattern +++ after' -> String.length before <= String.length before'.


(* ================================================================= *)
(** ** What an edit takes over from the version it edits *)

(** Lines 232-234: the aspect ratio of an edit. *)
Definition editAspect (body : EditRequestBody) (previous : option string) : option string :=
  if truthyOpt (aspect_ratio body) && supportedAspectRatio (orElse (aspect_ratio body) "")
  then aspect_ratio body
  else previous.

(** An upload with an aspect ratio outside the supported set, then an edit
    of it that names none. *)
Module Inherit.

Definition upload : UploadRequest :=
  {| content_type := Some "multipart/form-data; boundary=x";
     form_file := Some {| file_bytes := "PNG"; file_type := "image/png" |};
     form_asset_type := None;
     form_base_prompt := None;
     form_design_intent := Some "modern kitchen";
     form_aspect_ratio := Some "7:5" |}.

Definition afterUpload : State :=
  snd (handleUpload (Scenario.scenarioEnv 0) upload initial).

Definition edit : EditRequestBody :=
  {| image_ids := ["img-0"];
     edit_prompt := "render the patio view";
     base_prompt := Some "a brutalist loft";
     previous_version_id := Some "uuid-1";
     aspect_ratio := Some "2:1";
     session_id := None;
     masks := [];
     camera_hint := None |}.

Definition afterEdit : State :=
  snd (handleEdit (Scenario.scenarioEnv 1) (Some edit) afterUpload).

End Inherit.

(* ================================================================= *)
(** * Properties *)

(** ** Strings *)

Lemma startsWith_spec (k s : string) :
  startsWith s k = true <-> exists post, s = k +++ post.
Proof.
  revert s; induction k as [|a k IH]; intros s; destruct s as [|b s]; cbn [startsWith String.append].
  - split; [intros _; now exists EmptyString | reflexivity].
  - split; [intros _; now exists (String b s) | reflexivity].
  - split; [discriminate | intros [post H]; discriminate].
  - rewrite andb_true_iff, IH. split.
    + intros [Hab [post ->]]. apply Ascii.eqb_eq in Hab; subst. now exists post.
    + intros [post H]. injection H as -> ->. split; [apply Ascii.eqb_refl | now exists post].
Qed.

Lemma includes_spec (s k : string) :
  includes s k = true <-> occurs k s.
Proof.
  unfold occurs. induction s as [|c s IH].
  - cbn [includes]. rewrite orb_false_r, startsWith_spec. split.
    + intros [post H]. exists EmptyString, post. exact H.
    + intros [pre [post H]]. destruct pre; simpl in H; [now exists post | discriminate].
  - cbn [includes]. rewrite orb_true_iff, startsWith_spec, IH. split.
    + intros [[post H] | [pre [post H]]].
      * exists EmptyString, post. exact H.
      * exists (String c pre), post. simpl. now rewrite H.
    + intros [pre [post H]]. destruct pre as [|c' pre]; simpl in H.
      * left. now exists post.
      * right. injection H as _ H. now exists pre, post.
Qed.

Lemma scanKeywords_some (lower : string) (table : list (string * string)) (a : string) :
  scanKeywords lower table = Some a <->
  exists pre k post,
    table = pre ++ (k, a) :: post
    /\ occurs k lower
    /\ forall k' a', In (k', a') pre -> ~ occurs k' lower.
Proof.
  induction table as [|[k0 a0] rest IH]; simpl.
  - split; [discriminate | intros (pre & k & post & H & _)].
    destruct pre; discriminate.
  - destruct (includes lower k0) eqn:Hinc.
    + split.
      * intros [= <-]. exists [], k0, rest. repeat split; [now apply includes_spec | intros ? ? []].
      * intros (pre & k & post & Heq & Hocc & Hpre).
        destruct pre as [|[k1 a1] pre]; simpl in Heq.
        -- now injection Heq as _ -> _.
        -- injection Heq as -> -> _. exfalso. apply (Hpre k1 a1); [now left | now apply includes_spec].
    + rewrite IH. split.
      * intros (pre & k & post & -> & Hocc & Hpre).
        exists ((k0, a0) :: pre), k, post. repeat split; auto.
        intros k' a' [[= <- <-] | Hin]; [| eauto].
        intros Hc. apply includes_spec in Hc. congruence.
      * intros (pre & k & post & Heq & Hocc & Hpre).
        destruct pre as [|[k1 a1] pre]; simpl in Heq.
        -- injection Heq as -> _ _. apply includes_spec in Hocc. congruence.
        -- injection Heq as _ _ ->. exists pre, k, post. repeat split; auto.
           intros k' a' Hin. apply (Hpre k' a'). now right.
Qed.

Lemma scanKeywords_none (lower : string) (table : list (string * string)) :
  scanKeywords lower table = None <->
  forall k a, In (k, a) table -> ~ occurs k lower.
Proof.
  induction table as [|[k0 a0] rest IH]; simpl.
  - split; [intros _ ? ? [] | reflexivity].
  - destruct (includes lower k0) eqn:Hinc.
    + split; [discriminate |].
      intros H. exfalso. apply (H k0 a0); [now left | now apply includes_spec].
    + rewrite IH. split.
      * intros H k a [[= <- <-] | Hin]; [| eauto].
        intros Hc. apply includes_spec in Hc. congruence.
      * intros H k a Hin. apply (H k a). now right.
Qed.

Lemma truthy_true (s : string) : truthy s = true <-> s <> EmptyString.
Proof. destruct s; simpl; split; congruence. Qed.

Lemma trim_nonempty (h : string) : trim h <> EmptyString -> h <> EmptyString.
Proof. intros H ->. now apply H. Qed.

(** ** Bounded history *)

Lemma trimHistoryTo_lastn {A : Type} (n : nat) (h : list A) :
  trimHistoryTo n h = lastn n h.
Proof.
  unfold trimHistoryTo, lastn.
  destruct (Nat.leb_spec (List.length h) n) as [Hle | Hgt]; [| reflexivity].
  replace (List.length h - n) with 0 by lia. reflexivity.
Qed.

Lemma lastn_length {A : Type} (n : nat) (h : list A) :
  List.length (lastn n h) = Nat.min n (List.length h).
Proof. unfold lastn. rewrite length_skipn. lia. Qed.

Lemma lastn_suffix {A : Type} (n : nat) (h : list A) :
  h = firstn (List.length h - n) h ++ lastn n h.
Proof. unfold lastn. symmetry. apply firstn_skipn. Qed.

Lemma lastn_app_lastn {A : Type} (n : nat) (a b : list A) :
  lastn n (lastn n a ++ b) = lastn n (a ++ b).
Proof.
  unfold lastn at 1 3. rewrite !skipn_app, !length_app, lastn_length.
  unfold lastn. rewrite skipn_skipn. f_equal; f_equal; lia.
Qed.

Lemma appendTurns_lastn (turns : list (GeminiMessage * GeminiMessage)) :
  forall start,
    List.length start <= 20 ->
    appendTurns start turns
    = lastn 20 (start ++ flat_map (fun t => [fst t; snd t]) turns).
Proof.
  induction turns as [|[u m] turns IH]; intros start Hlen; simpl.
  - rewrite app_nil_r. unfold lastn.
    replace (List.length start - 20) with 0 by lia. reflexivity.
  - unfold appendTurns in *. simpl. rewrite IH.
    + unfold appendTurn, trimHistory. rewrite trimHistoryTo_lastn, lastn_app_lastn.
      rewrite <- !app_assoc. reflexivity.
    + unfold appendTurn, trimHistory. rewrite trimHistoryTo_lastn, lastn_length. lia.
Qed.

(** ** Running the handlers symbolically *)

Ltac break_inner x :=
  lazymatch x with
  | context [match ?y with _ => _ end] => break_inner y
  | _ => destruct x eqn:?
  end.

Ltac break_match :=
  match goal with
  | |- context [match ?x with _ => _ end] => break_inner x
  | H : context [match ?x with _ => _ end] |- _ => break_inner x
  end.

Ltac unfold_monad :=
  unfold bind, ret, throw, lift, log, emit, newUUID, readDB, writeDB in *.

Lemma existsb_ps_id (id : string) (l : list SessionRecord) :
  existsb (fun s => String.eqb (ps_id s) id) l = false -> ~ In id (map ps_id l).
Proof.
  intros H Hin. apply in_map_iff in Hin as (s & <- & Hs).
  assert (existsb (fun s0 => String.eqb (ps_id s0) (ps_id s)) l = true).
  { apply existsb_exists. exists s. split; [exact Hs | apply String.eqb_refl]. }
  congruence.
Qed.

Lemma find_version_known (st : State) (id : string) (row : VersionRow) :
  find (fun v => String.eqb (iv_id v) id) (image_versions (db st)) = Some row ->
  In row (image_versions (db st)) /\ iv_id row = id.
Proof.
  intros H. apply find_some in H as [Hin Heq]. apply String.eqb_eq in Heq. auto.
Qed.

Lemma knownVersion_none (st : State) : knownVersion st None.
Proof. intros v [=]. Qed.

Lemma knownVersion_found (st : State) (id : string) (row : VersionRow) :
  find (fun v => String.eqb (iv_id v) id) (image_versions (db st)) = Some row ->
  knownVersion st
    (Some {| vr_id := iv_id row; vr_parent_id := iv_parent_id row;
             vr_base_prompt := orElse (iv_base_prompt row) "";
             vr_metadata := iv_metadata row; vr_chat_id := iv_chat_id row;
             vr_aspect_ratio := iv_aspect_ratio row |}).
Proof.
  intros H v [= <-]. apply find_version_known in H as [Hin _].
  exists row. auto.
Qed.

Lemma found_session_in (st : State) (id : string) (s : SessionRecord) (x : SessionRecord) :
  find (fun s => String.eqb (ps_id s) id) (prompt_sessions (db st)) = Some s ->
  Some s = Some x -> In x (prompt_sessions (db st)).
Proof. intros H [= <-]. now apply find_some in H. Qed.

Ltac solve_known :=
  first [ apply knownVersion_none | eapply knownVersion_found; eassumption ].

Lemma resolveSession_cases (env : Env) (body : EditRequestBody) (st st' : State)
    (r : Result (option VersionRecord * option SessionRecord)) :
  resolveSession env body st = (r, st') ->
  (exists pv s, r = Ok (pv, s) /\ st' = st /\ knownVersion st pv
                /\ (forall x, s = Some x -> In x (prompt_sessions (db st))))
  \/ (exists pv row, r = Ok (pv, Some row) /\ sessionAdded st st' row /\ knownVersion st pv)
  \/ (exists e, r = Throw e /\ sameStores st st').
Proof.
  unfold resolveSession, createSession, insertSession, getVersionById, getSessionById.
  unfold_monad. intros H.
  repeat (break_match; cbn in *; try discriminate);
    injection H as <- <-; cbn.
  all: first
    [ left; do 2 eexists; split; [reflexivity|]; split; [reflexivity|]; split;
      [ solve_known
      | intros x Hx; first [ discriminate Hx | eapply found_session_in; eassumption ] ]
    | right; left; do 2 eexists; split; [reflexivity|]; split;
      [ unfold sessionAdded; cbn; repeat split; auto using existsb_ps_id
      | solve_known ]
    | right; right; eexists; split; [reflexivity | repeat split] ].
Qed.

Lemma parseHistory_ok (env : Env) (h : option string) (st : State) :
  exists conversation lines,
    parseHistory env h st
    = (Ok conversation,
       {| db := db st; console := console st ++ lines; trace := trace st;
          uuid_calls := uuid_calls st |}).
Proof.
  unfold parseHistory. unfold_monad.
  destruct st as [d c t u]; cbn.
  repeat (break_match; cbn).
  all: first [ exists [], []; now rewrite app_nil_r
             | eexists; exists []; now rewrite app_nil_r
             | eexists; eexists; reflexivity ].
Qed.

Lemma parseHistory_quiet (env : Env) (h : option string) (st st' : State)
    (r : Result (list GeminiMessage)) :
  parseHistory env h st = (r, st') ->
  (exists conversation, r = Ok conversation) /\ db st' = db st /\ trace st' = trace st.
Proof.
  destruct (parseHistory_ok env h st) as (conv & lines & ->).
  intros [= <- <-]. cbn. eauto.
Qed.

Lemma existsb_iv_id (id : string) (l : list VersionRow) :
  existsb (fun v => String.eqb (iv_id v) id) l = false -> ~ In id (map iv_id l).
Proof.
  intros H Hin. apply in_map_iff in Hin as (v & <- & Hv).
  assert (existsb (fun v0 => String.eqb (iv_id v0) (iv_id v)) l = true).
  { apply existsb_exists. exists v. split; [exact Hv | apply String.eqb_refl]. }
  congruence.
Qed.

Lemma length_zero_nil {A : Type} (l : list A) : (List.length l =? 0) = true -> l = [].
Proof. destruct l; [reflexivity | discriminate]. Qed.

Lemma length_nonzero {A : Type} (l : list A) : (List.length l =? 0) = false -> l <> [].
Proof. destruct l; [discriminate | discriminate]. Qed.

Lemma truthy_false (s : string) : truthy s = false -> s = EmptyString.
Proof. destruct s; [reflexivity | discriminate]. Qed.

#[local] Arguments decodeBase64 : simpl never.
#[local] Arguments lengthTruthy : simpl never.
#[local] Arguments normalizeParts : simpl never.
#[local] Arguments parseHistory : simpl never.
#[local] Arguments resolveSession : simpl never.
#[local] Arguments mapResult : simpl never.
#[local] Arguments maskParts : simpl never.
#[local] Arguments inferCameraAngle : simpl never.
#[local] Arguments summarizeParts : simpl never.
#[local] Arguments buildFollowupSuggestion : simpl never.
#[local] Arguments buildSystemInstruction : simpl never.
#[local] Arguments trimHistory : simpl never.
#[local] Arguments hashString : simpl never.
#[local] Arguments publicUrl : simpl never.
#[local] Arguments truthy : simpl never.
#[local] Arguments truthyOpt : simpl never.
#[local] Arguments orString : simpl never.
#[local] Arguments orElse : simpl never.
#[local] Arguments Nat.ltb : simpl never.
#[local] Arguments setHistory : simpl never.

(** One step of symbolic execution: split on what the head of the
    computation in [H] is waiting for. *)
Ltac head_scrutinee t :=
  lazymatch t with
  | match ?x with _ => _ end => x
  | ?f _ => head_scrutinee f
  end.

Ltac step_in H :=
  lazymatch type of H with
  | ?lhs = _ => let x := head_scrutinee lhs in break_inner x
  end; cbn in H.

Lemma validBody_intro (body : EditRequestBody) :
  (List.length (image_ids body) =? 0) = false ->
  negb (truthy (edit_prompt body)) = false ->
  validBody body.
Proof.
  intros H1 H2. split.
  - now apply length_nonzero.
  - apply truthy_true. now destruct (truthy (edit_prompt body)).
Qed.

Ltac solve_prepared :=
  split; [ apply validBody_intro; assumption
         | do 3 eexists; repeat split; try eassumption; reflexivity ].

Ltac solve_side :=
  cbn; rewrite <- ?app_assoc;
  first [ reflexivity | eassumption | apply existsb_iv_id; assumption ].

Lemma handleEdit_run (env : Env) (body : EditRequestBody) (st st' : State)
    (r : Result Response) :
  handleEdit env (Some body) st = (r, st') -> EditRun env body st r st'.
Proof.
  unfold handleEdit, generateImageFromGemini, uploadToCloudflareImages,
    insertVersion, saveHistory.
  unfold_monad. intros H. cbn in H.
  repeat (step_in H; try discriminate).
  all: repeat match goal with p : (_ * _)%type |- _ => destruct p end;
       cbn [fst snd] in *; subst; injection H as <- <-.
  all: try match goal with
         | Hp : parseHistory _ _ _ = (Throw _, _) |- _ =>
             apply parseHistory_quiet in Hp as [[? [=]] _]
         end.
  all: try solve
    [ apply Run_no_images; now apply length_zero_nil
    | apply Run_no_prompt;
      [ now apply length_nonzero
      | apply truthy_false; now destruct (truthy (edit_prompt body)) ]
    | eapply Run_resolve_threw; [apply validBody_intro; assumption | eassumption]
    | eapply Run_no_session; [apply validBody_intro; assumption | eassumption]
    | eapply Run_fetch_failed;
      [ apply validBody_intro; assumption | eassumption | eassumption | auto ]
    | eapply Run_oracle_threw; [solve_prepared | eassumption | solve_side ..]
    | eapply Run_unusable;
      [ solve_prepared | eassumption
      | first [ left; eexists; reflexivity | right; eexists; reflexivity ]
      | solve_side .. ]
    | eapply Run_blob_failed;
      [solve_prepared | eassumption | eassumption | eassumption | solve_side ..]
    | eapply Run_version_conflict;
      [solve_prepared | eassumption | eassumption | eassumption | solve_side ..]
    | eapply Run_done;
      [solve_prepared | eassumption | eassumption | eassumption | solve_side ..]
    ].
Qed.

Ltac solve_upload_session :=
  unfold UploadSession, uploadIntent; cbn;
  repeat split; first [ reflexivity | apply existsb_ps_id; assumption ].

Lemma handleUpload_run (env : Env) (request : UploadRequest) (st st' : State)
    (r : Result Response) :
  handleUpload env request st = (r, st') -> UploadRun env request st r st'.
Proof.
  unfold handleUpload, uploadToCloudflareImages, insertVersion, insertSession.
  unfold_monad. intros H. cbn in H.
  repeat (step_in H; try discriminate).
  all: injection H as <- <-.
  all: try solve
    [ apply Up_not_multipart; now destruct (includes _ _)
    | apply Up_no_file; [now destruct (includes _ _) | assumption]
    | apply Up_session_conflict; repeat split
    | eapply Up_blob_failed; try solve_side; solve_upload_session
    | eapply Up_version_conflict; try solve_side; solve_upload_session
    | eapply Up_done; try solve_side; solve_upload_session ].
Qed.

(* ================================================================= *)
(** ** Camera-angle tagger *)

(** Claim C6, as amended: [inferCameraAngle] returns the hint with its
    surrounding whitespace removed whenever the hint is not blank; otherwise
    it returns the label of the first keyword of [CAMERA_KEYWORDS], in table
    order, that occurs as a substring of the lower-cased text, and nothing
    when no keyword occurs; texts that agree up to case get the same answer,
    and the result depends on nothing but the text and the hint. *)
Theorem inferCameraAngle_spec (prompt : string) (hint : option string) :
  (forall h, hint = Some h -> trim h <> EmptyString ->
             inferCameraAngle prompt hint = Some (trim h))
  /\ ((hint = None \/ exists h, hint = Some h /\ trim h = EmptyString) ->
      (forall a,
          inferCameraAngle prompt hint = Some a <->
          exists pre k post,
            CAMERA_KEYWORDS = pre ++ (k, a) :: post
            /\ occurs k (toLowerCase prompt)
            /\ forall k' a', In (k', a') pre -> ~ occurs k' (toLowerCase prompt))
      /\ (inferCameraAngle prompt hint = None <->
          forall k a, In (k, a) CAMERA_KEYWORDS -> ~ occurs k (toLowerCase prompt)))
  /\ (forall prompt', toLowerCase prompt' = toLowerCase prompt ->
                      inferCameraAngle prompt' hint = inferCameraAngle prompt hint)
  /\ (forall prompt' hint', prompt' = prompt -> hint' = hint ->
                            inferCameraAngle prompt' hint' = inferCameraAngle prompt hint).
Proof.
  split; [| split; [| split]].
  - intros h -> Hh. unfold inferCameraAngle.
    assert (Ht : truthy (trim h) = true) by now apply truthy_true.
    assert (He : truthy h = true) by (apply truthy_true; now apply trim_nonempty).
    now rewrite He, Ht.
  - intros Hhint.
    assert (Hscan : inferCameraAngle prompt hint
                    = scanKeywords (toLowerCase prompt) CAMERA_KEYWORDS).
    { destruct Hhint as [-> | (h & -> & Hh)]; [reflexivity |].
      unfold inferCameraAngle. rewrite Hh. now rewrite andb_false_r. }
    rewrite Hscan. split.
    + intros a. apply scanKeywords_some.
    + apply scanKeywords_none.
  - intros prompt' Heq. unfold inferCameraAngle. now rewrite Heq.
  - intros prompt' hint' -> ->. reflexivity.
Qed.

Lemma inferCameraAngle_spec_witness :
  inferCameraAngle "north patio" (Some " roof ") = Some "roof"
  /\ inferCameraAngle "Render the PATIO view" (Some "  ") = Some "patio".
Proof.
  split.
  - apply (proj1 (inferCameraAngle_spec "north patio" (Some " roof ")) " roof ").
    + reflexivity.
    + vm_compute. discriminate.
  - apply (proj1 (proj2 (inferCameraAngle_spec "Render the PATIO view" (Some "  ")))).
    + right. exists "  ". split; reflexivity.
    + exists [("north", "north")], "patio",
        [ ("south", "south"); ("east", "east"); ("west", "west"); ("stairs", "stairs");
          ("entry", "entry"); ("foyer", "entry"); ("kitchen", "kitchen");
          ("living", "living"); ("exterior", "exterior") ].
      split; [reflexivity | split].
      * exists "render the ", " view". reflexivity.
      * intros k' a' [[= <- <-] | []]. intros Hocc.
        apply includes_spec in Hocc. vm_compute in Hocc. discriminate.
Defined.

(** Claim C6 as stated fails: a hint with surrounding blanks is not
    returned verbatim. *)
Lemma inferCameraAngle_hint_not_verbatim :
  trim " patio " <> EmptyString
  /\ inferCameraAngle "add a skylight" (Some " patio ") <> Some " patio ".
Proof. split; vm_compute; discriminate. Qed.

(* ================================================================= *)
(** ** Diff summaries *)

Lemma join_nonempty (sep x : string) (l : list string) :
  x <> EmptyString -> join sep (x :: l) <> EmptyString.
Proof.
  intros Hx. destruct l; cbn [join]; [exact Hx |].
  destruct x; [congruence | discriminate].
Qed.

Lemma hasText_trim (p : GeminiPart) :
  hasText p = true ->
  (match text p with Some t => trim t | None => EmptyString end) <> EmptyString.
Proof.
  unfold hasText. destruct (text p) as [t|]; [| discriminate].
  destruct (trim t); [discriminate | discriminate].
Qed.

Lemma summarizeParts_empty (ps : list GeminiPart) :
  summarizeParts ps = EmptyString <-> forall p, In p ps -> hasText p = false.
Proof.
  unfold summarizeParts. split.
  - intros H p Hin. destruct (hasText p) eqn:Hp; [| reflexivity].
    assert (Hf : In p (filter hasText ps)) by (apply filter_In; auto).
    destruct (filter hasText ps) as [|q qs] eqn:Hq; [destruct Hf |].
    exfalso. cbn [map] in H. revert H. apply join_nonempty. apply hasText_trim.
    assert (In q (filter hasText ps)) by (rewrite Hq; now left).
    now apply filter_In in H.
  - intros H. replace (filter hasText ps) with (@nil GeminiPart); [reflexivity |].
    symmetry. induction ps as [|p ps IH]; [reflexivity |].
    cbn [filter]. rewrite (H p (or_introl eq_refl)). apply IH.
    intros q Hq. apply H. now right.
Qed.

(* ================================================================= *)
(** ** Frames: what a run leaves alone *)

Lemma resolve_frame (env : Env) (body : EditRequestBody) (st st1 : State)
    (r : Result (option VersionRecord * option SessionRecord)) :
  resolveSession env body st = (r, st1) -> Resolved st st1.
Proof.
  intros H. apply resolveSession_cases in H.
  destruct H as [(pv & s & _ & -> & _) | [(pv & row & _ & Hadd & _) | (e & _ & Hs)]].
  - split; [reflexivity | left; auto].
  - destruct Hadd as (Hdb & _ & Htr & Hh & Hfresh). split.
    + now rewrite Hdb.
    + right. exists row. rewrite Hdb. auto.
  - destruct Hs as (Hdb & _ & Htr). split; [now rewrite Hdb | left; now rewrite Hdb].
Qed.

Lemma resolved_parse (env : Env) (h : option string) (st st1 st2 : State)
    (r : Result (list GeminiMessage)) :
  Resolved st st1 -> parseHistory env h st1 = (r, st2) -> Resolved st st2.
Proof.
  intros HR Hp. apply parseHistory_quiet in Hp as (_ & Hdb & Htr).
  unfold Resolved in *. now rewrite Hdb, Htr.
Qed.

Lemma prepared_frame (env : Env) (body : EditRequestBody) (st : State)
    (pv : option VersionRecord) (session : SessionRecord) (st2 : State)
    (conversation messages : list GeminiMessage) :
  Prepared env body st pv session st2 conversation messages ->
  Resolved st st2
  /\ In session (prompt_sessions (db st2))
  /\ knownVersion st pv.
Proof.
  intros (_ & st1 & imgs & ms & Hres & Hparse & _).
  pose proof (resolve_frame _ _ _ _ _ Hres) as HR.
  pose proof (resolved_parse _ _ _ _ _ _ HR Hparse) as HR2.
  apply parseHistory_quiet in Hparse as (_ & Hdb & _).
  apply resolveSession_cases in Hres.
  destruct Hres as [(pv' & s & [= <- <-] & -> & Hk & Hin)
                   | [(pv' & row & [= <- <-] & Hadd & Hk) | (e & [=] & _)]].
  - split; [exact HR2 | split; [| exact Hk]]. rewrite Hdb. now apply Hin.
  - split; [exact HR2 | split; [| exact Hk]]. rewrite Hdb.
    destruct Hadd as (-> & _). cbn. apply in_or_app. right. now left.
Qed.


Lemma trace_tail_nil (st : State) : trace st = trace st ++ [].
Proof. now rewrite app_nil_r. Qed.


(* ================================================================= *)
(** ** Upstream failures on the edit path *)




(* ================================================================= *)
(** ** Session resolution *)

Lemma fresh_ps_id (id : string) (l : list SessionRecord) :
  ~ In id (map ps_id l) -> existsb (fun s => String.eqb (ps_id s) id) l = false.
Proof.
  intros H. destruct (existsb _ l) eqn:He; [| reflexivity].
  exfalso. apply H. apply existsb_exists in He as (s & Hs & Heq).
  apply String.eqb_eq in Heq. subst. now apply in_map.
Qed.

(** Claim C2, as amended: session resolution tries, in this order, (1) the
    session the supplied previous version references, (2) the explicitly
    supplied session id, (3) a new session created from the supplied design
    intent, and (4) fails with the 400 "A session or base prompt is required
    to edit"; a previous-version id or session id that names no existing
    record does not make the request fail: the rule yields nothing and
    resolution falls through to the next one. *)
Theorem resolveSession_precedence (env : Env) (body : EditRequestBody) (st : State) :
  let previous := option_map versionRecord (previousOf st body) in
  (forall s, sessionOfPrevious st body = Some s ->
             resolveSession env body st = (Ok (previous, Some s), st))
  /\ (forall s, sessionOfPrevious st body = None ->
                sessionOfId st body = Some s ->
                resolveSession env body st = (Ok (previous, Some s), st))
  /\ (sessionOfPrevious st body = None ->
      sessionOfId st body = None ->
      truthyOpt (base_prompt body) = true ->
      ~ In (randomUUID env (uuid_calls st)) (map ps_id (prompt_sessions (db st))) ->
      exists row st1,
        resolveSession env body st = (Ok (previous, Some row), st1)
        /\ ps_id row = randomUUID env (uuid_calls st)
        /\ ps_base_prompt row = orElse (base_prompt body) ""
        /\ ps_base_prompt_hash row = hashString env (orElse (base_prompt body) "")
        /\ ps_history row = "[]"
        /\ prompt_sessions (db st1) = prompt_sessions (db st) ++ [row]
        /\ image_versions (db st1) = image_versions (db st))
  /\ (sessionOfPrevious st body = None ->
      sessionOfId st body = None ->
      truthyOpt (base_prompt body) = false ->
      resolveSession env body st = (Ok (previous, None), st)
      /\ (validBody body ->
          handleEdit env (Some body) st
          = (Ok (jsonResponse (BError "A session or base prompt is required to edit") 400),
             st))).
Proof.
  cbv zeta.
  assert (Hpv : getVersionById (orElse (previous_version_id body) "") st
                = (Ok (option_map versionRecord
                         (find (fun v => String.eqb (iv_id v)
                                           (orElse (previous_version_id body) ""))
                               (image_versions (db st)))), st)).
  { unfold getVersionById. unfold_monad. cbn. now destruct (find _ _). }
  unfold sessionOfPrevious, sessionOfId, previousOf.
  repeat split.
  - intros s Hs. unfold resolveSession, getSessionById. unfold_monad.
    destruct (truthyOpt (previous_version_id body)); [| discriminate].
    rewrite Hpv. destruct (find _ (image_versions _)) as [v|]; [| discriminate].
    cbn in *. destruct (truthyOpt (iv_chat_id v)); [| discriminate].
    cbn. now rewrite Hs.
  - intros s Hnone Hs. unfold resolveSession, getSessionById. unfold_monad.
    destruct (truthyOpt (session_id body)); [| discriminate].
    destruct (truthyOpt (previous_version_id body)).
    + rewrite Hpv. destruct (find _ (image_versions _)) as [v|]; cbn in *.
      * destruct (truthyOpt (iv_chat_id v)); cbn; [rewrite Hnone |]; cbn; now rewrite Hs.
      * now rewrite Hs.
    + cbn. now rewrite Hs.
  - intros Hnone Hid Hbp Hfresh. apply fresh_ps_id in Hfresh.
    unfold resolveSession, getSessionById, createSession, insertSession. unfold_monad.
    rewrite Hbp.
    destruct (truthyOpt (previous_version_id body));
      [rewrite Hpv; destruct (find _ (image_versions _)) as [v|]; cbn in *;
       [destruct (truthyOpt (iv_chat_id v)); cbn; [rewrite Hnone; cbn |] |] | cbn];
      (destruct (truthyOpt (session_id body)); cbn; [rewrite Hid; cbn |]);
      rewrite Hfresh; cbn; do 2 eexists; repeat split.
  - unfold resolveSession, getSessionById. unfold_monad.
    match goal with Hb : truthyOpt (base_prompt body) = false |- _ => rewrite Hb end.
    match goal with
    | H1 : _ = None, H2 : _ = None |- _ =>
        destruct (truthyOpt (previous_version_id body));
          [rewrite Hpv; destruct (find _ (image_versions _)) as [v|]; cbn in *;
           [destruct (truthyOpt (iv_chat_id v)); cbn; [rewrite H1; cbn |] |] | cbn];
          (destruct (truthyOpt (session_id body)); cbn; [rewrite H2; cbn |]);
          reflexivity
    end.
  - intros [Hids Hprompt].
    assert (Hres : resolveSession env body st
                   = (Ok (option_map versionRecord (previousOf st body), None), st)).
    { unfold previousOf, resolveSession, getSessionById. unfold_monad.
      match goal with Hb : truthyOpt (base_prompt body) = false |- _ => rewrite Hb end.
      match goal with
      | H1 : _ = None, H2 : _ = None |- _ =>
          destruct (truthyOpt (previous_version_id body));
            [rewrite Hpv; destruct (find _ (image_versions _)) as [v|]; cbn in *;
             [destruct (truthyOpt (iv_chat_id v)); cbn; [rewrite H1; cbn |] |] | cbn];
            (destruct (truthyOpt (session_id body)); cbn; [rewrite H2; cbn |]);
            reflexivity
      end. }
    unfold handleEdit. unfold_monad.
    destruct (image_ids body) as [|i ids] eqn:Hi; [congruence |].
    apply truthy_true in Hprompt. rewrite Hprompt. cbn. now rewrite Hres.
Qed.

Lemma resolveSession_precedence_witness :
  exists row st1,
    resolveSession (Scenario.scenarioEnv 1) Failures.danglingEdit initial
    = (Ok (None, Some row), st1)
    /\ ps_base_prompt row = "modern kitchen"
    /\ ps_history row = "[]".
Proof.
  destruct (proj1 (proj2 (proj2
              (resolveSession_precedence (Scenario.scenarioEnv 1) Failures.danglingEdit initial))))
    as (row & st1 & Hres & _ & Hbp & _ & Hh & _).
  - reflexivity.
  - reflexivity.
  - reflexivity.
  - intros [].
  - exists row, st1. repeat split; assumption.
Defined.

(** Claim C2 as stated fails: an edit whose previous-version id and session
    id name no record is not answered with NotFound; resolution falls
    through to the design intent and the edit succeeds. *)
Lemma dangling_ids_fall_through :
  previousOf initial Failures.danglingEdit = None
  /\ sessionOfId initial Failures.danglingEdit = None
  /\ exists resp,
       fst (handleEdit (Scenario.scenarioEnv 1) (Some Failures.danglingEdit) initial) = Ok resp
       /\ status resp = 200.
Proof.
  repeat split. eexists. split; vm_compute; reflexivity.
Qed.

(* ================================================================= *)
(** ** Diff summaries of an edit *)

(** Claim C10, as amended: on a successful edit the row stores
    [diff_summary] as null exactly when no part of the oracle's answer
    carries text that is not blank, that is, not empty once trimmed, and
    the response then reports "Updated render created."; in every other
    case the stored and the returned summary are the same text. *)
Theorem edit_diff_summary (env : Env) (body : EditRequestBody) (st st' : State)
    (resp : Response) :
  handleEdit env (Some body) st = (Ok resp, st') ->
  status resp = 200 ->
  exists row messages sys ar answer modelParts image imageId versionId followup returned,
    gemini env messages sys ar = Some answer
    /\ normalizeParts (candidate_parts answer) = Ok modelParts
    /\ find hasInline modelParts = Some image
    /\ image_versions (db st') = image_versions (db st) ++ [row]
    /\ resp = jsonResponse
                (BEdited imageId versionId (publicUrl env imageId) returned followup) 200
    /\ ((forall p, In p modelParts -> hasText p = false) ->
        iv_diff_summary row = None /\ returned = "Updated render created.")
    /\ (iv_diff_summary row <> Some returned <->
        forall p, In p modelParts -> hasText p = false).
Proof.
  intros H Hs. apply handleEdit_run in H. inversion H; subst; clear H;
    try (cbn in Hs; discriminate);
    try match goal with
        | Hr : _ \/ _ |- _ =>
            destruct Hr as [[e [=]] | [msg [= ->]]]; cbn in Hs; discriminate
        end.
  match goal with
  | Hp : Prepared _ _ _ _ _ _ _ _ |- _ => apply prepared_frame in Hp as ((Hv & _) & _)
  end.
  exists row, messages, sys, ar, answer, modelParts, image, imageId, (iv_id row).
  eexists. eexists. repeat split; try eassumption.
  - congruence.
  - match goal with Hd : iv_diff_summary row = _ |- _ => rewrite Hd end.
    apply summarizeParts_empty in H. now rewrite H.
  - apply summarizeParts_empty in H. now rewrite H.
  - match goal with Hd : iv_diff_summary row = _ |- _ => rewrite Hd end.
    intros Hne. apply summarizeParts_empty.
    unfold orString in Hne.
    destruct (truthy (summarizeParts modelParts)) eqn:Ht; [congruence |].
    now apply truthy_false.
  - match goal with Hd : iv_diff_summary row = _ |- _ => rewrite Hd end.
    intros Hall. apply summarizeParts_empty in Hall. rewrite Hall. discriminate.
Qed.

Lemma edit_diff_summary_witness :
  exists row,
    image_versions (db (snd (handleEdit Edge.silentOracle (Some Failures.freshEdit) initial)))
    = [row]
    /\ iv_diff_summary row = None.
Proof.
  eassert (Hrun : handleEdit Edge.silentOracle (Some Failures.freshEdit) initial = (Ok _, _))
    by (vm_compute; reflexivity).
  destruct (edit_diff_summary _ _ _ _ _ Hrun eq_refl)
    as (row & messages & sys & ar & answer & modelParts & image & imageId & versionId
        & followup & returned & _ & _ & _ & Hrows & _).
  exists row. rewrite Hrun. cbn [snd]. split; [exact Hrows |].
  vm_compute in Hrows. injection Hrows as <-. reflexivity.
Defined.

(** Claim C10 as stated fails: the oracle answers with an image and a text
    part whose text is a single space.  That text is not empty, and still
    the row stores no diff summary while the response reports "Updated
    render created.": the two differ although a non-empty text part is
    there. *)
Lemma blank_text_is_no_summary :
  exists modelParts part row st',
    normalizeParts (Some Edge.blankText) = Ok modelParts
    /\ In part modelParts
    /\ text part = Some " "
    /\ handleEdit Edge.blankOracle (Some Failures.freshEdit) initial
       = (Ok (jsonResponse
                (BEdited "img-1" "uuid-1" "https://imagedelivery.net/acct/img-1/public"
                   "Updated render created."
                   "Would you like to request another refinement?")
                200), st')
    /\ image_versions (db st') = [row]
    /\ iv_diff_summary row = None.
Proof.
  do 4 eexists. split; [vm_compute; reflexivity |].
  split; [left; reflexivity |].
  split; [reflexivity |].
  split; [vm_compute; reflexivity |].
  split; vm_compute; reflexivity.
Qed.

(* ================================================================= *)
(** ** The history cap *)

Lemma trimHistory_length {A : Type} (h : list A) : List.length (trimHistory h) <= 20.
Proof. unfold trimHistory. rewrite trimHistoryTo_lastn, lastn_length. lia. Qed.

Lemma trimHistory_lastn {A : Type} (h : list A) (u m : A) :
  trimHistory ((h ++ [u]) ++ [m]) = lastn 20 (h ++ [u; m]).
Proof. unfold trimHistory. now rewrite trimHistoryTo_lastn, <- app_assoc. Qed.

Lemma setHistory_other (sid history : string) (s : SessionRecord) :
  ps_id (setHistory sid history s) <> sid -> setHistory sid history s = s.
Proof.
  unfold setHistory. destruct (String.eqb_spec (ps_id s) sid) as [Heq | _]; [| reflexivity].
  cbn [ps_id]. contradiction.
Qed.

(** The stored histories along a run, for a [JSON.stringify] whose output
    tells how many turns were serialised. *)
Section Measured.

Variable stringify : json -> string.
Variable measure : string -> nat.
Hypothesis measure_stringify :
  forall h, measure (stringify (jsonOfHistory h)) = List.length h.
Hypothesis measure_empty : measure "[]" = 0.

Lemma resolved_within (st st2 : State) :
  Resolved st st2 -> historiesWithin measure 20 st -> historiesWithin measure 20 st2.
Proof.
  intros (_ & [[Heq _] | (row & Heq & _ & Hh & _)]) Hold s Hs; rewrite Heq in Hs;
    [now apply Hold |].
  apply in_app_or in Hs as [Hs | [<- | []]]; [now apply Hold |].
  rewrite Hh, measure_empty. lia.
Qed.

Lemma upload_within (env : Env) (request : UploadRequest) (st : State) :
  JSON_stringify env = stringify ->
  historiesWithin measure 20 st ->
  historiesWithin measure 20 (snd (handleUpload env request st)).
Proof.
  intros Henv Hold.
  destruct (handleUpload env request st) as [r st1] eqn:H. cbn [snd].
  assert (Hnew : forall session,
             UploadSession env request st session ->
             prompt_sessions (db st1) = prompt_sessions (db st) ++ [session] ->
             historiesWithin measure 20 st1).
  { intros session (_ & _ & _ & Hh & _) Heq s Hs. rewrite Heq in Hs.
    apply in_app_or in Hs as [Hs | [<- | []]]; [now apply Hold |].
    rewrite Hh, Henv. change (JArr []) with (jsonOfHistory []).
    rewrite measure_stringify. cbn. lia. }
  apply handleUpload_run in H. revert Henv Hnew.
  inversion H; subst; clear H; intros Henv Hnew; eauto.
  match goal with Hs : sameStores _ _ |- _ => destruct Hs as (Hdb & _) end.
  intros s Hs. rewrite Hdb in Hs. now apply Hold.
Qed.

Lemma edit_within (env : Env) (request : option EditRequestBody) (st : State) :
  JSON_stringify env = stringify ->
  historiesWithin measure 20 st ->
  historiesWithin measure 20 (snd (handleEdit env request st)).
Proof.
  intros Henv Hold. destruct request as [body|]; [| exact Hold].
  destruct (handleEdit env (Some body) st) as [r st1] eqn:H. cbn [snd].
  apply handleEdit_run in H.
  assert (Hquiet : forall st2, Resolved st st2 -> db st1 = db st2 ->
                               historiesWithin measure 20 st1).
  { intros st2 HR Hdb s Hs. rewrite Hdb in Hs. now apply (resolved_within st st2). }
  revert Henv Hquiet. inversion H; subst; clear H; intros Henv Hquiet; auto.
  - eapply Hquiet; [eapply resolve_frame; eassumption | reflexivity].
  - eapply Hquiet; [eapply resolve_frame; eassumption | reflexivity].
  - eapply Hquiet;
      [eapply resolved_parse; [eapply resolve_frame; eassumption | eassumption]
      | reflexivity].
  - eapply Hquiet; [eapply prepared_frame; eassumption | assumption].
  - eapply Hquiet; [eapply prepared_frame; eassumption | assumption].
  - eapply Hquiet; [eapply prepared_frame; eassumption | assumption].
  - eapply Hquiet; [eapply prepared_frame; eassumption | assumption].
  - match goal with
    | Hp : Prepared _ _ _ _ _ _ _ _ |- _ => apply prepared_frame in Hp as (HR & _)
    end.
    pose proof (resolved_within _ _ HR Hold) as Hmid.
    intros s Hs.
    match goal with
    | Hps : prompt_sessions (db st1) = _ |- _ => rewrite Hps in Hs
    end.
    apply in_map_iff in Hs as (s0 & <- & Hs0). unfold setHistory.
    destruct (String.eqb (ps_id s0) (ps_id session)); [| now apply Hmid].
    cbn [ps_history]. rewrite Henv, measure_stringify. apply trimHistory_length.
Qed.

Lemma reachableWith_within (st : State) :
  reachableWith (fun env => JSON_stringify env = stringify) st ->
  historiesWithin measure 20 st.
Proof.
  induction 1 as [| env request st Hok _ IH | env request st Hok _ IH].
  - intros s [].
  - now apply upload_within.
  - now apply edit_within.
Qed.

End Measured.

(** Claim C5: every successful edit leaves, in the row of the session it
    resolved, the serialisation of the last 20 entries of the conversation
    it read followed by the new user turn and the new model turn, and
    leaves every other session as it was; what is stored has 20 entries,
    or all of them when there are fewer.  Whatever is evicted is evicted
    from the front: the stored list is the most recent entries in their
    original order.  After any sequence of such appends the history is
    the last 20 of all the turns, in their order.  And along every run,
    whatever [JSON.stringify] the platform has, as long as its output
    tells how many turns went in: no stored history ever counts more than
    20. *)
Theorem history_cap :
  (forall env body st resp st',
      handleEdit env (Some body) st = (Ok resp, st') ->
      status resp = 200 ->
      exists pv session st1 st2 conversation inlineParts modelParts stored,
        resolveSession env body st = (Ok (pv, Some session), st1)
        /\ parseHistory env (Some (ps_history session)) st1 = (Ok conversation, st2)
        /\ In stored (prompt_sessions (db st'))
        /\ ps_id stored = ps_id session
        /\ ps_history stored
           = JSON_stringify env
               (jsonOfHistory
                  (lastn 20 (conversation
                             ++ [userTurn body inlineParts; modelTurn modelParts])))
        /\ List.length
             (lastn 20 (conversation ++ [userTurn body inlineParts; modelTurn modelParts]))
           = Nat.min 20 (List.length conversation + 2)
        /\ (forall other,
               In other (prompt_sessions (db st')) -> ps_id other <> ps_id session ->
               In other (prompt_sessions (db st2))))
  /\ (forall (h : list GeminiMessage) u m,
         appendTurn h u m = lastn 20 (h ++ [u; m])
         /\ List.length (appendTurn h u m) = Nat.min 20 (List.length h + 2)
         /\ exists evicted,
              h ++ [u; m] = evicted ++ appendTurn h u m
              /\ List.length evicted = List.length h + 2 - 20)
  /\ (forall start turns,
         List.length start <= 20 ->
         List.length (appendTurns start turns) <= 20
         /\ appendTurns start turns
            = lastn 20 (start ++ flat_map (fun t => [fst t; snd t]) turns))
  /\ (forall (stringify : json -> string) (measure : string -> nat),
         (forall h, measure (stringify (jsonOfHistory h)) = List.length h) ->
         measure "[]" = 0 ->
         forall st,
           reachableWith (fun env => JSON_stringify env = stringify) st ->
           historiesWithin measure 20 st).
Proof.
  split; [| split; [| split; [| exact reachableWith_within]]].
  - intros env body st resp st' H Hs. apply handleEdit_run in H.
    inversion H; subst; clear H;
      try (cbn in Hs; discriminate);
      try match goal with
          | Hr : _ \/ _ |- _ =>
              destruct Hr as [[e [=]] | [msg [= ->]]]; cbn in Hs; discriminate
          end.
    match goal with
    | Hp : Prepared _ _ _ _ _ _ _ _ |- _ =>
        pose proof (prepared_frame _ _ _ _ _ _ _ _ Hp) as (_ & Hin & _);
        destruct Hp as (_ & st1 & imgs & ms & Hres & Hparse & _ & _ & ->)
    end.
    match goal with
    | Hsess : prompt_sessions (db st') = _ |- _ =>
        rewrite trimHistory_lastn in Hsess; rename Hsess into Hstored
    end.
    exists pv, session, st1, st2, conversation, (imgs ++ ms), modelParts.
    eexists (setHistory (ps_id session) _ session).
    split; [exact Hres | split; [exact Hparse | split; [| split; [| split; [| split]]]]].
    + rewrite Hstored. now apply in_map.
    + unfold setHistory. now rewrite String.eqb_refl.
    + unfold setHistory. now rewrite String.eqb_refl.
    + rewrite lastn_length, length_app. cbn [List.length]. reflexivity.
    + intros other Hother Hid. rewrite Hstored in Hother.
      apply in_map_iff in Hother as (s0 & <- & Hs0).
      rewrite setHistory_other; [exact Hs0 |].
      intros Heq. apply Hid. rewrite Heq. reflexivity.
  - intros h u m. unfold appendTurn. rewrite trimHistory_lastn.
    split; [reflexivity | split].
    + rewrite lastn_length, length_app. cbn [List.length]. reflexivity.
    + exists (firstn (List.length (h ++ [u; m]) - 20) (h ++ [u; m])).
      split; [apply lastn_suffix |].
      rewrite length_firstn, length_app. cbn [List.length]. lia.
  - intros start turns Hlen. rewrite appendTurns_lastn by exact Hlen.
    split; [rewrite lastn_length; lia | reflexivity].
Qed.

Lemma history_cap_witness :
  exists (conversation : list GeminiMessage) (inlineParts modelParts : list GeminiPart) stored,
    List.length conversation = 20
    /\ In stored (prompt_sessions (db (Long.after 11)))
    /\ ps_id stored = "uuid-0"
    /\ ps_history stored
       = Json.stringify
           (jsonOfHistory
              (lastn 20 (conversation
                         ++ [userTurn (Long.edit 11) inlineParts; modelTurn modelParts])))
    /\ List.length
         (lastn 20 (conversation ++ [userTurn (Long.edit 11) inlineParts; modelTurn modelParts]))
       = 20
    /\ nth_error
         (lastn 20 (conversation ++ [userTurn (Long.edit 11) inlineParts; modelTurn modelParts]))
         0
       = nth_error conversation 2.
Proof.
  eassert (Hrun : handleEdit (Scenario.scenarioEnv 11) (Some (Long.edit 11)) (Long.after 10)
                  = (Ok _, Long.after 11))
    by (vm_compute; reflexivity).
  destruct (proj1 history_cap _ _ _ _ _ Hrun eq_refl)
    as (pv & session & st1 & st2 & conversation & inlineParts & modelParts & stored
        & Hres & Hparse & Hin & Hid & Hh & Hlen & _).
  assert (Hsession : ps_id session = "uuid-0" /\ List.length conversation = 20).
  { vm_compute in Hres. injection Hres as _ <- <-.
    vm_compute in Hparse. injection Hparse as <- _. split; reflexivity. }
  destruct Hsession as [Hsid Hconv].
  exists conversation, inlineParts, modelParts, stored.
  change (JSON_stringify (Scenario.scenarioEnv 11)) with Json.stringify in Hh.
  split; [exact Hconv | split; [exact Hin | split; [rewrite Hid; exact Hsid | split; [exact Hh |]]]].
  split; [rewrite Hlen, Hconv; reflexivity |].
  unfold lastn. rewrite length_app, Hconv. cbn [List.length Nat.add Nat.sub].
  destruct conversation as [|c0 [|c1 rest]]; [discriminate Hconv | discriminate Hconv |].
  cbn [app skipn nth_error].
  destruct rest; [discriminate Hconv | reflexivity].
Defined.

(* ================================================================= *)
(** ** Uploads without a design intent *)

Lemma fresh_iv_id (id : string) (l : list VersionRow) :
  ~ In id (map iv_id l) -> existsb (fun v => String.eqb (iv_id v) id) l = false.
Proof.
  intros H. destruct (existsb _ l) eqn:He; [| reflexivity].
  exfalso. apply H. apply existsb_exists in He as (v & Hv & Heq).
  apply String.eqb_eq in Heq. subst. now apply in_map.
Qed.

(** Claim C9: an upload that supplies a file and neither [design_intent]
    nor [base_prompt] is never rejected as invalid: whatever the
    collaborators do, the handler answers 200 or throws; and once the blob
    store accepts the file (and the two fresh ids are unused) it answers
    200, the new session's design intent is the empty string and its
    intent hash is the hash of the empty string, and a root version
    referencing that session is created. *)
Theorem upload_without_intent (env : Env) (request : UploadRequest) (st : State)
    (file : File) :
  includes (orElse (content_type request) "") "multipart/form-data" = true ->
  form_file request = Some file ->
  form_design_intent request = None ->
  form_base_prompt request = None ->
  (forall r st' resp,
      handleUpload env request st = (r, st') -> r = Ok resp -> status resp = 200)
  /\ (forall imageId,
         (forall bytes mime md, images_api env bytes mime md = Some imageId) ->
         ~ In (randomUUID env (uuid_calls st)) (map ps_id (prompt_sessions (db st))) ->
         ~ In (randomUUID env (S (uuid_calls st))) (map iv_id (image_versions (db st))) ->
         exists st' session version,
           handleUpload env request st
           = (Ok (jsonResponse
                    (BUploaded imageId (randomUUID env (S (uuid_calls st)))
                       (randomUUID env (uuid_calls st)) (publicUrl env imageId)
                       "Initial upload"
                       "Would you like to request an initial render or annotate the floor plan?")
                    200), st')
           /\ prompt_sessions (db st') = prompt_sessions (db st) ++ [session]
           /\ ps_id session = randomUUID env (uuid_calls st)
           /\ ps_base_prompt session = EmptyString
           /\ ps_base_prompt_hash session = hashString env EmptyString
           /\ image_versions (db st') = image_versions (db st) ++ [version]
           /\ iv_id version = randomUUID env (S (uuid_calls st))
           /\ iv_parent_id version = None
           /\ iv_chat_id version = Some (ps_id session)
           /\ iv_base_prompt version = Some EmptyString
           /\ artifactOf version = Some imageId).
Proof.
  intros Hct Hfile Hdi Hbp. split.
  - intros r st' resp H ->. apply handleUpload_run in H.
    inversion H; subst; clear H; try reflexivity; congruence.
  - intros imageId Hblob Hs Hv.
    apply fresh_ps_id in Hs. apply fresh_iv_id in Hv.
    unfold handleUpload, uploadToCloudflareImages, insertVersion, insertSession.
    unfold_monad. rewrite Hct, Hfile, Hdi, Hbp. cbn.
    rewrite Hs. cbn. rewrite Hblob. cbn. rewrite Hv. cbn.
    do 3 eexists. split; [reflexivity |]. cbn. repeat split.
Qed.

Lemma upload_without_intent_witness :
  exists st' session version,
    handleUpload (Scenario.scenarioEnv 0) (Scenario.upload None) initial
    = (Ok (jsonResponse
             (BUploaded "img-0" "uuid-1" "uuid-0" "https://imagedelivery.net/acct/img-0/public"
                "Initial upload"
                "Would you like to request an initial render or annotate the floor plan?")
             200), st')
    /\ prompt_sessions (db st') = [session]
    /\ ps_base_prompt session = EmptyString
    /\ ps_base_prompt_hash session
       = "e3b0c44298fc1c149afbf4c8996fb92427ae41e4649b934ca495991b7852b855"
    /\ image_versions (db st') = [version]
    /\ iv_parent_id version = None
    /\ iv_chat_id version = Some "uuid-0".
Proof.
  destruct (upload_without_intent (Scenario.scenarioEnv 0) (Scenario.upload None) initial
              {| file_bytes := "PNG"; file_type := "image/png" |}
              eq_refl eq_refl eq_refl eq_refl) as [_ Hdone].
  destruct (Hdone "img-0")
    as (st' & session & version & Hrun & Hs & Hsid & Hbp & Hh & Hvs & _ & Hp & Hc & _).
  - reflexivity.
  - intros [].
  - intros [].
  - exists st', session, version. rewrite Hsid in Hc. repeat split; assumption.
Defined.

(* ================================================================= *)
(** ** Unparseable stored history *)

Lemma parseHistory_corrupt (env : Env) (h : string) (st : State) :
  h <> EmptyString ->
  corruptHistory env h ->
  parseHistory env (Some h) st
  = (Ok [], {| db := db st; console := console st ++ ["Failed to parse session history"];
               trace := trace st; uuid_calls := uuid_calls st |}).
Proof.
  intros Hne Hc. apply truthy_true in Hne.
  unfold parseHistory, truthyOpt, orElse. unfold_monad. rewrite Hne. cbn.
  destruct Hc as [-> | (parsed & e & -> & ->)]; reflexivity.
Qed.

Ltac break_goal :=
  match goal with
  | |- context [match ?x with _ => _ end] => break_inner x
  end.

(** Claim C8, as amended: [parseHistory] never throws and leaves the
    database alone; on a stored history that is not the empty string and on
    which [JSON.parse] or the mapping to turns throws, it returns the empty
    history and logs "Failed to parse session history"; the empty string is
    taken as an empty history without a log entry; and an edit on a session
    with such a history is not failed by it: once the session is resolved
    and the input images are fetched, the oracle is called with just the
    new user turn. *)
Theorem parseHistory_recovers (env : Env) :
  (forall h st, exists conversation st',
       parseHistory env h st = (Ok conversation, st')
       /\ db st' = db st /\ trace st' = trace st)
  /\ (forall st, parseHistory env (Some EmptyString) st = (Ok [], st))
  /\ (forall h st,
         h <> EmptyString -> corruptHistory env h ->
         parseHistory env (Some h) st
         = (Ok [], {| db := db st;
                      console := console st ++ ["Failed to parse session history"];
                      trace := trace st; uuid_calls := uuid_calls st |}))
  /\ (forall body st pv session st1 imagePayloads maskPayloads,
         validBody body ->
         resolveSession env body st = (Ok (pv, Some session), st1) ->
         ps_history session <> EmptyString ->
         corruptHistory env (ps_history session) ->
         mapResult (imagePayload env) (image_ids body) = Ok imagePayloads ->
         maskParts env (masks body) = Ok maskPayloads ->
         exists answered rest,
           trace (snd (handleEdit env (Some body) st))
           = trace st1
             ++ EvOracle [userTurn body (imagePayloads ++ maskPayloads)] answered :: rest
           /\ In "Failed to parse session history"
                 (console (snd (handleEdit env (Some body) st)))).
Proof.
  split; [| split; [| split]].
  - intros h st. destruct (parseHistory_ok env h st) as (conv & lines & ->).
    do 2 eexists. split; [reflexivity | split; reflexivity].
  - reflexivity.
  - intros h st. apply parseHistory_corrupt.
  - intros body st pv session st1 imgs ms [Hids Hprompt] Hres Hne Hc Himgs Hms.
    unfold handleEdit, generateImageFromGemini, uploadToCloudflareImages,
      insertVersion, saveHistory.
    unfold_monad.
    destruct (image_ids body) as [|i ids] eqn:Hi; [congruence |]. rewrite <- Hi in *.
    apply truthy_true in Hprompt. rewrite Hprompt, Hi. cbn -[mapResult].
    rewrite Hres. cbn -[mapResult].
    rewrite (parseHistory_corrupt env _ st1 Hne Hc). rewrite <- Hi, Himgs, Hms.
    cbn.
    repeat (break_goal; cbn).
    all: do 2 eexists; split;
      [ rewrite <- ?app_assoc; cbn; reflexivity
      | repeat (apply in_or_app; first [right; now left | left]) ].
Qed.

Lemma parseHistory_recovers_witness :
  parseHistory (Scenario.scenarioEnv 1) (Some "{not json") Edge.corrupted
  = (Ok [], {| db := db Edge.corrupted;
               console := ["Failed to parse session history"];
               trace := trace Edge.corrupted;
               uuid_calls := uuid_calls Edge.corrupted |})
  /\ exists resp,
       fst (handleEdit (Scenario.scenarioEnv 1) (Some Edge.patioEdit) Edge.corrupted) = Ok resp
       /\ status resp = 200.
Proof.
  split.
  - apply (proj1 (proj2 (proj2 (parseHistory_recovers (Scenario.scenarioEnv 1))))
             "{not json" Edge.corrupted).
    + discriminate.
    + left. vm_compute. reflexivity.
  - eexists. split; vm_compute; reflexivity.
Defined.

(** Claim C8 as stated fails: the empty string does not parse as JSON, and
    [parseHistory] substitutes the empty history for it without logging
    anything. *)
Lemma empty_history_not_logged :
  Json.parse EmptyString = None
  /\ parseHistory (Scenario.scenarioEnv 1) (Some EmptyString) Scenario.afterUpload
     = (Ok [], Scenario.afterUpload)
  /\ console Scenario.afterUpload = [].
Proof. repeat split. Qed.

(* ================================================================= *)
(** ** The blob write comes before the version row *)

Lemma blobFirst_mono (t : list Event) :
  forall s1 s2, (forall x, In x s1 -> In x s2) ->
                blobFirst s1 t = true -> blobFirst s2 t = true.
Proof.
  induction t as [|e t IH]; intros s1 s2 Hsub H; [reflexivity |].
  destruct e as [id | ms b | [img|] | id img | sid]; cbn [blobFirst] in *; eauto.
  - eapply IH; [| exact H]. intros x [-> | Hx]; [now left | right; auto].
  - apply andb_true_iff in H as [Hin Hrest]. apply andb_true_iff. split; [| eauto].
    apply existsb_exists in Hin as (x & Hx & Heq). apply existsb_exists.
    exists x. auto.
Qed.

Lemma blobFirst_app (t1 t2 : list Event) :
  forall s, blobFirst s t1 = true -> blobFirst [] t2 = true ->
            blobFirst s (t1 ++ t2) = true.
Proof.
  induction t1 as [|e t1 IH]; intros s H1 H2; cbn [app].
  - eapply blobFirst_mono; [| exact H2]. intros x [].
  - destruct e as [id | ms b | [img|] | id img | sid]; cbn [blobFirst] in *; eauto.
    apply andb_true_iff in H1 as [Hin Hrest]. rewrite Hin. cbn. eauto.
Qed.

Lemma blobFirst_spec (t : list Event) :
  forall s, blobFirst s t = true ->
  forall pre id img post,
    t = pre ++ EvInsertVersion id img :: post ->
    In img s \/ In (EvBlobWrite (Some img)) pre.
Proof.
  induction t as [|e t IH]; intros s H pre id img post Heq.
  - destruct pre; discriminate.
  - destruct pre as [|e' pre]; cbn [app] in Heq; injection Heq as -> ->.
    + cbn [blobFirst] in H. apply andb_true_iff in H as [Hin _].
      apply existsb_exists in Hin as (x & Hx & Heq). apply String.eqb_eq in Heq.
      subst. now left.
    + destruct e' as [id' | ms b | [img'|] | id' img' | sid]; cbn [blobFirst] in H;
        try (destruct (IH _ H _ _ _ _ eq_refl) as [Hs | Hp]; [now left | right; now right]).
      * destruct (IH _ H _ _ _ _ eq_refl) as [[-> | Hs] | Hp];
          [right; now left | now left | right; now right].
      * apply andb_true_iff in H as [_ H].
        destruct (IH _ H _ _ _ _ eq_refl) as [Hs | Hp]; [now left | right; now right].
Qed.

Lemma resolved_trace (st st2 : State) :
  Resolved st st2 ->
  image_versions (db st2) = image_versions (db st)
  /\ exists pre, trace st2 = trace st ++ pre
                 /\ (pre = [] \/ exists id, pre = [EvInsertSession id]).
Proof.
  intros (Hv & [[_ Ht] | (row & _ & Ht & _)]); split; auto.
  - exists []. rewrite app_nil_r. auto.
  - exists [EvInsertSession (ps_id row)]. eauto.
Qed.

Lemma orderly_quiet (st st2 st' : State) (tail : list Event) :
  Resolved st st2 ->
  db st' = db st2 ->
  trace st' = trace st2 ++ tail ->
  blobFirst [] tail = true ->
  (forall id img, ~ In (EvInsertVersion id img) tail) ->
  orderly st st'.
Proof.
  intros HR Hdb Ht Hb Hno. apply resolved_trace in HR as (Hv & pre & Hpre & Hshape).
  exists (pre ++ tail). rewrite Ht, Hpre, <- app_assoc, Hdb, Hv.
  split; [reflexivity |]. split; [| split].
  - apply blobFirst_app; [| exact Hb]. destruct Hshape as [-> | [id ->]]; reflexivity.
  - intros _. split; [reflexivity |]. intros id img Hin.
    apply in_app_or in Hin as [Hin | Hin]; [| now apply (Hno id img)].
    destruct Hshape as [-> | [id' ->]]; cbn in Hin; intuition discriminate.
  - intros row Hrow. now left.
Qed.

Ltac no_insert := intros ? ? Hin; cbn in Hin; intuition discriminate.

Lemma editRun_orderly (env : Env) (body : EditRequestBody) (st st' : State)
    (r : Result Response) :
  EditRun env body st r st' -> orderly st st'.
Proof.
  intros H. inversion H; subst; clear H.
  - exists []. rewrite app_nil_r. repeat split; auto; intros [].
  - exists []. rewrite app_nil_r. repeat split; auto; intros [].
  - eapply (orderly_quiet _ _ _ []);
      [eapply resolve_frame; eassumption | reflexivity | apply trace_tail_nil
      | reflexivity | no_insert].
  - eapply (orderly_quiet _ _ _ []);
      [eapply resolve_frame; eassumption | reflexivity | apply trace_tail_nil
      | reflexivity | no_insert].
  - eapply (orderly_quiet _ _ _ []);
      [ eapply resolved_parse; [eapply resolve_frame; eassumption | eassumption]
      | reflexivity | apply trace_tail_nil | reflexivity | no_insert].
  - eapply orderly_quiet;
      [eapply prepared_frame; eassumption | eassumption | eassumption | reflexivity | no_insert].
  - eapply orderly_quiet;
      [eapply prepared_frame; eassumption | eassumption | eassumption | reflexivity | no_insert].
  - eapply orderly_quiet;
      [eapply prepared_frame; eassumption | eassumption | eassumption | reflexivity | no_insert].
  - eapply orderly_quiet;
      [eapply prepared_frame; eassumption | eassumption | eassumption | reflexivity | no_insert].
  - match goal with
    | Hp : Prepared _ _ _ _ _ _ _ _ |- _ => apply prepared_frame in Hp as (HR & _)
    end.
    apply resolved_trace in HR as (Hv & pre & Hpre & Hshape).
    match goal with
    | Ht : trace st' = _, Hrows : image_versions (db st') = _ |- _ =>
        rewrite Hpre, <- app_assoc in Ht; rewrite Hv in Hrows;
        eexists; split; [exact Ht |]; split; [| split]
    end.
    + apply blobFirst_app; [destruct Hshape as [-> | [id ->]]; reflexivity |].
      cbn. now rewrite String.eqb_refl.
    + intros Hin. exfalso. apply in_app_or in Hin as [Hin | Hin];
        [destruct Hshape as [-> | [id ->]] |]; cbn in Hin; intuition discriminate.
    + intros row' Hrow'.
      match goal with Hrows : image_versions (db st') = _ |- _ => rewrite Hrows in Hrow' end.
      apply in_app_or in Hrow' as [Hold | [<- | []]]; [now left | right].
      exists imageId. split.
      * unfold artifactOf.
        match goal with Hm : iv_metadata row = Some _ |- _ => now rewrite Hm end.
      * apply in_or_app. right. cbn. auto.
Qed.

Lemma uploadRun_orderly (env : Env) (request : UploadRequest) (st st' : State)
    (r : Result Response) :
  UploadRun env request st r st' -> orderly st st'.
Proof.
  intros H. inversion H; subst; clear H.
  - exists []. rewrite app_nil_r. repeat split; auto; intros [].
  - exists []. rewrite app_nil_r. repeat split; auto; intros [].
  - match goal with Hs : sameStores _ _ |- _ => destruct Hs as (Hdb & _ & Ht) end.
    exists []. rewrite app_nil_r, Hdb. repeat split; auto; intros [].
  - eexists. split; [eassumption |]. split; [reflexivity |]. split.
    + intros _. split; [assumption | no_insert].
    + intros row Hrow. left. congruence.
  - eexists. split; [eassumption |]. split; [reflexivity |]. split.
    + intros Hin. cbn in Hin. intuition discriminate.
    + intros row Hrow. left. congruence.
  - eexists. split; [eassumption |]. split; [| split].
    + cbn. now rewrite String.eqb_refl.
    + intros Hin. cbn in Hin. intuition discriminate.
    + intros row' Hrow'.
      match goal with Hrows : image_versions (db st') = _ |- _ => rewrite Hrows in Hrow' end.
      apply in_app_or in Hrow' as [Hold | [<- | []]]; [now left | right].
      exists imageId. split.
      * unfold artifactOf.
        match goal with Hm : iv_metadata row = Some _ |- _ => now rewrite Hm end.
      * cbn. auto.
Qed.

Lemma handleUpload_orderly (env : Env) (request : UploadRequest) (st : State) :
  orderly st (snd (handleUpload env request st)).
Proof.
  destruct (handleUpload env request st) as [r st'] eqn:H.
  apply handleUpload_run in H. now apply uploadRun_orderly in H.
Qed.

Lemma handleEdit_orderly (env : Env) (request : option EditRequestBody) (st : State) :
  orderly st (snd (handleEdit env request st)).
Proof.
  destruct request as [body|].
  - destruct (handleEdit env (Some body) st) as [r st'] eqn:H.
    apply handleEdit_run in H. now apply editRun_orderly in H.
  - exists []. cbn. rewrite app_nil_r. repeat split; auto; intros [].
Qed.

Lemma step_orderly (st st' : State) : step st st' -> orderly st st'.
Proof.
  intros [env request st0 | env request st0];
    [apply handleUpload_orderly | apply handleEdit_orderly].
Qed.

Lemma reachable_blobFirst (st : State) :
  reachable st ->
  blobFirst [] (trace st) = true
  /\ forall row, In row (image_versions (db st)) ->
                 exists img, artifactOf row = Some img
                             /\ In (EvInsertVersion (iv_id row) img) (trace st).
Proof.
  induction 1 as [|st st' _ [IHb IHr] Hstep]; [split; [reflexivity | intros row []] |].
  apply step_orderly in Hstep as (new & Ht & Hb & _ & Hrows). rewrite Ht. split.
  - now apply blobFirst_app.
  - intros row Hrow. destruct (Hrows row Hrow) as [Hold | (img & Ha & Hin)].
    + destruct (IHr row Hold) as (img & Ha & Hin). exists img. split; [exact Ha |].
      apply in_or_app. now left.
    + exists img. split; [exact Ha |]. apply in_or_app. now right.
Qed.

Lemma handleEdit_storeFirst (env : Env) (request : option EditRequestBody) (st : State) :
  storeFirst env st (handleEdit env request st).
Proof.
  destruct (handleEdit env request st) as [r st'] eqn:H. unfold storeFirst. cbn [fst snd].
  destruct request as [body|];
    [| injection H as <- <-; left; split; [reflexivity | intros resp [= <-]; discriminate]].
  unfold handleEdit, generateImageFromGemini, uploadToCloudflareImages,
    insertVersion, saveHistory in H.
  unfold_monad. cbn in H.
  repeat (step_in H; try discriminate).
  all: repeat match goal with p : (_ * _)%type |- _ => destruct p end;
       cbn [fst snd] in *; subst; injection H as <- <-.
  all: repeat match goal with
         | Hp : parseHistory _ _ _ = _ |- _ =>
             apply parseHistory_quiet in Hp; destruct Hp as (_ & Hp & _)
         end.
  all: try match goal with
           | Hr : resolveSession _ _ _ = _ |- _ =>
               apply resolve_frame in Hr; destruct Hr as [Hr _]
           end.
  all: cbn.
  all: first
    [ left; split; [congruence | intros resp Hresp; first [discriminate Hresp
                                                          | injection Hresp as <-; discriminate] ]
    | right; do 5 eexists; split; [f_equal; congruence |];
      split; [eassumption |]; split; reflexivity ].
Qed.

Lemma handleUpload_storeFirst (env : Env) (request : UploadRequest) (st : State) :
  storeFirst env st (handleUpload env request st).
Proof.
  destruct (handleUpload env request st) as [r st'] eqn:H. unfold storeFirst. cbn [fst snd].
  unfold handleUpload, uploadToCloudflareImages, insertVersion, insertSession in H.
  unfold_monad. cbn in H.
  repeat (step_in H; try discriminate).
  all: injection H as <- <-.
  all: cbn.
  all: first
    [ left; split; [reflexivity | intros resp Hresp; first [discriminate Hresp
                                                           | injection Hresp as <-; discriminate] ]
    | right; do 5 eexists; split; [reflexivity |];
      split; [eassumption |]; split; reflexivity ].
Qed.

Lemma storeFirst_rows (env : Env) (st : State) (out : Result Response * State) :
  storeFirst env st out ->
  forall row, In row (image_versions (db (snd out))) ->
              In row (image_versions (db st)) \/ storedBy env row.
Proof.
  intros [[Hsame _] | (new & bytes & mime & md & imageId & Hrows & Hstore & Ha & Hu)] row Hin.
  - left. now rewrite <- Hsame.
  - rewrite Hrows in Hin. apply in_app_or in Hin as [Hin | [<- | []]]; [now left | right].
    now exists bytes, mime, md, imageId.
Qed.

Lemma storeFirst_down (env : Env) (st : State) (out : Result Response * State) :
  (forall bytes mime md, images_api env bytes mime md = None) ->
  storeFirst env st out ->
  image_versions (db (snd out)) = image_versions (db st)
  /\ forall resp, fst out = Ok resp -> status resp <> 200.
Proof.
  intros Hdown [Hsame | (new & bytes & mime & md & imageId & _ & Hstore & _)]; [exact Hsame |].
  rewrite Hdown in Hstore. discriminate Hstore.
Qed.

Lemma reachableWith_stored (ok : Env -> Prop) (st : State) :
  reachableWith ok st ->
  forall row, In row (image_versions (db st)) -> exists env, ok env /\ storedBy env row.
Proof.
  induction 1 as [| env request st Hok _ IH | env request st Hok _ IH]; intros row Hin.
  - destruct Hin.
  - destruct (storeFirst_rows _ _ _ (handleUpload_storeFirst env request st) row Hin)
      as [Hold | Hnew]; [now apply IH | now exists env].
  - destruct (storeFirst_rows _ _ _ (handleEdit_storeFirst env request st) row Hin)
      as [Hold | Hnew]; [now apply IH | now exists env].
Qed.

Lemma reachableWith_reachable (ok : Env -> Prop) (st : State) :
  reachableWith ok st -> reachable st.
Proof.
  induction 1 as [| env request st _ _ IH | env request st _ _ IH].
  - apply reach_initial.
  - eapply reach_step; [exact IH | apply step_upload].
  - eapply reach_step; [exact IH | apply step_edit].
Qed.

(** Claim C7: in the upload and in the edit workflow a version row is
    inserted only after the blob store has accepted the artifact.  A
    request either leaves the version table as it was, and is then not
    answered 200, or adds one row whose artifact id is the id the blob
    store returned for this request; so with a blob store that refuses
    every write no request inserts a row, and in a run whose blob stores
    all satisfy some condition every version row references an id that
    one of those stores returned.  In the event trace of every reachable
    state each [INSERT INTO image_versions] is preceded by the successful
    write of the image it references. *)
Theorem blob_write_precedes_version :
  (forall env request st,
      storeFirst env st (handleUpload env request st)
      /\ orderly st (snd (handleUpload env request st)))
  /\ (forall env request st,
         storeFirst env st (handleEdit env request st)
         /\ orderly st (snd (handleEdit env request st)))
  /\ (forall env,
         (forall bytes mime md, images_api env bytes mime md = None) ->
         forall st,
           (forall request,
               image_versions (db (snd (handleUpload env request st))) = image_versions (db st)
               /\ forall resp, fst (handleUpload env request st) = Ok resp -> status resp <> 200)
           /\ (forall request,
                  image_versions (db (snd (handleEdit env request st))) = image_versions (db st)
                  /\ forall resp, fst (handleEdit env request st) = Ok resp ->
                                  status resp <> 200))
  /\ (forall ok st,
         reachableWith ok st ->
         reachable st
         /\ forall row, In row (image_versions (db st)) ->
                        exists env, ok env /\ storedBy env row)
  /\ (forall st,
         reachable st ->
         (forall pre id img post,
             trace st = pre ++ EvInsertVersion id img :: post ->
             In (EvBlobWrite (Some img)) pre)
         /\ (forall row,
                In row (image_versions (db st)) ->
                exists img,
                  artifactOf row = Some img
                  /\ In (EvInsertVersion (iv_id row) img) (trace st)
                  /\ In (EvBlobWrite (Some img)) (trace st))).
Proof.
  split; [| split; [| split; [| split]]].
  - intros env request st. split; [apply handleUpload_storeFirst | apply handleUpload_orderly].
  - intros env request st. split; [apply handleEdit_storeFirst | apply handleEdit_orderly].
  - intros env Hdown st. split; intros request.
    + apply (storeFirst_down env st _ Hdown), handleUpload_storeFirst.
    + apply (storeFirst_down env st _ Hdown), handleEdit_storeFirst.
  - intros ok st Hreach.
    split; [eapply reachableWith_reachable; exact Hreach | now apply reachableWith_stored].
  - intros st Hreach. apply reachable_blobFirst in Hreach as [Hb Hrows].
    assert (Hord : forall pre id img post,
               trace st = pre ++ EvInsertVersion id img :: post ->
               In (EvBlobWrite (Some img)) pre).
    { intros pre id img post Heq.
      destruct (blobFirst_spec _ _ Hb _ _ _ _ Heq) as [[] | Hin]. exact Hin. }
    split; [exact Hord |].
    intros row Hrow. destruct (Hrows row Hrow) as (img & Ha & Hin).
    exists img. repeat split; auto.
    apply in_split in Hin as (pre & post & Heq). rewrite Heq.
    apply in_or_app. left. eapply Hord. exact Heq.
Qed.

Lemma scenario_reachable : reachable Scenario.afterPatio.
Proof.
  apply (reach_step Scenario.afterUpload).
  - apply (reach_step initial); [apply reach_initial |].
    apply (step_upload (Scenario.scenarioEnv 0) (Scenario.upload (Some "modern kitchen"))).
  - apply (step_edit (Scenario.scenarioEnv 1)
             (Some (Scenario.edit "render the patio view" (Some "uuid-1") None None))).
Qed.

Lemma blob_write_precedes_version_witness :
  (image_versions (db (snd (handleEdit Failures.blobStoreDown (Some Edge.patioEdit)
                              Scenario.afterUpload)))
   = image_versions (db Scenario.afterUpload)
   /\ forall resp,
        fst (handleEdit Failures.blobStoreDown (Some Edge.patioEdit) Scenario.afterUpload)
        = Ok resp ->
        status resp <> 200)
  /\ exists row bytes mime md,
       image_versions (db Scenario.afterPatio)
       = image_versions (db Scenario.afterUpload) ++ [row]
       /\ images_api (Scenario.scenarioEnv 1) bytes mime md = artifactOf row.
Proof.
  split.
  - apply (proj2 (proj1 (proj2 (proj2 blob_write_precedes_version)) Failures.blobStoreDown
                    (fun _ _ _ => eq_refl) Scenario.afterUpload)).
  - destruct (proj1 (proj1 (proj2 blob_write_precedes_version) (Scenario.scenarioEnv 1)
                       (Some Edge.patioEdit) Scenario.afterUpload))
      as [[_ Hno] | (row & bytes & mime & md & imageId & Hrows & Hstore & Ha & _)].
    + exfalso. eapply Hno; [vm_compute; reflexivity | reflexivity].
    + exists row, bytes, mime, md. split; [exact Hrows | congruence].
Defined.

(* ================================================================= *)
(** ** Latest render by angle *)

Lemma angleMatches_angleOf (label : string) (v : VersionRow) :
  angleMatches label v = true <-> angleOf v = Some label.
Proof.
  unfold angleMatches, angleOf. destruct (iv_metadata v) as [md|]; [| split; discriminate].
  destruct (md_angle_id md) as [a|]; [| split; discriminate].
  rewrite String.eqb_eq. split; congruence.
Qed.

Lemma renderAngleRows_In (d : DB) (label : string) (v : VersionRow) :
  In v (renderAngleRows d label) <-> In v (image_versions d) /\ angleOf v = Some label.
Proof. unfold renderAngleRows. now rewrite filter_In, angleMatches_angleOf. Qed.

Lemma latestRows_In (rows : list VersionRow) (v : VersionRow) :
  In v (latestRows rows) <->
  In v rows /\ forall u, In u rows -> iv_created_at u <= iv_created_at v.
Proof.
  unfold latestRows. rewrite filter_In, forallb_forall.
  split; intros [Hin H]; split; auto; intros u Hu.
  - now apply Nat.leb_le, H.
  - now apply Nat.leb_le, H.
Qed.

Lemma latest_exists (rows : list VersionRow) :
  rows <> [] -> exists v, In v (latestRows rows).
Proof.
  intros Hne.
  assert (H : exists v, In v rows /\ forall u, In u rows -> iv_created_at u <= iv_created_at v).
  { induction rows as [|x rows IH]; [congruence |].
    destruct rows as [|y rows].
    - exists x. split; [now left |]. intros u [<- | []]. lia.
    - destruct IH as (m & Hm & Hmax); [discriminate |].
      destruct (Nat.le_gt_cases (iv_created_at m) (iv_created_at x)) as [Hle | Hgt].
      + exists x. split; [now left |]. intros u [<- | Hu]; [lia |].
        specialize (Hmax u Hu). lia.
      + exists m. split; [now right |]. intros u [<- | Hu]; [lia | auto]. }
  destruct H as (v & Hv). exists v. now apply latestRows_In.
Qed.

Lemma firstLatest_snoc (rows : list VersionRow) (x : VersionRow) :
  firstLatest (rows ++ [x])
  = match firstLatest rows with
    | None => Some x
    | Some k => if iv_created_at k <? iv_created_at x then Some x else Some k
    end.
Proof. unfold firstLatest. now rewrite fold_left_app. Qed.

Lemma firstLatest_spec (rows : list VersionRow) :
  (rows = [] /\ firstLatest rows = None)
  \/ exists before result after,
       rows = before ++ result :: after
       /\ firstLatest rows = Some result
       /\ (forall u, In u rows -> iv_created_at u <= iv_created_at result)
       /\ (forall u, In u before -> iv_created_at u < iv_created_at result).
Proof.
  induction rows as [|x rows IH] using rev_ind; [left; split; reflexivity |].
  right. rewrite firstLatest_snoc.
  destruct IH as [[-> ->] | (before & k & after & -> & -> & Hmax & Hstrict)].
  - exists [], x, []. repeat split.
    + intros u [<- | []]. lia.
    + intros u [].
  - destruct (iv_created_at k <? iv_created_at x) eqn:Hlt.
    + apply Nat.ltb_lt in Hlt.
      exists (before ++ k :: after), x, []. repeat split.
      * intros u Hu. apply in_app_or in Hu as [Hu | [<- | []]]; [| lia].
        specialize (Hmax u Hu). lia.
      * intros u Hu. specialize (Hmax u Hu). lia.
    + apply Nat.ltb_ge in Hlt.
      exists before, k, (after ++ [x]). repeat split.
      * now rewrite <- app_assoc.
      * intros u Hu. apply in_app_or in Hu as [Hu | [<- | []]]; [auto | lia].
      * exact Hstrict.
Qed.

Lemma filter_split {A : Type} (f : A -> bool) (l : list A) :
  forall a x b,
    filter f l = a ++ x :: b ->
    exists a' b', l = a' ++ x :: b' /\ filter f a' = a /\ filter f b' = b.
Proof.
  induction l as [|y l IH]; intros a x b H; [now destruct a |].
  cbn [filter] in H. destruct (f y) eqn:Hy.
  - destruct a as [|z a]; cbn [app] in H; injection H as <- H.
    + exists [], l. repeat split. exact H.
    + destruct (IH _ _ _ H) as (a' & b' & -> & <- & <-).
      exists (y :: a'), b'. cbn [filter]. rewrite Hy. repeat split.
  - destruct (IH _ _ _ H) as (a' & b' & -> & <- & <-).
    exists (y :: a'), b'. cbn [filter]. rewrite Hy. repeat split.
Qed.

Lemma renderAngle_admitted (d : DB) (angleId : option string) :
  handleRenderAngle d angleId (renderAngle d angleId).
Proof.
  unfold renderAngle. destruct (truthyOpt angleId) eqn:Ht; cbn [negb].
  - destruct angleId as [a|]; [| discriminate Ht]. unfold truthyOpt in Ht. unfold orElse.
    destruct (firstLatest_spec (renderAngleRows d a))
      as [[Hnil ->] | (before & result & after & Hrows & -> & Hmax & _)].
    + now apply RenderAngle_none.
    + apply RenderAngle_first; [exact Ht |]. apply latestRows_In. split; [| exact Hmax].
      rewrite Hrows. apply in_or_app. right. now left.
  - now apply RenderAngle_required.
Qed.

(** Claim C4, as amended: for a label that is not empty, the latest-by-angle
    query answers 404 exactly when no version carries the label, whatever
    untagged versions exist, and otherwise returns the one version that
    carries the label, has the greatest creation timestamp among those that
    do, and was inserted before every other such version with that
    timestamp: ties are broken by the order of insertion.  An empty or
    missing label is answered with 400. *)
Theorem render_angle_latest (d : DB) (label : string) :
  label <> EmptyString ->
  handleRenderAngle d (Some label) (renderAngle d (Some label))
  /\ (status (renderAngle d (Some label)) = 404 <->
      forall v, In v (image_versions d) -> angleOf v <> Some label)
  /\ (forall v,
         In v (image_versions d) -> angleOf v = Some label ->
         exists before result after,
           image_versions d = before ++ result :: after
           /\ renderAngle d (Some label)
              = jsonResponse (BRender (iv_id result) (iv_image_url result)
                                      (iv_diff_summary result) (iv_metadata result)) 200
           /\ angleOf result = Some label
           /\ (forall u, In u (image_versions d) -> angleOf u = Some label ->
                         iv_created_at u <= iv_created_at result)
           /\ (forall u, In u before -> angleOf u = Some label ->
                         iv_created_at u < iv_created_at result))
  /\ status (renderAngle d None) = 400
  /\ status (renderAngle d (Some EmptyString)) = 400.
Proof.
  intros Hlabel. apply truthy_true in Hlabel.
  split; [apply renderAngle_admitted |].
  split; [| split; [| split; reflexivity]].
  - unfold renderAngle, truthyOpt, orElse. rewrite Hlabel. cbn [negb].
    destruct (firstLatest_spec (renderAngleRows d label))
      as [[Hnil ->] | (before & result & after & Hrows & -> & _)].
    + split; [| reflexivity]. intros _ v Hv Ha.
      assert (Hin : In v (renderAngleRows d label)) by now apply renderAngleRows_In.
      rewrite Hnil in Hin. destruct Hin.
    + split; [discriminate |]. intros Hnone. exfalso.
      assert (Hin : In result (renderAngleRows d label)).
      { rewrite Hrows. apply in_or_app. right. now left. }
      apply renderAngleRows_In in Hin as [Hin Ha]. now apply (Hnone result).
  - intros v Hv Ha.
    assert (Hvin : In v (renderAngleRows d label)) by now apply renderAngleRows_In.
    unfold renderAngle, truthyOpt, orElse. rewrite Hlabel. cbn [negb].
    destruct (firstLatest_spec (renderAngleRows d label))
      as [[Hnil _] | (before & result & after & Hrows & -> & Hmax & Hstrict)].
    + rewrite Hnil in Hvin. destruct Hvin.
    + unfold renderAngleRows in Hrows.
      destruct (filter_split _ _ _ _ _ Hrows) as (before' & after' & Hd & Hb & _).
      exists before', result, after'.
      assert (Hres : In result (renderAngleRows d label)).
      { unfold renderAngleRows. rewrite Hrows. apply in_or_app. right. now left. }
      split; [exact Hd | split; [reflexivity | split]].
      * now apply renderAngleRows_In in Hres.
      * split.
        -- intros u Hu Hua. apply Hmax. fold (renderAngleRows d label).
           now apply renderAngleRows_In.
        -- intros u Hu Hua. apply Hstrict. rewrite <- Hb. apply filter_In.
           split; [exact Hu | now apply angleMatches_angleOf].
Qed.

Lemma render_angle_latest_witness :
  map (fun v => (iv_id v, iv_created_at v))
      (renderAngleRows (db Scenario.afterSecondPatio) "patio")
  = [("uuid-2", 7); ("uuid-3", 7)]
  /\ exists before result after,
       image_versions (db Scenario.afterSecondPatio) = before ++ result :: after
       /\ iv_id result = "uuid-2"
       /\ renderAngle (db Scenario.afterSecondPatio) (Some "patio")
          = jsonResponse (BRender (iv_id result) (iv_image_url result)
                                  (iv_diff_summary result) (iv_metadata result)) 200
       /\ forall u, In u before -> angleOf u = Some "patio" ->
                    iv_created_at u < iv_created_at result.
Proof.
  split; [vm_compute; reflexivity |].
  eassert (Hin : In _ (image_versions (db Scenario.afterSecondPatio))).
  { vm_compute. right. left. reflexivity. }
  destruct (render_angle_latest (db Scenario.afterSecondPatio) "patio")
    as (_ & _ & Hlatest & _); [discriminate |].
  destruct (Hlatest _ Hin eq_refl) as (before & result & after & Hd & Hr & _ & _ & Hs).
  exists before, result, after.
  split; [exact Hd | split; [| split; [exact Hr | exact Hs]]].
  pose proof (f_equal (fun r => match body r with
                               | BRender versionId _ _ _ => versionId
                               | _ => EmptyString
                               end) Hr) as Hid.
  vm_compute in Hid. symmetry. exact Hid.
Defined.

(** Claim C4 as stated fails: no version carries the empty label, and the
    query for it is not answered with the 404 of a label nobody carries
    but rejected with 400. *)
Lemma render_angle_empty_label :
  (forall v, In v (image_versions (db Scenario.afterPatio)) -> angleOf v <> Some EmptyString)
  /\ renderAngle (db Scenario.afterPatio) (Some EmptyString)
     = jsonResponse (BError "angle_id is required") 400
  /\ forall resp,
       handleRenderAngle (db Scenario.afterPatio) (Some EmptyString) resp ->
       status resp = 400.
Proof.
  split; [| split].
  - intros v Hv. vm_compute in Hv. destruct Hv as [<- | [<- | []]]; discriminate.
  - reflexivity.
  - intros resp H. inversion H; subst; clear H; [reflexivity | discriminate | discriminate].
Qed.

(** Whatever row the engine picks among equals: for a label that is not
    empty, every response the latest-by-angle query may give is a 404
    exactly when no version carries the label, and otherwise names a
    version that carries the label and whose creation timestamp is the
    greatest among those that do; when one version alone has that
    timestamp, it is the answer.  An empty or missing label is answered
    with 400. *)
Theorem render_angle_admits_latest (d : DB) (label : string) :
  label <> EmptyString ->
  (exists resp, handleRenderAngle d (Some label) resp)
  /\ (forall resp,
         handleRenderAngle d (Some label) resp ->
         (status resp = 404 <->
          forall v, In v (image_versions d) -> angleOf v <> Some label)
         /\ (status resp = 404
             \/ exists v,
                  resp = jsonResponse
                           (BRender (iv_id v) (iv_image_url v) (iv_diff_summary v)
                                    (iv_metadata v)) 200
                  /\ In v (image_versions d)
                  /\ angleOf v = Some label
                  /\ forall u, In u (image_versions d) -> angleOf u = Some label ->
                               iv_created_at u <= iv_created_at v))
  /\ (forall v,
         In v (image_versions d) -> angleOf v = Some label ->
         (forall u, In u (image_versions d) -> angleOf u = Some label ->
                    u = v \/ iv_created_at u < iv_created_at v) ->
         forall resp,
           handleRenderAngle d (Some label) resp ->
           resp = jsonResponse
                    (BRender (iv_id v) (iv_image_url v) (iv_diff_summary v)
                             (iv_metadata v)) 200)
  /\ (forall resp,
         handleRenderAngle d None resp \/ handleRenderAngle d (Some EmptyString) resp ->
         status resp = 400).
Proof.
  intros Hlabel. apply truthy_true in Hlabel. split; [| split; [| split]].
  - destruct (renderAngleRows d label) as [|x rows] eqn:Hrows.
    + eexists. now apply RenderAngle_none.
    + destruct (latest_exists (x :: rows)) as (v & Hv); [discriminate |].
      rewrite <- Hrows in Hv. eexists. apply RenderAngle_first; eassumption.
  - intros resp H. inversion H; subst; clear H.
    + unfold truthyOpt in *. congruence.
    + split; [| now left]. split; [| reflexivity].
      intros _ v Hv Ha.
      assert (Hin : In v (renderAngleRows d label)) by now apply renderAngleRows_In.
      match goal with Hn : renderAngleRows d label = [] |- _ => rewrite Hn in Hin end.
      destruct Hin.
    + match goal with
      | Hl : In result _ |- _ =>
          apply latestRows_In in Hl as [Hin Hmax];
          apply renderAngleRows_In in Hin as [Hin Ha]
      end.
      split.
      * split; [cbn; discriminate |]. intros Hno. exfalso. now apply (Hno result).
      * right. exists result. repeat split; auto.
        intros u Hu Hua. apply Hmax. now apply renderAngleRows_In.
  - intros v Hv Ha Hstrict resp H. inversion H; subst; clear H.
    + unfold truthyOpt in *. congruence.
    + exfalso.
      assert (Hin : In v (renderAngleRows d label)) by now apply renderAngleRows_In.
      match goal with Hn : renderAngleRows d label = [] |- _ => rewrite Hn in Hin end.
      destruct Hin.
    + match goal with
      | Hl : In result _ |- _ =>
          apply latestRows_In in Hl as [Hin Hmax];
          apply renderAngleRows_In in Hin as [Hin Hra]
      end.
      assert (Hvin : In v (renderAngleRows d label)) by now apply renderAngleRows_In.
      specialize (Hmax v Hvin).
      destruct (Hstrict result Hin Hra) as [-> | Hlt]; [reflexivity | lia].
  - intros resp [H | H]; inversion H; subst; clear H; try reflexivity;
      discriminate.
Qed.

Lemma render_angle_admits_latest_witness :
  exists resp,
    handleRenderAngle (db Scenario.afterPatio) (Some "patio") resp
    /\ status resp = 200.
Proof.
  destruct (render_angle_admits_latest (db Scenario.afterPatio) "patio")
    as ((resp & Hr) & Hspec & _).
  - discriminate.
  - exists resp. split; [exact Hr |].
    destruct (proj2 (Hspec resp Hr)) as [H404 | (v & -> & _)]; [| reflexivity].
    exfalso. pose proof (proj1 (proj1 (Hspec resp Hr)) H404) as Hnone.
    eapply Hnone; [vm_compute; right; left; reflexivity | reflexivity].
Defined.

(* ================================================================= *)
(** ** Lineage: the version forest *)

Lemma forest_fresh (rows : list VersionRow) :
  forall seen v, forest seen rows -> In v rows -> ~ In (iv_id v) seen.
Proof.
  induction rows as [|x rows IH]; intros seen v Hf Hin; [destruct Hin |].
  destruct Hf as (Hx & _ & Hrest). destruct Hin as [<- | Hin]; [exact Hx |].
  intros Hs. apply (IH _ _ Hrest Hin). apply in_or_app. now left.
Qed.

Lemma forest_unique (rows : list VersionRow) :
  forall seen u v, forest seen rows -> In u rows -> In v rows ->
                   iv_id u = iv_id v -> u = v.
Proof.
  induction rows as [|x rows IH]; intros seen u v Hf Hu Hv Heq; [destruct Hu |].
  destruct Hf as (_ & _ & Hrest).
  destruct Hu as [<- | Hu], Hv as [<- | Hv]; [reflexivity | | | eauto].
  - exfalso. apply (forest_fresh _ _ _ Hrest Hv). rewrite <- Heq.
    apply in_or_app. right. now left.
  - exfalso. apply (forest_fresh _ _ _ Hrest Hu). rewrite Heq.
    apply in_or_app. right. now left.
Qed.

Lemma posOf_lt (rows : list VersionRow) (v : VersionRow) :
  In v rows -> posOf (iv_id v) rows < List.length rows.
Proof.
  induction rows as [|x rows IH]; intros Hin; [destruct Hin |]. cbn.
  destruct (String.eqb (iv_id x) (iv_id v)) eqn:He; [lia |].
  destruct Hin as [-> | Hin]; [rewrite String.eqb_refl in He; discriminate |].
  specialize (IH Hin). lia.
Qed.

Lemma forest_parent_pos (rows : list VersionRow) :
  forall seen v p,
    forest seen rows -> In v rows -> iv_parent_id v = Some p ->
    In p seen \/ posOf p rows < posOf (iv_id v) rows.
Proof.
  induction rows as [|x rows IH]; intros seen v p Hf Hin Hp; [destruct Hin |].
  destruct Hf as (Hx & Hpx & Hrest). destruct Hin as [<- | Hin].
  - rewrite Hp in Hpx. now left.
  - assert (Hne : String.eqb (iv_id x) (iv_id v) = false).
    { apply String.eqb_neq. intros Heq.
      apply (forest_fresh _ _ _ Hrest Hin). rewrite <- Heq.
      apply in_or_app. right. now left. }
    cbn. rewrite Hne.
    destruct (IH _ _ _ Hrest Hin Hp) as [Hs | Hlt].
    + apply in_app_or in Hs as [Hs | [<- | []]]; [now left | right].
      rewrite String.eqb_refl. lia.
    + right. destruct (String.eqb (iv_id x) p); lia.
Qed.

Lemma descends_In (rows : list VersionRow) (root : string) (v : VersionRow) (n : nat) :
  descends rows root v n -> In v rows.
Proof. now destruct 1. Qed.

Lemma descends_root (rows : list VersionRow) (root : string) (v : VersionRow) (n : nat) :
  descends rows root v n -> exists q, In q rows /\ iv_id q = root.
Proof. induction 1 as [v Hin Hid | p v n _ IH _ _]; [now exists v | exact IH]. Qed.

Lemma descends_bound (rows : list VersionRow) (root : string) (v : VersionRow) (n : nat) :
  forest [] rows -> descends rows root v n -> n <= posOf (iv_id v) rows.
Proof.
  intros Hf H. induction H as [v Hin Hid | p v n Hp IH Hin Hpar]; [lia |].
  destruct (forest_parent_pos _ _ _ _ Hf Hin Hpar) as [[] | Hlt]. lia.
Qed.

(* ================================================================= *)
(** ** Lineage: the recursive query *)

Lemma cteRounds_nil (rows : list VersionRow) (fuel : nat) : cteRounds fuel rows [] = [].
Proof. induction fuel as [|f IH]; [reflexivity | cbn; exact IH]. Qed.

Lemma cteRounds_split (rows : list VersionRow) (n m : nat) :
  forall working,
    cteRounds (n + m) rows working
    = cteRounds n rows working
      ++ cteRounds m rows (Nat.iter n (flat_map (cteStep rows)) working).
Proof.
  induction n as [|n IH]; intros working; [reflexivity |].
  cbn [Nat.add cteRounds]. rewrite IH, <- app_assoc. do 2 f_equal.
  now rewrite Nat.iter_succ_r.
Qed.

Lemma cteRounds_In (rows : list VersionRow) (fuel : nat) :
  forall working h,
    In h (cteRounds fuel rows working) <->
    exists k, k < fuel /\ In h (Nat.iter k (flat_map (cteStep rows)) working).
Proof.
  induction fuel as [|f IH]; intros working h.
  - split; [intros [] | intros (k & Hk & _); lia].
  - cbn [cteRounds]. rewrite in_app_iff, IH. split.
    + intros [Hw | (k & Hk & Hin)].
      * exists 0. split; [lia | exact Hw].
      * exists (S k). split; [lia |]. now rewrite Nat.iter_succ_r.
    + intros ([|k] & Hk & Hin); [now left | right].
      exists k. split; [lia |]. now rewrite <- Nat.iter_succ_r.
Qed.

Lemma cteSeed_In (rows : list VersionRow) (root : string) (h : HistoryRow) :
  In h (cteSeed rows root) <->
  exists v, In v rows /\ iv_id v = root /\ h = historyRowOf v 0.
Proof.
  unfold cteSeed. rewrite in_map_iff. split.
  - intros (v & <- & Hv). apply filter_In in Hv as [Hin He].
    apply String.eqb_eq in He. now exists v.
  - intros (v & Hin & Hid & ->). exists v. split; [reflexivity |].
    apply filter_In. split; [exact Hin | now apply String.eqb_eq].
Qed.

Lemma cteStep_In (rows : list VersionRow) (h h' : HistoryRow) :
  In h' (cteStep rows h) <->
  exists v, In v rows /\ iv_parent_id v = Some (h_id h)
            /\ h' = historyRowOf v (h_depth h + 1).
Proof.
  unfold cteStep. rewrite in_map_iff. split.
  - intros (v & <- & Hv). apply filter_In in Hv as [Hin He].
    exists v. split; [exact Hin |]. split; [| reflexivity].
    destruct (iv_parent_id v) as [p|]; [| discriminate].
    apply String.eqb_eq in He. now subst.
  - intros (v & Hin & Hp & ->). exists v. split; [reflexivity |].
    apply filter_In. split; [exact Hin |]. rewrite Hp. apply String.eqb_refl.
Qed.

(** Every row of the working table after [k] rounds is a version [k]
    generations below the root. *)
Lemma cteLevel_sound (rows : list VersionRow) (root : string) (k : nat) :
  forall h, In h (cteLevel rows root k) ->
            exists v, descends rows root v k /\ h = historyRowOf v k.
Proof.
  unfold cteLevel. induction k as [|k IH]; intros h Hin; cbn [Nat.iter] in Hin.
  - apply cteSeed_In in Hin as (v & Hv & Hid & ->).
    exists v. split; [now constructor | reflexivity].
  - apply in_flat_map in Hin as (hp & Hhp & Hin).
    destruct (IH _ Hhp) as (p & Hp & ->).
    apply cteStep_In in Hin as (v & Hv & Hpar & ->). cbn in *.
    exists v. split; [| now rewrite Nat.add_1_r].
    eapply descends_child; eassumption.
Qed.

Lemma cteLevel_complete (rows : list VersionRow) (root : string) (v : VersionRow) (n : nat) :
  descends rows root v n -> In (historyRowOf v n) (cteLevel rows root n).
Proof.
  unfold cteLevel. induction 1 as [v Hin Hid | p v n Hp IH Hin Hpar]; cbn [Nat.iter].
  - apply cteSeed_In. now exists v.
  - apply in_flat_map. exists (historyRowOf p n). split; [exact IH |].
    apply cteStep_In. exists v. cbn. split; [exact Hin |]. split; [exact Hpar |].
    now rewrite Nat.add_1_r.
Qed.

(** After as many rounds as there are rows the working table is empty:
    the recursion has ended. *)
Lemma cteLevel_empty (rows : list VersionRow) (root : string) (k : nat) :
  forest [] rows -> List.length rows <= k -> cteLevel rows root k = [].
Proof.
  intros Hf Hk. destruct (cteLevel rows root k) as [|h l] eqn:He; [reflexivity |].
  exfalso. destruct (cteLevel_sound rows root k h) as (v & Hv & _).
  { rewrite He. now left. }
  pose proof (descends_bound _ _ _ _ Hf Hv) as Hb.
  pose proof (posOf_lt _ _ (descends_In _ _ _ _ Hv)) as Hlt. lia.
Qed.

Lemma historyCte_In (rows : list VersionRow) (root : string) (h : HistoryRow) :
  forest [] rows ->
  (In h (historyCte rows root) <->
   exists v n, descends rows root v n /\ h = historyRowOf v n).
Proof.
  intros Hf. unfold historyCte. rewrite cteRounds_In. split.
  - intros (k & _ & Hin). destruct (cteLevel_sound rows root k h Hin) as (v & Hv & ->).
    now exists v, k.
  - intros (v & n & Hv & ->). exists n. split; [| now apply cteLevel_complete].
    pose proof (descends_bound _ _ _ _ Hf Hv) as Hb.
    pose proof (posOf_lt _ _ (descends_In _ _ _ _ Hv)) as Hlt. lia.
Qed.

Lemma historyJoin_In (rows : list VersionRow) (hist : list HistoryRow)
    (v : VersionRow) (n : nat) :
  In (v, n) (historyJoin rows hist) <->
  exists h, In h hist /\ In v rows /\ iv_id v = h_id h /\ n = h_depth h.
Proof.
  unfold historyJoin. rewrite in_flat_map. split.
  - intros (h & Hh & Hin). apply in_map_iff in Hin as (iv & [= <- <-] & Hiv).
    apply filter_In in Hiv as [Hiv He]. apply String.eqb_eq in He. now exists h.
  - intros (h & Hh & Hv & Hid & ->). exists h. split; [exact Hh |].
    apply in_map_iff. exists v. split; [reflexivity |].
    apply filter_In. split; [exact Hv | now apply String.eqb_eq].
Qed.

Lemma historyJoin_descends (rows : list VersionRow) (root : string)
    (v : VersionRow) (n : nat) :
  forest [] rows ->
  (In (v, n) (historyJoin rows (historyCte rows root)) <-> descends rows root v n).
Proof.
  intros Hf. rewrite historyJoin_In. split.
  - intros (h & Hh & Hv & Hid & ->).
    apply (historyCte_In _ _ _ Hf) in Hh as (v' & n & Hd & ->). cbn in *.
    now rewrite (forest_unique _ _ _ _ Hf Hv (descends_In _ _ _ _ Hd) Hid).
  - intros Hd. exists (historyRowOf v n). split.
    + apply (historyCte_In _ _ _ Hf). now exists v, n.
    + split; [now apply descends_In in Hd | split; reflexivity].
Qed.

Lemma StronglySorted_app {A : Type} (R : A -> A -> Prop) (l1 l2 : list A) :
  StronglySorted R l1 -> StronglySorted R l2 ->
  (forall a b, In a l1 -> In b l2 -> R a b) ->
  StronglySorted R (l1 ++ l2).
Proof.
  induction l1 as [|x l1 IH]; intros H1 H2 Hc; [exact H2 |].
  apply StronglySorted_inv in H1 as [H1 Hx]. cbn. constructor.
  - apply IH; auto. intros a b Ha Hb. apply Hc; [now right | exact Hb].
  - apply Forall_app. split; [exact Hx |].
    apply Forall_forall. intros b Hb. apply Hc; [now left | exact Hb].
Qed.

Lemma sorted_constant {A : Type} (f : A -> nat) (k : nat) (l : list A) :
  (forall a, In a l -> f a = k) ->
  StronglySorted (fun a b => f a <= f b) l.
Proof.
  induction l as [|x l IH]; intros H; constructor.
  - apply IH. intros a Ha. apply H. now right.
  - apply Forall_forall. intros b Hb.
    rewrite (H x (or_introl eq_refl)), (H b (or_intror Hb)). lia.
Qed.

Lemma cteStep_depth (rows : list VersionRow) (working : list HistoryRow) (k : nat) :
  (forall h, In h working -> h_depth h = k) ->
  forall h, In h (flat_map (cteStep rows) working) -> h_depth h = S k.
Proof.
  intros Hw h Hin. apply in_flat_map in Hin as (hp & Hhp & Hin).
  apply cteStep_In in Hin as (v & _ & _ & ->). cbn. rewrite (Hw _ Hhp). lia.
Qed.

Lemma cteRounds_sorted (rows : list VersionRow) (fuel : nat) :
  forall working k,
    (forall h, In h working -> h_depth h = k) ->
    StronglySorted (fun a b => h_depth a <= h_depth b) (cteRounds fuel rows working)
    /\ forall h, In h (cteRounds fuel rows working) -> k <= h_depth h.
Proof.
  induction fuel as [|f IH]; intros working k Hw; cbn [cteRounds].
  - split; [constructor | intros h []].
  - destruct (IH _ _ (cteStep_depth rows working k Hw)) as [Hs Hge]. split.
    + apply StronglySorted_app; [now apply (sorted_constant h_depth k) | exact Hs |].
      intros a b Ha Hb. rewrite (Hw a Ha). specialize (Hge b Hb). lia.
    + intros h Hin. apply in_app_or in Hin as [Hin | Hin].
      * rewrite (Hw h Hin). lia.
      * specialize (Hge h Hin). lia.
Qed.

Lemma historyJoin_sorted (rows : list VersionRow) (hist : list HistoryRow) :
  StronglySorted (fun a b => h_depth a <= h_depth b) hist ->
  StronglySorted byDepth (historyJoin rows hist).
Proof.
  unfold historyJoin. induction hist as [|h hist IH]; intros Hs; [constructor |].
  apply StronglySorted_inv in Hs as [Hs Hh]. cbn [flat_map].
  apply StronglySorted_app; [| now apply IH |].
  - apply (sorted_constant snd (h_depth h)).
    intros a Ha. apply in_map_iff in Ha as (iv & <- & _). reflexivity.
  - intros a b Ha Hb. unfold byDepth.
    apply in_map_iff in Ha as (iv & <- & _). cbn.
    apply in_flat_map in Hb as (h' & Hh' & Hb).
    apply in_map_iff in Hb as (iv' & <- & _). cbn.
    rewrite Forall_forall in Hh. now apply Hh.
Qed.

Lemma cteSeed_depth (rows : list VersionRow) (root : string) :
  forall h, In h (cteSeed rows root) -> h_depth h = 0.
Proof. intros h Hin. apply cteSeed_In in Hin as (v & _ & _ & ->). reflexivity. Qed.

(** The query has a result: the joined rows in the order the rounds
    produce them are already ordered by depth. *)
Lemma historyRows_exists (d : DB) (id : string) :
  historyRows d id (historyJoin (image_versions d) (historyCte (image_versions d) id)).
Proof.
  split; [apply Permutation_refl |].
  apply historyJoin_sorted. unfold historyCte.
  apply (cteRounds_sorted _ _ _ 0). apply cteSeed_depth.
Qed.

Lemma filter_by_id (rows : list VersionRow) :
  forall seen q,
    forest seen rows -> In q rows ->
    filter (fun iv => String.eqb (iv_id iv) (iv_id q)) rows = [q].
Proof.
  induction rows as [|x rows IH]; intros seen q Hf Hin; [destruct Hin |].
  destruct Hf as (_ & _ & Hrest). cbn [filter].
  destruct (String.eqb (iv_id x) (iv_id q)) eqn:He.
  - apply String.eqb_eq in He.
    assert (Hnone : filter (fun iv => String.eqb (iv_id iv) (iv_id q)) rows = []).
    { destruct (filter _ rows) as [|y l] eqn:Hfl; [reflexivity |]. exfalso.
      assert (Hy : In y (filter (fun iv => String.eqb (iv_id iv) (iv_id q)) rows))
        by (rewrite Hfl; now left).
      apply filter_In in Hy as [Hy Hye]. apply String.eqb_eq in Hye.
      apply (forest_fresh _ _ _ Hrest Hy). rewrite Hye, <- He.
      apply in_or_app. right. now left. }
    rewrite Hnone. destruct Hin as [-> | Hin]; [reflexivity |].
    exfalso. apply (forest_fresh _ _ _ Hrest Hin). rewrite <- He.
    apply in_or_app. right. now left.
  - destruct Hin as [-> | Hin]; [rewrite String.eqb_refl in He; discriminate |]. eauto.
Qed.

(** The joined rows: the queried version at depth 0, then rows of depth at
    least 1. *)
Lemma historyJoin_head (rows : list VersionRow) (q : VersionRow) :
  forest [] rows -> In q rows ->
  exists deeper,
    historyJoin rows (historyCte rows (iv_id q)) = (q, 0) :: deeper
    /\ (forall x, In x deeper -> 1 <= snd x)
    /\ ((forall v, In v rows -> iv_parent_id v <> Some (iv_id q)) -> deeper = []).
Proof.
  intros Hf Hq.
  assert (Hseed : cteSeed rows (iv_id q) = [historyRowOf q 0]).
  { unfold cteSeed. now rewrite (filter_by_id _ _ _ Hf Hq). }
  unfold historyCte. cbn [cteRounds]. rewrite Hseed. cbn [app].
  unfold historyJoin at 1. cbn [flat_map h_id h_depth historyRowOf].
  rewrite (filter_by_id _ _ _ Hf Hq). cbn [map app].
  eexists. split; [reflexivity |]. split.
  - intros [v n] Hin. apply historyJoin_In in Hin as (h & Hh & _ & _ & ->). cbn.
    destruct (cteRounds_sorted rows (List.length rows)
                (flat_map (cteStep rows) [historyRowOf q 0]) 1) as [_ Hge].
    { apply (cteStep_depth rows _ 0). intros h' [<- | []]. reflexivity. }
    now apply Hge.
  - intros Hleaf.
    assert (Hnext : cteStep rows (historyRowOf q 0) = []).
    { destruct (cteStep rows (historyRowOf q 0)) as [|h l] eqn:Hs; [reflexivity |].
      exfalso. assert (Hin : In h (cteStep rows (historyRowOf q 0))) by (rewrite Hs; now left).
      apply cteStep_In in Hin as (v & Hv & Hp & _). now apply (Hleaf v). }
    rewrite Hnext. cbn [app]. rewrite cteRounds_nil. reflexivity.
Qed.

Lemma sorted_head (result deeper : list (VersionRow * nat)) (q : VersionRow) :
  StronglySorted byDepth result ->
  Permutation result ((q, 0) :: deeper) ->
  (forall x, In x deeper -> 1 <= snd x) ->
  exists rest, result = (q, 0) :: rest /\ Permutation rest deeper.
Proof.
  intros Hs Hp Hd. destruct result as [|x rest].
  - apply Permutation_nil in Hp. discriminate.
  - apply StronglySorted_inv in Hs as [_ Hx]. rewrite Forall_forall in Hx.
    assert (Hxin : In x ((q, 0) :: deeper)).
    { eapply Permutation_in; [exact Hp | now left]. }
    assert (Hqin : In (q, 0) (x :: rest)).
    { eapply Permutation_in; [apply Permutation_sym; exact Hp | now left]. }
    destruct Hxin as [<- | Hxd].
    + exists rest. split; [reflexivity |]. now apply Permutation_cons_inv in Hp.
    + exfalso. specialize (Hd x Hxd). destruct Hqin as [-> | Hqr].
      * cbn in Hd. lia.
      * specialize (Hx _ Hqr). unfold byDepth in Hx. cbn in Hx. lia.
Qed.

(* ================================================================= *)
(** ** Lineage: reachable stores are forests *)

Lemma forest_snoc (rows : list VersionRow) (row : VersionRow) :
  forall seen,
    forest seen rows ->
    ~ In (iv_id row) (seen ++ map iv_id rows) ->
    match iv_parent_id row with
    | Some p => In p (seen ++ map iv_id rows)
    | None => True
    end ->
    forest seen (rows ++ [row]).
Proof.
  induction rows as [|x rows IH]; intros seen Hf Hfresh Hpar; cbn in *.
  - rewrite app_nil_r in *. repeat split; auto.
  - destruct Hf as (Hx & Hpx & Hrest). repeat split; auto.
    apply IH; auto; rewrite <- app_assoc; exact Hfresh || exact Hpar.
Qed.

Lemma orderly_forest (st st' : State) (row : VersionRow) :
  wellFormed (db st) ->
  image_versions (db st') = image_versions (db st) ++ [row] ->
  ~ In (iv_id row) (map iv_id (image_versions (db st))) ->
  match iv_parent_id row with
  | Some p => In p (map iv_id (image_versions (db st)))
  | None => True
  end ->
  wellFormed (db st').
Proof.
  unfold wellFormed. intros Hf -> Hfresh Hpar. now apply forest_snoc.
Qed.

Lemma step_wellFormed (st st' : State) :
  step st st' -> wellFormed (db st) -> wellFormed (db st').
Proof.
  intros [env request st0 | env [body|] st0] Hwf; [| | exact Hwf].
  - destruct (handleUpload env request st0) as [r st1] eqn:H. cbn [snd].
    apply handleUpload_run in H. inversion H; subst; clear H; auto.
    + match goal with Hs : sameStores _ _ |- _ => destruct Hs as (-> & _) end. exact Hwf.
    + unfold wellFormed in *. congruence.
    + unfold wellFormed in *. congruence.
    + eapply orderly_forest; [exact Hwf | eassumption | assumption |].
      match goal with Hp : iv_parent_id row = None |- _ => now rewrite Hp end.
  - destruct (handleEdit env (Some body) st0) as [r st1] eqn:H. cbn [snd].
    apply handleEdit_run in H.
    assert (Hquiet : forall st2, Resolved st0 st2 -> db st1 = db st2 -> wellFormed (db st1)).
    { intros st2 (Hv & _) Hdb. unfold wellFormed in *. now rewrite Hdb, Hv. }
    inversion H; subst; clear H; auto.
    + eapply Hquiet; [eapply resolve_frame; eassumption | reflexivity].
    + eapply Hquiet; [eapply resolve_frame; eassumption | reflexivity].
    + eapply Hquiet;
        [eapply resolved_parse; [eapply resolve_frame; eassumption | eassumption]
        | reflexivity].
    + eapply Hquiet; [eapply prepared_frame; eassumption | assumption].
    + eapply Hquiet; [eapply prepared_frame; eassumption | assumption].
    + eapply Hquiet; [eapply prepared_frame; eassumption | assumption].
    + eapply Hquiet; [eapply prepared_frame; eassumption | assumption].
    + match goal with
      | Hp : Prepared _ _ _ _ _ _ _ _ |- _ =>
          apply prepared_frame in Hp as ((Hv & _) & _ & Hknown)
      end.
      rewrite Hv in *.
      eapply orderly_forest; [exact Hwf | eassumption | assumption |].
      match goal with Hp : iv_parent_id row = _ |- _ => rewrite Hp end.
      destruct pv as [v|]; [| exact I]. cbn.
      destruct (Hknown v eq_refl) as (prow & Hin & -> & _). now apply in_map.
Qed.

Lemma reachable_wellFormed (st : State) : reachable st -> wellFormed (db st).
Proof.
  induction 1 as [|st st' _ IH Hstep]; [exact I |].
  eapply step_wellFormed; eassumption.
Qed.

(* ================================================================= *)
(** ** Lineage: every descendant is returned once *)

Lemma forest_NoDup (rows : list VersionRow) :
  forall seen, forest seen rows -> NoDup (map iv_id rows).
Proof.
  induction rows as [|x rows IH]; intros seen Hf; [constructor |].
  destruct Hf as (_ & _ & Hrest). cbn. constructor; [| eauto].
  intros Hin. apply in_map_iff in Hin as (y & Heq & Hy).
  apply (forest_fresh _ _ _ Hrest Hy). rewrite Heq. apply in_or_app. right. now left.
Qed.

Lemma NoDup_map_filter {A B : Type} (g : A -> B) (p : A -> bool) (l : list A) :
  NoDup (map g l) -> NoDup (map g (filter p l)).
Proof.
  induction l as [|x l IH]; intros H; [constructor |].
  cbn in H. apply NoDup_cons_iff in H as [Hx Hl]. cbn [filter].
  destruct (p x); [| auto]. cbn. constructor; [| auto].
  intros Hin. apply Hx. apply in_map_iff in Hin as (y & Heq & Hy).
  apply filter_In in Hy as [Hy _]. rewrite <- Heq. now apply in_map.
Qed.

Lemma NoDup_app_intro {A : Type} (l1 l2 : list A) :
  NoDup l1 -> NoDup l2 -> (forall x, In x l1 -> ~ In x l2) -> NoDup (l1 ++ l2).
Proof.
  induction l1 as [|x l1 IH]; intros H1 H2 Hd; [exact H2 |].
  apply NoDup_cons_iff in H1 as [Hx H1]. cbn. constructor.
  - intros Hin. apply in_app_or in Hin as [Hin | Hin]; [auto |].
    apply (Hd x); [now left | exact Hin].
  - apply IH; auto. intros y Hy. apply Hd. now right.
Qed.

Lemma descends_position (rows : list VersionRow) (root : string) (v : VersionRow) (n : nat) :
  forest [] rows -> descends rows root v n ->
  n + posOf root rows <= posOf (iv_id v) rows.
Proof.
  intros Hf H. induction H as [v Hin Hid | p v n Hp IH Hin Hpar]; [subst; lia |].
  destruct (forest_parent_pos _ _ _ _ Hf Hin Hpar) as [[] | Hlt]. lia.
Qed.

Lemma descends_depth_unique (rows : list VersionRow) (root : string) (v : VersionRow) :
  forest [] rows ->
  forall n, descends rows root v n -> forall m, descends rows root v m -> n = m.
Proof.
  intros Hf n H. induction H as [v Hin Hid | p v n Hp IH Hin Hpar]; intros m Hm.
  - destruct Hm as [v _ _ | p' v m Hp' _ Hpar']; [reflexivity | exfalso].
    pose proof (descends_position _ _ _ _ Hf Hp') as Hpos.
    destruct (forest_parent_pos _ _ _ _ Hf Hin Hpar') as [[] | Hlt].
    rewrite Hid in Hlt. lia.
  - destruct Hm as [v _ Hid | p' v m Hp' _ Hpar'].
    + exfalso. pose proof (descends_position _ _ _ _ Hf Hp) as Hpos.
      destruct (forest_parent_pos _ _ _ _ Hf Hin Hpar) as [[] | Hlt].
      rewrite Hid in Hlt. lia.
    + f_equal. apply IH. rewrite Hpar in Hpar'. injection Hpar' as Heq.
      now rewrite (forest_unique _ _ _ _ Hf (descends_In _ _ _ _ Hp)
                     (descends_In _ _ _ _ Hp') Heq).
Qed.

Lemma cteStep_ids (rows : list VersionRow) (h : HistoryRow) :
  forest [] rows -> NoDup (map h_id (cteStep rows h)).
Proof.
  intros Hf. unfold cteStep. rewrite map_map. cbn [h_id].
  apply NoDup_map_filter. eapply forest_NoDup. exact Hf.
Qed.

Lemma next_ids (rows : list VersionRow) (working : list HistoryRow) :
  forest [] rows ->
  NoDup (map h_id working) ->
  NoDup (map h_id (flat_map (cteStep rows) working)).
Proof.
  intros Hf. induction working as [|h working IH]; intros Hw; [constructor |].
  cbn in Hw. apply NoDup_cons_iff in Hw as [Hh Hw]. cbn [flat_map]. rewrite map_app.
  apply NoDup_app_intro; [now apply cteStep_ids | auto |].
  intros id Hin1 Hin2. apply Hh.
  apply in_map_iff in Hin1 as (h1 & <- & Hh1).
  apply cteStep_In in Hh1 as (v1 & Hv1 & Hp1 & ->).
  apply in_map_iff in Hin2 as (h2 & Heq & Hh2).
  apply in_flat_map in Hh2 as (hp & Hhp & Hh2).
  apply cteStep_In in Hh2 as (v2 & Hv2 & Hp2 & ->). cbn in Heq.
  rewrite (forest_unique _ _ _ _ Hf Hv2 Hv1 Heq) in Hp2.
  rewrite Hp1 in Hp2. injection Hp2 as ->. now apply in_map.
Qed.

Lemma cteLevel_ids (rows : list VersionRow) (root : string) (k : nat) :
  forest [] rows -> NoDup (map h_id (cteLevel rows root k)).
Proof.
  intros Hf. unfold cteLevel. induction k as [|k IH]; simpl Nat.iter.
  - unfold cteSeed. rewrite map_map. cbn [h_id].
    apply NoDup_map_filter. eapply forest_NoDup. exact Hf.
  - now apply next_ids.
Qed.

Lemma cteRounds_ids (rows : list VersionRow) (root : string) (fuel : nat) :
  forest [] rows ->
  forall k, NoDup (map h_id (cteRounds fuel rows (cteLevel rows root k))).
Proof.
  intros Hf. induction fuel as [|f IH]; intros k; [constructor |].
  cbn [cteRounds]. rewrite map_app.
  apply NoDup_app_intro; [now apply cteLevel_ids | apply (IH (S k)) |].
  intros id Hin1 Hin2.
  apply in_map_iff in Hin1 as (h1 & <- & Hh1).
  destruct (cteLevel_sound _ _ _ _ Hh1) as (v1 & Hd1 & ->).
  apply in_map_iff in Hin2 as (h2 & Heq & Hh2).
  change (flat_map (cteStep rows) (cteLevel rows root k))
    with (cteLevel rows root (S k)) in Hh2.
  apply cteRounds_In in Hh2 as (j & _ & Hh2).
  assert (Hlevel : In h2 (cteLevel rows root (j + S k))).
  { unfold cteLevel in *. now rewrite Nat.iter_add. }
  destruct (cteLevel_sound _ _ _ _ Hlevel) as (v2 & Hd2 & ->). cbn in Heq.
  rewrite (forest_unique _ _ _ _ Hf (descends_In _ _ _ _ Hd2)
             (descends_In _ _ _ _ Hd1) Heq) in Hd2.
  pose proof (descends_depth_unique _ _ _ Hf _ Hd1 _ Hd2). lia.
Qed.

Lemma historyJoin_ids (rows : list VersionRow) (hist : list HistoryRow) :
  forest [] rows ->
  (forall h, In h hist -> exists v, In v rows /\ iv_id v = h_id h) ->
  map (fun x => iv_id (fst x)) (historyJoin rows hist) = map h_id hist.
Proof.
  intros Hf. unfold historyJoin. induction hist as [|h hist IH]; intros Hs; [reflexivity |].
  cbn [flat_map map]. rewrite map_app, IH by (intros h' Hh'; apply Hs; now right).
  destruct (Hs h (or_introl eq_refl)) as (v & Hv & Hid).
  rewrite <- Hid, (filter_by_id _ _ _ Hf Hv). reflexivity.
Qed.

Lemma historyJoin_NoDup (rows : list VersionRow) (root : string) :
  forest [] rows -> NoDup (historyJoin rows (historyCte rows root)).
Proof.
  intros Hf. apply (NoDup_map_inv (fun x => iv_id (fst x))).
  rewrite historyJoin_ids; [apply (cteRounds_ids rows root _ Hf 0) | exact Hf |].
  intros h Hh. apply (historyCte_In _ _ _ Hf) in Hh as (v & n & Hd & ->).
  exists v. split; [now apply descends_In in Hd | reflexivity].
Qed.

(* ================================================================= *)
(** ** Lineage: the result of the history query *)

Lemma historyRows_subtree (d : DB) (id : string) :
  wellFormed d ->
  forall result,
    historyRows d id result ->
    (forall v n, In (v, n) result <-> descends (image_versions d) id v n)
    /\ NoDup result
    /\ StronglySorted byDepth result
    /\ (forall q,
           In q (image_versions d) -> iv_id q = id ->
           (exists rest, result = (q, 0) :: rest
                         /\ forall x, In x rest -> 1 <= snd x)
           /\ ((forall v, In v (image_versions d) -> iv_parent_id v <> Some id) ->
               result = [(q, 0)]))
    /\ ((forall q, In q (image_versions d) -> iv_id q <> id) -> result = []).
Proof.
  unfold wellFormed. intros Hf result [Hperm Hsorted].
  assert (Hmem : forall v n, In (v, n) result <-> descends (image_versions d) id v n).
  { intros v n. rewrite <- (historyJoin_descends _ _ _ _ Hf). split; intros Hin.
    - eapply Permutation_in; eassumption.
    - eapply Permutation_in; [apply Permutation_sym |]; eassumption. }
  split; [exact Hmem | split; [| split; [exact Hsorted | split]]].
  - eapply Permutation_NoDup; [apply Permutation_sym; exact Hperm |].
    now apply historyJoin_NoDup.
  - intros q Hq <-.
    destruct (historyJoin_head _ _ Hf Hq) as (deeper & Hj & Hdeep & Hleaf).
    rewrite Hj in Hperm.
    destruct (sorted_head _ _ _ Hsorted Hperm Hdeep) as (rest & -> & Hrest). split.
    + exists rest. split; [reflexivity |]. intros x Hx. apply Hdeep.
      eapply Permutation_in; eassumption.
    + intros Hnone. rewrite (Hleaf Hnone) in Hrest.
      apply Permutation_sym, Permutation_nil in Hrest. now subst.
  - intros Hnone. destruct result as [|[v n] rest]; [reflexivity | exfalso].
    destruct (descends_root _ _ _ _ (proj1 (Hmem v n) (or_introl eq_refl)))
      as (q & Hq & Hid).
    now apply (Hnone q).
Qed.

(** Claim C3, as amended: on a version store that is a forest (as every
    reachable store is), the history query terminates and returns exactly
    the versions that descend from the queried one, each once and with its
    depth below it, ordered by depth: the queried version itself comes first, at
    depth 0, every other row is at depth 1 or more, and a version without
    children yields exactly [[self]].  The query orders by depth only: it
    fixes no order among versions of the same depth, and the order SQLite
    returns them in, grouped under their parents, is one it allows. *)
Theorem lineage_descendants (d : DB) (id : string) :
  wellFormed d ->
  (historyRows d id (lineage d id)
   /\ handleHistory d id
        (jsonResponse (BVersions (map (fun r => historyEntry (fst r)) (lineage d id))) 200))
  /\ (forall extra,
         cteRounds (S (List.length (image_versions d)) + extra) (image_versions d)
                   (cteSeed (image_versions d) id)
         = historyCte (image_versions d) id)
  /\ (forall result,
         historyRows d id result ->
         (forall v n, In (v, n) result <-> descends (image_versions d) id v n)
         /\ NoDup result
         /\ StronglySorted byDepth result
         /\ (forall q,
                In q (image_versions d) -> iv_id q = id ->
                (exists rest, result = (q, 0) :: rest
                              /\ forall x, In x rest -> 1 <= snd x)
                /\ ((forall v, In v (image_versions d) -> iv_parent_id v <> Some id) ->
                    result = [(q, 0)]))
         /\ ((forall q, In q (image_versions d) -> iv_id q <> id) -> result = [])).
Proof.
  unfold wellFormed. intros Hf. split; [| split].
  - split; [apply historyRows_exists |].
    constructor. apply historyRows_exists.
  - intros extra. unfold historyCte. rewrite cteRounds_split.
    fold (cteLevel (image_versions d) id (S (List.length (image_versions d)))).
    rewrite cteLevel_empty by (auto; lia). now rewrite cteRounds_nil, app_nil_r.
  - now apply historyRows_subtree.
Qed.

Lemma branching_reachable : reachable Branching.withA1.
Proof.
  unfold Branching.withA1, Branching.withB1, Branching.withB, Branching.withA,
    Branching.request, Branching.withRoot.
  repeat (eapply reach_step; [| apply step_edit]).
  eapply reach_step; [apply reach_initial | apply step_upload].
Qed.

Lemma lineage_descendants_witness :
  historyRows (db Branching.withA1) "uuid-1" (lineage (db Branching.withA1) "uuid-1")
  /\ NoDup (lineage (db Branching.withA1) "uuid-1")
  /\ StronglySorted byDepth (lineage (db Branching.withA1) "uuid-1").
Proof.
  destruct (lineage_descendants (db Branching.withA1) "uuid-1")
    as ((Hr & _) & _ & Hspec).
  - apply reachable_wellFormed, branching_reachable.
  - split; [exact Hr |].
    destruct (Hspec _ Hr) as (_ & Hnd & Hs & _). split; assumption.
Defined.

(** Claim C3 as stated fails.  Five versions are inserted in the order
    uuid-1 to uuid-5, in the seconds 1 to 5: the root, its children uuid-2
    and uuid-3, then uuid-4 under uuid-3 and uuid-5 under uuid-2.  The
    query returns uuid-5 before uuid-4, both at depth 2: the child of the
    first child comes first, though it was created last. *)
Lemma lineage_cousins_by_parent :
  reachable Branching.withA1
  /\ map (fun v => (iv_id v, iv_parent_id v, iv_created_at v))
         (image_versions (db Branching.withA1))
     = [ ("uuid-1", None, 1); ("uuid-2", Some "uuid-1", 2); ("uuid-3", Some "uuid-1", 3);
         ("uuid-4", Some "uuid-3", 4); ("uuid-5", Some "uuid-2", 5) ]
  /\ map (fun r => (iv_id (fst r), snd r, iv_created_at (fst r)))
         (lineage (db Branching.withA1) "uuid-1")
     = [ ("uuid-1", 0, 1); ("uuid-2", 1, 2); ("uuid-3", 1, 3);
         ("uuid-5", 2, 5); ("uuid-4", 2, 4) ].
Proof.
  split; [exact branching_reachable |].
  split; vm_compute; reflexivity.
Qed.


(** Whatever order the engine gives rows of equal depth, the history
    query returns the descendant subtree: on a version store that is a
    forest, every result that [ORDER BY history.depth] allows holds exactly
    the versions that descend from the queried one, each once, with its
    depth, in order of depth; the queried version comes first and alone
    when it has no children; and an id that names no version gives no
    rows. *)
Theorem history_rows_are_subtree (d : DB) (id : string) :
  wellFormed d ->
  forall result,
    historyRows d id result ->
    (forall v n, In (v, n) result <-> descends (image_versions d) id v n)
    /\ NoDup result
    /\ StronglySorted byDepth result
    /\ (forall q,
           In q (image_versions d) -> iv_id q = id ->
           (exists rest, result = (q, 0) :: rest
                         /\ forall x, In x rest -> 1 <= snd x)
           /\ ((forall v, In v (image_versions d) -> iv_parent_id v <> Some id) ->
               result = [(q, 0)]))
    /\ ((forall q, In q (image_versions d) -> iv_id q <> id) -> result = []).
Proof. exact (historyRows_subtree d id). Qed.

Lemma history_rows_are_subtree_witness :
  exists q,
    iv_id q = "uuid-5"
    /\ lineage (db Branching.withA1) "uuid-5" = [(q, 0)].
Proof.
  eassert (Hq : In _ (image_versions (db Branching.withA1))).
  { vm_compute. do 4 right. left. reflexivity. }
  destruct (history_rows_are_subtree (db Branching.withA1) "uuid-5"
              (reachable_wellFormed _ branching_reachable) _
              (historyRows_exists _ _))
    as (_ & _ & _ & Hroot & _).
  destruct (Hroot _ Hq eq_refl) as [_ Hleaf].
  eexists. split; [| apply Hleaf].
  - reflexivity.
  - intros v Hv. vm_compute in Hv.
    repeat (destruct Hv as [<- | Hv]; [discriminate |]). destruct Hv.
Defined.


(* ================================================================= *)
(** ** Rejected requests *)

Lemma handleEdit_invalid_json (env : Env) (st : State) :
  handleEdit env None st = (Ok (jsonResponse (BError "Invalid JSON body") 400), st).
Proof. reflexivity. Qed.

(** A request that is answered 400 or 415 has changed nothing: not the two
    tables, not the console, not the identifiers handed out.  This covers
    the unparseable body, the missing image ids, the missing prompt, the
    edit for which no session can be resolved, and the upload that is not
    multipart or carries no file. *)
Theorem rejected_request_no_effect (env : Env) :
  (forall request st resp st',
      handleEdit env request st = (Ok resp, st') -> status resp = 400 -> st' = st)
  /\ (forall request st resp st',
         handleUpload env request st = (Ok resp, st') ->
         status resp = 400 \/ status resp = 415 -> st' = st).
Proof.
  split.
  - intros [body|] st resp st' H Hs.
    + apply handleEdit_run in H. inversion H; subst; clear H; try reflexivity.
      * match goal with
        | Hr : resolveSession _ _ _ = _ |- _ => apply resolveSession_cases in Hr;
            destruct Hr as [(pv' & s & _ & -> & _)
                           | [(pv' & row & [=] & _) | (e & [=] & _)]]
        end. reflexivity.
      * match goal with
        | Hu : _ \/ _ |- _ => destruct Hu as [(e & [=]) | (msg & [= ->])]
        end. discriminate Hs.
      * discriminate Hs.
    + rewrite handleEdit_invalid_json in H. now injection H as _ <-.
  - intros request st resp st' H Hs.
    apply handleUpload_run in H. inversion H; subst; clear H; try reflexivity.
    destruct Hs as [Hs | Hs]; discriminate Hs.
Qed.

Lemma rejected_request_no_effect_witness :
  snd (handleEdit (Scenario.scenarioEnv 1)
         (Some (Scenario.edit "add a skylight" None None None)) Scenario.afterUpload)
  = Scenario.afterUpload.
Proof.
  apply (proj1 (rejected_request_no_effect (Scenario.scenarioEnv 1))
           (Some (Scenario.edit "add a skylight" None None None)) Scenario.afterUpload
           (jsonResponse (BError "A session or base prompt is required to edit") 400)).
  - vm_compute. reflexivity.
  - reflexivity.
Defined.

(* ================================================================= *)
(** ** What a request may add to the two tables *)

Lemma sessionCore_setHistory (id h : string) (l : list SessionRecord) :
  map sessionCore (map (setHistory id h) l) = map sessionCore l.
Proof.
  rewrite map_map. apply map_ext. intros s. unfold setHistory.
  now destruct (String.eqb (ps_id s) id).
Qed.

Lemma ps_id_sessionCore (l : list SessionRecord) :
  map ps_id l = map (fun c => fst (fst (fst c))) (map sessionCore l).
Proof. rewrite map_map. reflexivity. Qed.

Lemma resolved_grows (st st2 st' : State) :
  Resolved st st2 -> db st' = db st2 -> grows st st'.
Proof.
  intros (Hv & [[Hs _] | (row & Hs & _ & _ & Hf)]) Hdb; unfold grows; rewrite Hdb.
  - split; [left; now rewrite Hs | left; exact Hv].
  - split; [right; exists row; split; [rewrite Hs, map_app; reflexivity | exact Hf]
           | left; exact Hv].
Qed.

Lemma editRun_grows (env : Env) (body : EditRequestBody) (st st' : State)
    (r : Result Response) :
  EditRun env body st r st' -> grows st st'.
Proof.
  intros H. inversion H; subst; clear H.
  - split; left; reflexivity.
  - split; left; reflexivity.
  - eapply resolved_grows; [eapply resolve_frame; eassumption | reflexivity].
  - eapply resolved_grows; [eapply resolve_frame; eassumption | reflexivity].
  - eapply resolved_grows;
      [ eapply resolved_parse; [eapply resolve_frame; eassumption | eassumption]
      | reflexivity ].
  - eapply resolved_grows; [eapply prepared_frame; eassumption | assumption].
  - eapply resolved_grows; [eapply prepared_frame; eassumption | assumption].
  - eapply resolved_grows; [eapply prepared_frame; eassumption | assumption].
  - eapply resolved_grows; [eapply prepared_frame; eassumption | assumption].
  - match goal with
    | Hp : Prepared _ _ _ _ _ _ _ _ |- _ =>
        apply prepared_frame in Hp as ((Hv & Hs) & Hin & Hk)
    end.
    match goal with
    | Hs' : prompt_sessions (db st') = _ |- _ => rename Hs' into Hsess
    end.
    assert (Hcore : map sessionCore (prompt_sessions (db st'))
                    = map sessionCore (prompt_sessions (db st2))).
    { rewrite Hsess. apply sessionCore_setHistory. }
    split.
    + rewrite Hcore.
      destruct Hs as [[Hs _] | (row' & Hs & _ & _ & Hf)].
      * left. now rewrite Hs.
      * right. exists row'. split; [rewrite Hs, map_app; reflexivity | exact Hf].
    + right. exists row. rewrite <- Hv. split; [assumption |]. split; [assumption |].
      split.
      * exists (ps_id session). split; [assumption |].
        rewrite ps_id_sessionCore, Hcore, <- ps_id_sessionCore. now apply in_map.
      * intros p Hp.
        match goal with
        | Hpar : iv_parent_id row = option_map _ _ |- _ => rewrite Hpar in Hp
        end.
        destruct pv as [v|]; cbn in Hp; [| discriminate Hp]. injection Hp as <-.
        destruct (Hk v eq_refl) as (row0 & Hin0 & -> & _).
        rewrite Hv. now apply in_map.
Qed.

Lemma uploadRun_grows (env : Env) (request : UploadRequest) (st st' : State)
    (r : Result Response) :
  UploadRun env request st r st' -> grows st st'.
Proof.
  intros H. inversion H; subst; clear H.
  - split; left; reflexivity.
  - split; left; reflexivity.
  - match goal with Hs : sameStores _ _ |- _ => destruct Hs as (Hdb & _) end.
    split; left; now rewrite Hdb.
  - match goal with Hu : UploadSession _ _ _ _ |- _ => destruct Hu as (_ & _ & _ & _ & Hf) end.
    split; [right; exists session; split; [| exact Hf] | left; assumption].
    match goal with Hs : prompt_sessions (db st') = _ |- _ => rewrite Hs end.
    now rewrite map_app.
  - match goal with Hu : UploadSession _ _ _ _ |- _ => destruct Hu as (_ & _ & _ & _ & Hf) end.
    split; [right; exists session; split; [| exact Hf] | left; assumption].
    match goal with Hs : prompt_sessions (db st') = _ |- _ => rewrite Hs end.
    now rewrite map_app.
  - match goal with Hu : UploadSession _ _ _ _ |- _ => destruct Hu as (_ & _ & _ & _ & Hf) end.
    match goal with Hs : prompt_sessions (db st') = _ |- _ => rename Hs into Hsess end.
    split; [right; exists session; split; [| exact Hf] |].
    + rewrite Hsess. now rewrite map_app.
    + right. exists row. split; [assumption |]. split; [assumption |]. split.
      * exists (ps_id session). split; [assumption |].
        rewrite Hsess, map_app. apply in_or_app. right. now left.
      * intros p Hp. congruence.
Qed.

Lemma step_grows (st st' : State) : step st st' -> grows st st'.
Proof.
  intros [env request st0 | env [body|] st0].
  - eapply uploadRun_grows, handleUpload_run. apply surjective_pairing.
  - eapply editRun_grows, handleEdit_run. apply surjective_pairing.
  - split; left; reflexivity.
Qed.

Lemma prefixOf_refl {A : Type} (l : list A) : prefixOf l l.
Proof. exists []. now rewrite app_nil_r. Qed.

Lemma prefixOf_trans {A : Type} (a b c : list A) : prefixOf a b -> prefixOf b c -> prefixOf a c.
Proof. intros [x ->] [y ->]. exists (x ++ y). now rewrite app_assoc. Qed.

(** No sequence of requests ever deletes or rewrites a row of
    [image_versions], and none deletes a session or changes its id, design
    intent, system prompt or intent hash: the version table after the
    requests starts with the version table before them, and so do the
    sessions once their history column is left out. *)
Theorem stores_only_grow (st st' : State) :
  steps st st' ->
  prefixOf (image_versions (db st)) (image_versions (db st'))
  /\ prefixOf (map sessionCore (prompt_sessions (db st)))
              (map sessionCore (prompt_sessions (db st'))).
Proof.
  induction 1 as [st | st st1 st2 _ [IHv IHs] Hstep].
  - split; apply prefixOf_refl.
  - apply step_grows in Hstep as [Hs Hv]. split.
    + eapply prefixOf_trans; [exact IHv |].
      destruct Hv as [-> | (v & -> & _)]; [apply prefixOf_refl | now exists [v]].
    + eapply prefixOf_trans; [exact IHs |].
      destruct Hs as [-> | (row & -> & _)]; [apply prefixOf_refl | now eexists].
Qed.

Lemma stores_only_grow_witness :
  prefixOf (image_versions (db Scenario.afterUpload))
           (image_versions (db Scenario.afterSecondPatio))
  /\ prefixOf (map sessionCore (prompt_sessions (db Scenario.afterUpload)))
              (map sessionCore (prompt_sessions (db Scenario.afterSecondPatio))).
Proof.
  apply (stores_only_grow Scenario.afterUpload Scenario.afterSecondPatio).
  apply (steps_next _ Scenario.afterPatio).
  - apply (steps_next _ Scenario.afterUpload); [apply steps_refl |].
    apply (step_edit (Scenario.scenarioEnv 1)
             (Some (Scenario.edit "render the patio view" (Some "uuid-1") None None))).
  - apply (step_edit (Scenario.scenarioEnv 2)
             (Some (Scenario.edit "patio at dusk" (Some "uuid-1") None None))).
Defined.

(* ================================================================= *)
(** ** Keys and references *)

Lemma NoDup_snoc {A : Type} (l : list A) (x : A) : NoDup l -> ~ In x l -> NoDup (l ++ [x]).
Proof.
  intros Hl Hx. apply NoDup_rev in Hl. rewrite <- (rev_involutive (l ++ [x])).
  apply NoDup_rev. rewrite rev_app_distr. cbn. constructor; [| exact Hl].
  now rewrite <- in_rev.
Qed.

Lemma grows_integrity (st st' : State) :
  grows st st' -> integrity (db st) -> integrity (db st').
Proof.
  intros [Hs Hv] (Hn1 & Hn2 & Hchat & Hpar).
  assert (Hids : exists extra, map ps_id (prompt_sessions (db st'))
                               = map ps_id (prompt_sessions (db st)) ++ extra
                               /\ NoDup (map ps_id (prompt_sessions (db st)) ++ extra)).
  { rewrite (ps_id_sessionCore (prompt_sessions (db st'))).
    destruct Hs as [-> | (row & -> & Hf)].
    - exists []. rewrite <- ps_id_sessionCore, app_nil_r. auto.
    - exists [ps_id row]. rewrite map_app, <- ps_id_sessionCore. split; [reflexivity |].
      now apply NoDup_snoc. }
  destruct Hids as (extra & Hids & Hnd).
  unfold integrity. rewrite Hids. split; [exact Hnd |].
  destruct Hv as [-> | (v & -> & Hfresh & (c & Hc & Hin) & Hp)].
  - split; [exact Hn2 |]. split; [| exact Hpar].
    intros v Hv. destruct (Hchat v Hv) as (c & Hc & Hin). exists c. split; [exact Hc |].
    apply in_or_app. now left.
  - rewrite map_app. cbn [map]. split; [now apply NoDup_snoc |]. split.
    + intros w Hw. apply in_app_or in Hw as [Hw | [<- | []]].
      * destruct (Hchat w Hw) as (c' & Hc' & Hin'). exists c'. split; [exact Hc' |].
        apply in_or_app. now left.
      * exists c. split; [exact Hc |]. now rewrite <- Hids.
    + intros w p Hw Hwp. apply in_or_app. left.
      apply in_app_or in Hw as [Hw | [<- | []]]; [now apply (Hpar w) | now apply Hp].
Qed.

Lemma integrity_invariant (st : State) : reachable st -> integrity (db st).
Proof.
  induction 1 as [|st st' _ IH Hstep].
  - unfold integrity; cbn.
    split; [constructor | split; [constructor | split; [intros v [] | intros v p []]]].
  - eapply grows_integrity; [apply step_grows; exact Hstep | exact IH].
Qed.

(** In every state the Worker can reach, session ids and version ids are
    unique, every version belongs to a session that exists, and every
    parent a version names is a version that exists. *)
Theorem reachable_integrity (st : State) : reachable st -> integrity (db st).
Proof. exact (integrity_invariant st). Qed.

Lemma reachable_integrity_witness : integrity (db Scenario.afterPatio).
Proof. apply (reachable_integrity Scenario.afterPatio). exact scenario_reachable. Defined.


(* ================================================================= *)
(** ** Branching from an existing version *)

Lemma find_by_key {A : Type} (key : A -> string) (l : list A) (x : A) :
  NoDup (map key l) -> In x l ->
  find (fun y => String.eqb (key y) (key x)) l = Some x.
Proof.
  induction l as [|y l IH]; intros Hnd Hin; [destruct Hin |].
  cbn [map] in Hnd. inversion Hnd as [|? ? Hfresh Hnd']; subst. cbn [find].
  destruct Hin as [-> | Hin].
  - now rewrite String.eqb_refl.
  - destruct (String.eqb_spec (key y) (key x)) as [Heq | _]; [| now apply IH].
    exfalso. apply Hfresh. rewrite Heq. now apply in_map.
Qed.

Lemma resolve_previous (env : Env) (st : State) (v : VersionRow) (s : SessionRecord)
    (body : EditRequestBody) :
  integrity (db st) ->
  In v (image_versions (db st)) ->
  In s (prompt_sessions (db st)) ->
  iv_chat_id v = Some (ps_id s) ->
  iv_id v <> EmptyString ->
  ps_id s <> EmptyString ->
  previous_version_id body = Some (iv_id v) ->
  resolveSession env body st = (Ok (Some (versionRecord v), Some s), st).
Proof.
  intros (Hn1 & Hn2 & _) Hv Hs Hc Hv0 Hs0 Hp.
  unfold resolveSession, getVersionById, getSessionById. unfold_monad.
  rewrite Hp. unfold truthyOpt, orElse. rewrite (proj2 (truthy_true _) Hv0).
  rewrite (find_by_key iv_id _ v Hn2 Hv). cbn [vr_chat_id]. rewrite Hc.
  rewrite (proj2 (truthy_true _) Hs0).
  rewrite (find_by_key ps_id _ s Hn1 Hs). unfold versionRecord, orElse. rewrite Hc.
  reflexivity.
Qed.

(** In every reachable state, an edit that names an existing version as its
    previous version is resolved to that version and to the session the
    version belongs to, whatever session id or design intent the request
    also carries, and without creating a session; if the edit succeeds,
    the one row it adds is a child of that version in that same session. *)
Theorem edit_branches_from_previous (env : Env) (st : State) (v : VersionRow)
    (body : EditRequestBody) :
  reachable st ->
  In v (image_versions (db st)) ->
  iv_id v <> EmptyString ->
  (forall c, iv_chat_id v = Some c -> c <> EmptyString) ->
  previous_version_id body = Some (iv_id v) ->
  (exists s,
      In s (prompt_sessions (db st))
      /\ iv_chat_id v = Some (ps_id s)
      /\ resolveSession env body st = (Ok (Some (versionRecord v), Some s), st))
  /\ (forall resp st',
         handleEdit env (Some body) st = (Ok resp, st') -> status resp = 200 ->
         exists row,
           image_versions (db st') = image_versions (db st) ++ [row]
           /\ iv_parent_id row = Some (iv_id v)
           /\ iv_chat_id row = iv_chat_id v).
Proof.
  intros Hreach Hv Hv0 Hc0 Hp.
  pose proof (integrity_invariant st Hreach) as Hint.
  assert (Hres : exists s,
             In s (prompt_sessions (db st))
             /\ iv_chat_id v = Some (ps_id s)
             /\ resolveSession env body st = (Ok (Some (versionRecord v), Some s), st)).
  { destruct Hint as (Hn1 & Hn2 & Hchat & Hpar).
    destruct (Hchat v Hv) as (c & Hc & Hin).
    apply in_map_iff in Hin as (s & <- & Hs).
    exists s. split; [exact Hs | split; [exact Hc |]].
    apply resolve_previous; auto. repeat split; assumption. }
  split; [exact Hres |].
  destruct Hres as (s & Hs & Hc & Hres).
  intros resp st' H Hst. apply handleEdit_run in H.
  inversion H; subst; clear H; try discriminate Hst.
  - match goal with
    | Hu : _ \/ _ |- _ => destruct Hu as [(e & [=]) | (msg & [= ->])]
    end. discriminate Hst.
  - match goal with
    | Hp' : Prepared _ _ _ _ _ _ _ _ |- _ =>
        pose proof Hp' as (_ & st1 & imgs & ms & Hres' & Hparse & _)
    end.
    rewrite Hres in Hres'. injection Hres' as <- <- <-.
    apply parseHistory_quiet in Hparse as (_ & Hdb & _).
    exists row. rewrite <- Hdb. split; [assumption |].
    split; [| congruence].
    match goal with
    | Hpar : iv_parent_id row = option_map _ _ |- _ => rewrite Hpar
    end. reflexivity.
Qed.

Lemma edit_branches_from_previous_witness :
  exists row,
    image_versions (db Scenario.afterSecondPatio)
    = image_versions (db Scenario.afterPatio) ++ [row]
    /\ iv_parent_id row = Some "uuid-1"
    /\ iv_chat_id row = Some "uuid-0".
Proof.
  eassert (Hin : In _ (image_versions (db Scenario.afterPatio))).
  { vm_compute. left. reflexivity. }
  refine (proj2 (edit_branches_from_previous (Scenario.scenarioEnv 2) Scenario.afterPatio _
                   (Scenario.edit "patio at dusk" (Some "uuid-1") None None)
                   scenario_reachable Hin _ _ _)
            (jsonResponse
               (BEdited "img-2" "uuid-3" "https://imagedelivery.net/acct/img-2/public"
                  "Added a patio door."
                  "Would you like to explore another perspective beyond the patio angle?")
               200)
            Scenario.afterSecondPatio _ _).
  - discriminate.
  - intros c [= <-]. discriminate.
  - reflexivity.
  - vm_compute. reflexivity.
  - reflexivity.
Defined.


(* ================================================================= *)
(** ** Saving a history and reading it back *)

Lemma mapResult_Forall {A B : Type} (f : A -> Result B) (P : B -> Prop) (l : list A) :
  (forall x y, f x = Ok y -> P y) ->
  forall ys, mapResult f l = Ok ys -> Forall P ys.
Proof.
  intros Hf. unfold mapResult.
  induction l as [|x l IH]; intros ys H.
  - injection H as <-. constructor.
  - fold (mapResult f l) in *. destruct (f x) as [y|e] eqn:Hx; [| discriminate H].
    destruct (mapResult f l) as [zs|e]; [| discriminate H].
    injection H as <-. constructor; [now apply (Hf x) | now apply IH].
Qed.

Lemma mapResult_length {A B : Type} (f : A -> Result B) (l : list A) :
  forall ys, mapResult f l = Ok ys -> List.length ys = List.length l.
Proof.
  unfold mapResult. induction l as [|x l IH]; intros ys H.
  - now injection H as <-.
  - fold (mapResult f l) in *. destruct (f x) as [y|e]; [| discriminate H].
    destruct (mapResult f l) as [zs|e]; [| discriminate H].
    injection H as <-. cbn. f_equal. now apply IH.
Qed.

Lemma mapResult_map {A B : Type} (f : A -> Result B) (g : B -> A) (l : list B) :
  Forall (fun y => f (g y) = Ok y) l -> mapResult f (map g l) = Ok l.
Proof.
  unfold mapResult. induction 1 as [|y l Hy _ IH]; [reflexivity |].
  cbn [map]. fold (mapResult f (map g l)) in *. now rewrite Hy, IH.
Qed.

Lemma nullishOr_not_null (a : option json) (d : json) : d <> JNull -> nullishOr a d <> JNull.
Proof. intros Hd. destruct a as [[]|]; cbn; congruence. Qed.

Lemma normalizePart_normal (part : json) (p : GeminiPart) :
  normalizePart part = Ok p -> normalPart p.
Proof.
  unfold normalizePart. destruct (getProp part "inlineData") as [inl|e]; [| discriminate].
  intros [= <-] i. cbn [inlineData].
  destruct (truthyJs _); [| discriminate].
  destruct (nullish inl (prop part "inline_data")) as [x|]; [| discriminate].
  cbn [option_map]. intros [= <-]. cbn [mimeType].
  apply nullishOr_not_null, nullishOr_not_null. discriminate.
Qed.

Lemma normalizeParts_normal (p : option json) (ps : list GeminiPart) :
  normalizeParts p = Ok ps -> Forall normalPart ps.
Proof.
  unfold normalizeParts. destruct p as [[]|]; try discriminate.
  apply mapResult_Forall. exact normalizePart_normal.
Qed.

Lemma normalizePart_jsonOfPart (p : GeminiPart) :
  normalPart p -> normalizePart (jsonOfPart p) = Ok p.
Proof.
  destruct p as [t i th]. unfold normalPart. cbn [inlineData]. intros Hn.
  destruct i as [[m d]|].
  - assert (Hm : m <> JNull) by (apply (Hn _ eq_refl)).
    destruct t, d, th, m; try congruence; reflexivity.
  - destruct t, th; reflexivity.
Qed.

Lemma decodeMessage_jsonOfMessage (m : GeminiMessage) :
  normalTurn m -> decodeMessage (jsonOfMessage m) = Ok m.
Proof.
  destruct m as [r ps]. unfold normalTurn. cbn [parts]. intros Hn.
  assert (Hps : normalizeParts (Some (JArr (map jsonOfPart ps))) = Ok ps).
  { unfold normalizeParts. apply mapResult_map.
    eapply Forall_impl; [| exact Hn]. exact normalizePart_jsonOfPart. }
  unfold decodeMessage, jsonOfMessage. destruct r; cbn; now rewrite Hps.
Qed.

Lemma decodeHistory_jsonOfHistory (h : list GeminiMessage) :
  Forall normalTurn h -> decodeHistory (jsonOfHistory h) = Ok h.
Proof.
  intros Hn. unfold decodeHistory, jsonOfHistory. apply mapResult_map.
  eapply Forall_impl; [| exact Hn]. exact decodeMessage_jsonOfMessage.
Qed.

Lemma decodeMessage_normal (j : json) (m : GeminiMessage) :
  decodeMessage j = Ok m -> normalTurn m.
Proof.
  unfold decodeMessage. destruct (getProp j "role"); [| discriminate].
  destruct (getProp j "parts"); [| discriminate].
  destruct (normalizeParts _) as [ps|] eqn:Hps; [| discriminate].
  intros [= <-]. now apply normalizeParts_normal in Hps.
Qed.

Lemma decodeHistory_normal (j : json) (h : list GeminiMessage) :
  decodeHistory j = Ok h -> Forall normalTurn h.
Proof.
  unfold decodeHistory. destruct j; try discriminate.
  apply mapResult_Forall. exact decodeMessage_normal.
Qed.

Lemma parseHistory_normal (env : Env) (s : option string) (st st' : State)
    (h : list GeminiMessage) :
  parseHistory env s st = (Ok h, st') -> Forall normalTurn h.
Proof.
  unfold parseHistory. unfold_monad.
  destruct (negb (truthyOpt s)); [intros [= <- _]; constructor |].
  destruct (JSON_parse env _) as [j|]; [| intros [= <- _]; constructor].
  destruct (decodeHistory j) as [h'|] eqn:Hd; [| intros [= <- _]; constructor].
  intros [= <- _]. now apply decodeHistory_normal in Hd.
Qed.

Lemma inlinePart_normal (mime d : string) : normalPart (inlinePart mime d).
Proof. intros i [= <-]. discriminate. Qed.

Lemma imagePayloads_normal (env : Env) (ids : list string) (ps : list GeminiPart) :
  mapResult (imagePayload env) ids = Ok ps -> Forall normalPart ps.
Proof.
  apply mapResult_Forall. intros id p. unfold imagePayload.
  destruct (fetchImageAsBase64 env id) as [[b m]|]; [| discriminate].
  intros [= <-]. apply inlinePart_normal.
Qed.

Lemma maskParts_normal (env : Env) (ms : list Mask) :
  forall ps, maskParts env ms = Ok ps -> Forall normalPart ps.
Proof.
  unfold maskParts. induction ms as [|mask ms IH]; intros ps H.
  - injection H as <-. constructor.
  - fold (maskParts env ms) in *.
    destruct (maskParts env ms) as [qs|]; cycle 1.
    { repeat (break_match; try discriminate). }
    specialize (IH qs eq_refl).
    destruct (truthyOpt (mask_data mask)).
    + injection H as <-. constructor; [apply inlinePart_normal | exact IH].
    + destruct (truthyOpt (mask_image_id mask)).
      * destruct (fetchImageAsBase64 env _) as [[b m]|]; [| discriminate].
        injection H as <-. constructor; [apply inlinePart_normal | exact IH].
      * now injection H as <-.
Qed.

Lemma Forall_skipn {A : Type} (P : A -> Prop) (n : nat) (l : list A) :
  Forall P l -> Forall P (skipn n l).
Proof.
  intros H. rewrite <- (firstn_skipn n l) in H. now apply Forall_app in H.
Qed.

Lemma trimHistory_Forall {A : Type} (P : A -> Prop) (l : list A) :
  Forall P l -> Forall P (trimHistory l).
Proof.
  intros H. unfold trimHistory, trimHistoryTo.
  destruct (_ <=? _); [exact H | now apply Forall_skipn].
Qed.

(** What [saveHistory] writes, [parseHistory] reads back unchanged: for
    turns as [normalizeParts] leaves them and a [JSON.parse] that inverts
    [JSON.stringify] on the saved value, parsing the saved string returns
    exactly the saved turns and logs nothing.  Every list of turns that
    [parseHistory] returns is of that kind, and so is every history a
    successful edit saves, which ends with the new user turn and the
    oracle's turn. *)
Theorem history_round_trip :
  (forall env env' h st0,
      Forall normalTurn h ->
      JSON_stringify env (jsonOfHistory h) <> EmptyString ->
      JSON_parse env' (JSON_stringify env (jsonOfHistory h)) = Some (jsonOfHistory h) ->
      parseHistory env' (Some (JSON_stringify env (jsonOfHistory h))) st0 = (Ok h, st0))
  /\ (forall env s st st' h,
         parseHistory env s st = (Ok h, st') ->
         Forall normalTurn h /\ decodeHistory (jsonOfHistory h) = Ok h)
  /\ (forall env body st resp st',
         handleEdit env (Some body) st = (Ok resp, st') ->
         status resp = 200 ->
         exists session conversation inlineParts modelParts,
           In session (prompt_sessions (db st'))
           /\ ps_history session
              = JSON_stringify env
                  (jsonOfHistory
                     (appendTurn conversation (userTurn body inlineParts)
                                 (modelTurn modelParts)))
           /\ Forall normalTurn
                (appendTurn conversation (userTurn body inlineParts) (modelTurn modelParts))).
Proof.
  split; [| split].
  - intros env env' h st0 Hn Hne Hparse.
    unfold parseHistory, truthyOpt, orElse. rewrite (proj2 (truthy_true _) Hne).
    cbn [negb]. rewrite Hparse, (decodeHistory_jsonOfHistory h Hn). reflexivity.
  - intros env s st st' h H. apply parseHistory_normal in H.
    split; [exact H | now apply decodeHistory_jsonOfHistory].
  - intros env body st resp st' H Hs. apply handleEdit_run in H.
    inversion H; subst; clear H;
      try (cbn in Hs; discriminate);
      try match goal with
          | Hr : _ \/ _ |- _ =>
              destruct Hr as [[e [=]] | [msg [= ->]]]; cbn in Hs; discriminate
          end.
    match goal with
    | Hp : Prepared _ _ _ _ _ _ _ _ |- _ =>
        pose proof (prepared_frame _ _ _ _ _ _ _ _ Hp) as (_ & Hin & _);
        destruct Hp as (_ & st1 & imgs & ms & Hres & Hparse & Himgs & Hms & ->)
    end.
    exists (setHistory (ps_id session)
              (JSON_stringify env
                 (jsonOfHistory
                    (appendTurn conversation (userTurn body (imgs ++ ms))
                                (modelTurn modelParts))))
              session),
      conversation, (imgs ++ ms), modelParts.
    split; [| split].
    + match goal with
      | Hsess : prompt_sessions (db st') = _ |- _ => rewrite Hsess
      end. now apply in_map.
    + unfold setHistory. now rewrite String.eqb_refl.
    + unfold appendTurn. apply trimHistory_Forall.
      apply Forall_app. split; [apply Forall_app; split |].
      * now apply parseHistory_normal in Hparse.
      * constructor; [| constructor]. unfold normalTurn, userTurn. cbn [parts].
        constructor; [intros i [=] |].
        apply Forall_app. split;
          [eapply imagePayloads_normal | eapply maskParts_normal]; eassumption.
      * constructor; [| constructor]. unfold normalTurn, modelTurn. cbn [parts].
        eapply normalizeParts_normal. eassumption.
Qed.

Lemma history_round_trip_witness :
  parseHistory (Scenario.scenarioEnv 2)
    (Some (Json.stringify
             (jsonOfHistory
                [userTurn Edge.patioEdit [inlinePart "image/png" "PNG"];
                 modelTurn [textPart "Added a patio door."; inlinePart "image/png" "QUJD"]])))
    Scenario.afterPatio
  = (Ok [userTurn Edge.patioEdit [inlinePart "image/png" "PNG"];
         modelTurn [textPart "Added a patio door."; inlinePart "image/png" "QUJD"]],
     Scenario.afterPatio).
Proof.
  apply (proj1 history_round_trip (Scenario.scenarioEnv 1) (Scenario.scenarioEnv 2)).
  - repeat constructor; intros i [= <-]; discriminate.
  - vm_compute. discriminate.
  - vm_compute. reflexivity.
Defined.


(* ================================================================= *)
(** ** Normalising the parts of a turn *)

Lemma mapResult_cons {A B : Type} (f : A -> Result B) (x : A) (l : list A) :
  mapResult f (x :: l)
  = match f x with
    | Throw e => Throw e
    | Ok y => match mapResult f l with
              | Throw e => Throw e
              | Ok ys => Ok (y :: ys)
              end
    end.
Proof. reflexivity. Qed.

Lemma mapResult_throws {A B : Type} (f : A -> Result B) (l : list A) :
  (exists e, mapResult f l = Throw e) <-> exists x, In x l /\ exists e, f x = Throw e.
Proof.
  induction l as [|x l IH].
  - split; [intros (e & [=]) | intros (x & [] & _)].
  - rewrite mapResult_cons. destruct (f x) as [y|e] eqn:Hx.
    + destruct (mapResult f l) as [ys|e'].
      * split; [intros (e & [=]) |].
        intros (z & [<- | Hz] & e & He); [congruence |].
        destruct (proj2 IH (ex_intro _ z (conj Hz (ex_intro _ e He)))) as (e' & [=]).
      * split; [| intros _; now exists e'].
        intros _. destruct (proj1 IH (ex_intro _ e' eq_refl)) as (z & Hz & He).
        exists z. split; [now right | exact He].
    + split; [| intros _; now exists e].
      intros _. exists x. split; [now left | now exists e].
Qed.

Lemma normalizePart_throws (part : json) :
  (exists e, normalizePart part = Throw e) <-> part = JNull.
Proof.
  unfold normalizePart. destruct part; cbn;
    (split; [intros (e & He); try discriminate He; reflexivity
            | intros He; try discriminate He; eexists; reflexivity]).
Qed.

(** [normalizeParts] throws exactly when it is not given an array or the
    array holds a [null]; otherwise it returns one part per element, in
    order.  A part written with the snake_case keys [inline_data] and
    [mime_type] is read exactly as its camelCase form, and an image
    without a mime type is read as ["image/png"]. *)
Theorem normalizeParts_accepts (parts : option json) :
  ((exists e, normalizeParts parts = Throw e) <->
   ((forall items, parts <> Some (JArr items))
    \/ exists items, parts = Some (JArr items) /\ In JNull items))
  /\ (forall ps, normalizeParts parts = Ok ps ->
        exists items, parts = Some (JArr items) /\ List.length ps = List.length items)
  /\ (forall m d,
        normalizePart (JObj [("inline_data", JObj [("mime_type", m); ("data", d)])])
        = normalizePart (JObj [("inlineData", JObj [("mimeType", m); ("data", d)])]))
  /\ (forall d,
        normalizePart (JObj [("inlineData", JObj [("data", d)])])
        = Ok {| text := None;
                inlineData := Some {| mimeType := JStr "image/png"; data := Some d |};
                thought := None |}).
Proof.
  split; [| split; [| split]].
  - unfold normalizeParts. destruct parts as [[| | | |items|]|];
      try (split; [intros _; left; intros items; discriminate
                  | intros _; eexists; reflexivity]).
    rewrite mapResult_throws. split.
    + intros (x & Hx & He). apply normalizePart_throws in He. subst x.
      right. now exists items.
    + intros [Hno | (items' & [= <-] & Hin)]; [now destruct (Hno items) |].
      exists JNull. split; [exact Hin |]. now apply normalizePart_throws.
  - unfold normalizeParts. destruct parts as [[| | | |items|]|]; try discriminate.
    intros ps H. exists items. split; [reflexivity |]. now apply mapResult_length in H.
  - intros m d. destruct m; reflexivity.
  - intros d. reflexivity.
Qed.

Lemma normalizeParts_accepts_witness :
  exists items,
    Some Scenario.oracleParts = Some (JArr items) /\ 2 = List.length items.
Proof.
  apply (proj1 (proj2 (normalizeParts_accepts (Some Scenario.oracleParts)))
           [textPart "Added a patio door."; inlinePart "image/png" "QUJD"]).
  reflexivity.
Defined.

(* ================================================================= *)
(** ** An edit and the latest render of its angle *)

Lemma scanKeywords_In (lower : string) (table : list (string * string)) (a : string) :
  scanKeywords lower table = Some a -> In a (map snd table).
Proof.
  induction table as [|[k l] table IH]; cbn; [discriminate |].
  destruct (includes lower k); [intros [= <-]; now left | intros H; right; now apply IH].
Qed.

Lemma inferCameraAngle_nonempty (prompt : string) (hint : option string) (a : string) :
  inferCameraAngle prompt hint = Some a -> truthy a = true.
Proof.
  assert (Hscan : scanKeywords (toLowerCase prompt) CAMERA_KEYWORDS = Some a -> truthy a = true).
  { intros H. apply scanKeywords_In in H. cbn in H.
    repeat (destruct H as [<- | H]; [reflexivity |]). destruct H. }
  unfold inferCameraAngle. destruct hint as [e|]; [| exact Hscan].
  destruct (truthy e); cbn [andb]; [| exact Hscan].
  destruct (truthy (trim e)) eqn:Ht; [| exact Hscan].
  now intros [= <-].
Qed.

(** After a successful edit whose angle label is [a], the latest-render
    query for [a] never answers 400 or 404: it answers 200 with a version
    that carries the label; and when every earlier version with that label
    has a strictly smaller creation time than the edit, the answer is the
    version the edit has just created, under the id and the URL the edit
    returned. *)
Theorem edited_angle_is_served (env : Env) (body : EditRequestBody) (st st' : State)
    (resp : Response) (a : string) :
  handleEdit env (Some body) st = (Ok resp, st') ->
  status resp = 200 ->
  inferCameraAngle (edit_prompt body) (camera_hint body) = Some a ->
  (exists r, handleRenderAngle (db st') (Some a) r)
  /\ (forall r, handleRenderAngle (db st') (Some a) r ->
        exists row,
          In row (image_versions (db st')) /\ angleOf row = Some a
          /\ r = jsonResponse (BRender (iv_id row) (iv_image_url row)
                                       (iv_diff_summary row) (iv_metadata row)) 200)
  /\ ((forall u, In u (image_versions (db st)) -> angleOf u = Some a ->
                 iv_created_at u < CURRENT_TIMESTAMP env) ->
      forall r, handleRenderAngle (db st') (Some a) r ->
        exists imageId versionId url summary followup ds md,
          resp = jsonResponse (BEdited imageId versionId url summary followup) 200
          /\ r = jsonResponse (BRender versionId url ds md) 200).
Proof.
  intros H Hs Ha. pose proof (inferCameraAngle_nonempty _ _ _ Ha) as Hta.
  apply handleEdit_run in H.
  inversion H; subst; clear H;
    try (cbn in Hs; discriminate);
    try match goal with
        | Hr : _ \/ _ |- _ =>
            destruct Hr as [[e [=]] | [msg [= ->]]]; cbn in Hs; discriminate
        end.
  match goal with
  | Hp : Prepared _ _ _ _ _ _ _ _ |- _ =>
      apply prepared_frame in Hp as ((Hv & _) & _ & _)
  end.
  match goal with
  | Hrows : image_versions (db st') = _ |- _ => rename Hrows into Hrows'
  end.
  assert (Hangle : angleOf row = Some a).
  { unfold angleOf.
    match goal with Hmd : iv_metadata row = Some _ |- _ => rewrite Hmd end. congruence. }
  assert (Hnew : In row (renderAngleRows (db st') a)).
  { apply renderAngleRows_In. split; [| exact Hangle].
    rewrite Hrows'. apply in_or_app. right. now left. }
  assert (Hserved : forall r, handleRenderAngle (db st') (Some a) r ->
            exists row0,
              In row0 (latestRows (renderAngleRows (db st') a))
              /\ r = jsonResponse (BRender (iv_id row0) (iv_image_url row0)
                                           (iv_diff_summary row0) (iv_metadata row0)) 200).
  { intros r Hr. inversion Hr; subst.
    - unfold truthyOpt in *. congruence.
    - match goal with Hnone : renderAngleRows _ _ = [] |- _ => rewrite Hnone in Hnew end.
      destruct Hnew.
    - eauto. }
  split; [| split].
  - destruct (latest_exists (renderAngleRows (db st') a)) as (result & Hres).
    + intros Hnil. rewrite Hnil in Hnew. destruct Hnew.
    + eexists. apply RenderAngle_first; eassumption.
  - intros r Hr. destruct (Hserved r Hr) as (row0 & Hin0 & ->).
    apply latestRows_In in Hin0 as [Hin0 _].
    apply renderAngleRows_In in Hin0 as [Hin0 Hm].
    exists row0. split; [exact Hin0 | split; [exact Hm | reflexivity]].
  - intros Hold r Hr. destruct (Hserved r Hr) as (row0 & Hin0 & ->).
    assert (row0 = row) as ->.
    { apply latestRows_In in Hin0 as [Hin0 Hall]. specialize (Hall row Hnew).
      apply renderAngleRows_In in Hin0 as [Hin0 Hm]. rewrite Hrows' in Hin0.
      apply in_app_or in Hin0 as [Hin0 | [<- | []]]; [| reflexivity].
      rewrite Hv in Hin0. specialize (Hold row0 Hin0 Hm).
      match goal with Hc : iv_created_at row = _ |- _ => rewrite Hc in Hall end. lia. }
    do 7 eexists. split; [reflexivity |].
    match goal with Hurl : iv_image_url row = _ |- _ => rewrite Hurl end.
    reflexivity.
Qed.

Lemma edited_angle_is_served_witness :
  exists r, handleRenderAngle (db Scenario.afterPatio) (Some "patio") r.
Proof.
  eapply (edited_angle_is_served (Scenario.scenarioEnv 1) Edge.patioEdit
            Scenario.afterUpload Scenario.afterPatio).
  - vm_compute. reflexivity.
  - reflexivity.
  - vm_compute. reflexivity.
Defined.


(* ================================================================= *)
(** ** What the oracle is sent *)







(* ================================================================= *)
(** ** Hashes and URLs *)

Lemma hashString_hexOfBytes (env : Env) (input : string) :
  hashString env input = hexOfBytes (sha256 env input).
Proof.
  unfold hashString.
  assert (H : forall l acc,
             fold_left (fun hex byte => hex +++ hexByte byte) l acc = acc +++ hexOfBytes l).
  { induction l as [|b l IH]; intros acc; cbn [fold_left hexOfBytes fold_right].
    - clear. induction acc as [|c acc IH]; cbn; [reflexivity | now rewrite <- IH].
    - rewrite IH. clear. induction acc as [|c acc IH]; cbn; [reflexivity | now rewrite IH]. }
  now rewrite H.
Qed.

Lemma hexDigit_code (n : nat) :
  n < 16 -> code (hexDigit n) = if n <? 10 then 48 + n else 87 + n.
Proof.
  intros Hn. unfold hexDigit, code.
  destruct (Nat.ltb_spec n 10); apply nat_ascii_embedding; lia.
Qed.

Lemma hexDigit_inj (n m : nat) : n < 16 -> m < 16 -> hexDigit n = hexDigit m -> n = m.
Proof.
  intros Hn Hm H. apply (f_equal code) in H. rewrite !hexDigit_code in H by assumption.
  destruct (Nat.ltb_spec n 10), (Nat.ltb_spec m 10); lia.
Qed.

Lemma hexByte_inj (a b : nat) : a < 256 -> b < 256 -> hexByte a = hexByte b -> a = b.
Proof.
  intros Ha Hb H. unfold hexByte in H. injection H as H1 H2.
  assert (a / 16 < 16) by (apply Nat.Div0.div_lt_upper_bound; lia).
  assert (b / 16 < 16) by (apply Nat.Div0.div_lt_upper_bound; lia).
  assert (a mod 16 < 16) by (apply Nat.mod_upper_bound; lia).
  assert (b mod 16 < 16) by (apply Nat.mod_upper_bound; lia).
  rewrite (Nat.div_mod_eq a 16), (Nat.div_mod_eq b 16).
  f_equal; [f_equal |]; apply hexDigit_inj; assumption.
Qed.

Lemma hexOfBytes_cons (b : nat) (l : list nat) :
  hexOfBytes (b :: l)
  = String (hexDigit (b / 16)) (String (hexDigit (b mod 16)) (hexOfBytes l)).
Proof. reflexivity. Qed.

Lemma hexOfBytes_inj (l l' : list nat) :
  Forall (fun x => x < 256) l -> Forall (fun x => x < 256) l' ->
  hexOfBytes l = hexOfBytes l' -> l = l'.
Proof.
  intros Hl. revert l'. induction Hl as [|a l Ha _ IH]; intros l' Hl' H.
  - destruct Hl' as [|b l' _ _]; [reflexivity | discriminate H].
  - destruct Hl' as [|b l' Hb Hl']; [discriminate H |].
    rewrite !hexOfBytes_cons in H. injection H as H1 H2 H3. f_equal.
    + apply hexByte_inj; [assumption | assumption |]. unfold hexByte.
      f_equal; [exact H1 | f_equal; exact H2].
    + now apply IH.
Qed.

Lemma hexOfBytes_length (l : list nat) : String.length (hexOfBytes l) = 2 * List.length l.
Proof.
  induction l as [|a l IH]; [reflexivity |].
  rewrite hexOfBytes_cons. cbn [String.length List.length]. rewrite IH. lia.
Qed.

Lemma hexDigit_lower (n : nat) : n < 16 -> isLowerHex (hexDigit n) = true.
Proof.
  intros Hn. unfold isLowerHex. rewrite hexDigit_code by assumption.
  destruct (Nat.ltb_spec n 10).
  - replace (48 <=? 48 + n) with true by (symmetry; apply Nat.leb_le; lia).
    replace (48 + n <=? 57) with true by (symmetry; apply Nat.leb_le; lia). reflexivity.
  - replace (97 <=? 87 + n) with true by (symmetry; apply Nat.leb_le; lia).
    replace (87 + n <=? 102) with true by (symmetry; apply Nat.leb_le; lia).
    now rewrite orb_true_r.
Qed.

Lemma hexOfBytes_lower (l : list nat) :
  Forall (fun x => x < 256) l -> allChars isLowerHex (hexOfBytes l) = true.
Proof.
  induction 1 as [|a l Ha _ IH]; [reflexivity |].
  rewrite hexOfBytes_cons. cbn [allChars]. rewrite IH.
  rewrite !hexDigit_lower; [reflexivity | apply Nat.mod_upper_bound; lia
                           | apply Nat.Div0.div_lt_upper_bound; lia].
Qed.

(** [hashString] writes the digest in lower-case hexadecimal, exactly two
    digits per byte (64 characters for the 32 bytes of SHA-256), so two
    inputs get the same [base_prompt_hash] exactly when their digests are
    the same. *)
Theorem hashString_hex (env : Env) (a b : string) :
  Forall (fun x => x < 256) (sha256 env a) ->
  Forall (fun x => x < 256) (sha256 env b) ->
  String.length (hashString env a) = 2 * List.length (sha256 env a)
  /\ allChars isLowerHex (hashString env a) = true
  /\ (hashString env a = hashString env b <-> sha256 env a = sha256 env b).
Proof.
  intros Ha Hb. rewrite !hashString_hexOfBytes.
  split; [apply hexOfBytes_length | split; [now apply hexOfBytes_lower |]].
  split; [now apply hexOfBytes_inj | now intros ->].
Qed.

Lemma hashString_hex_witness :
  String.length (hashString (Scenario.scenarioEnv 0) "modern kitchen") = 64.
Proof.
  apply (hashString_hex (Scenario.scenarioEnv 0) "modern kitchen" "").
  - vm_compute. repeat (constructor; [lia |]). constructor.
  - vm_compute. repeat (constructor; [lia |]). constructor.
Defined.

Lemma stripTrailingSlash_slash (u : string) : stripTrailingSlash (u +++ "/") = u.
Proof.
  induction u as [|c u IH]; [reflexivity |].
  destruct u as [|c' u]; [reflexivity |].
  cbn [String.append] in *.
  change (stripTrailingSlash (String c (String c' (u +++ "/"))))
    with (String c (stripTrailingSlash (String c' (u +++ "/")))).
  now rewrite IH.
Qed.

Lemma stripTrailingSlash_none (u : string) :
  (forall base, u <> base +++ "/") -> stripTrailingSlash u = u.
Proof.
  induction u as [|c u IH]; intros H; [reflexivity |].
  destruct u as [|c' u].
  - cbn. destruct (Ascii.eqb_spec c "/") as [-> | _]; [| reflexivity].
    now destruct (H EmptyString).
  - change (stripTrailingSlash (String c (String c' u)))
      with (String c (stripTrailingSlash (String c' u))).
    f_equal. apply IH. intros base Hb. apply (H (String c base)).
    cbn [String.append]. now rewrite Hb.
Qed.

(** The public URL of an image is the delivery URL, the image id and
    [/public], joined by single slashes, whether or not the configured
    delivery URL ends with a slash; only one trailing slash is dropped. *)
Theorem publicUrl_trailing_slash (env : Env) (imageId : string) :
  (forall base, CF_IMAGES_DELIVERY_URL env = base +++ "/" ->
                publicUrl env imageId = base +++ "/" +++ imageId +++ "/public")
  /\ ((forall base, CF_IMAGES_DELIVERY_URL env <> base +++ "/") ->
      publicUrl env imageId = CF_IMAGES_DELIVERY_URL env +++ "/" +++ imageId +++ "/public").
Proof.
  unfold publicUrl. split.
  - intros base ->. now rewrite stripTrailingSlash_slash.
  - intros H. now rewrite stripTrailingSlash_none.
Qed.

Lemma publicUrl_trailing_slash_witness :
  publicUrl (Scenario.scenarioEnv 0) "img-0" = "https://imagedelivery.net/acct/img-0/public".
Proof.
  apply (proj1 (publicUrl_trailing_slash (Scenario.scenarioEnv 0) "img-0")
           "https://imagedelivery.net/acct").
  reflexivity.
Defined.


(* ================================================================= *)
(** ** Base64 *)

Lemma decodeChar_encodeChar (n : nat) :
  n < 64 -> Base64.decodeChar (Base64.encodeChar n) = Some n.
Proof.
  intros Hn. do 64 (destruct n as [|n]; [vm_compute; reflexivity |]). lia.
Qed.

Lemma encodeChar_not_pad (n : nat) :
  n < 64 -> Ascii.eqb (Base64.encodeChar n) Base64.pad = false.
Proof.
  intros Hn. do 64 (destruct n as [|n]; [vm_compute; reflexivity |]). lia.
Qed.

Lemma encodeChar_not_space (n : nat) :
  n < 64 -> isWhiteSpace (Base64.encodeChar n) = false.
Proof.
  intros Hn. do 64 (destruct n as [|n]; [vm_compute; reflexivity |]). lia.
Qed.

Lemma code_bound (c : ascii) : code c < 256.
Proof. apply nat_ascii_bounded. Qed.

Lemma divmod_pack (a b k : nat) :
  b < k -> (a * k + b) / k = a /\ (a * k + b) mod k = b.
Proof.
  intros Hb. split.
  - symmetry. apply (Nat.div_unique _ k a b); lia.
  - symmetry. apply (Nat.mod_unique _ k a b); lia.
Qed.

Lemma sextets (x y z : nat) :
  x < 256 -> y < 256 -> z < 256 ->
  x / 4 < 64 /\ (x mod 4) * 16 + y / 16 < 64 /\ (y mod 16) * 4 + z / 64 < 64 /\ z mod 64 < 64
  /\ (x mod 4) * 16 < 64 /\ (y mod 16) * 4 < 64
  /\ (x / 4) * 4 + ((x mod 4) * 16 + y / 16) / 16 = x
  /\ (((x mod 4) * 16 + y / 16) mod 16) * 16 + ((y mod 16) * 4 + z / 64) / 4 = y
  /\ (((y mod 16) * 4 + z / 64) mod 4) * 64 + z mod 64 = z
  /\ (x / 4) * 4 + ((x mod 4) * 16) / 16 = x
  /\ (((x mod 4) * 16 + y / 16) mod 16) * 16 + ((y mod 16) * 4) / 4 = y.
Proof.
  intros Hx Hy Hz.
  pose proof (Nat.div_mod_eq x 4) as Ex. pose proof (Nat.mod_upper_bound x 4) as Bx.
  pose proof (Nat.div_mod_eq y 16) as Ey. pose proof (Nat.mod_upper_bound y 16) as By.
  pose proof (Nat.div_mod_eq z 64) as Ez. pose proof (Nat.mod_upper_bound z 64) as Bz.
  generalize dependent (x / 4). generalize dependent (x mod 4).
  generalize dependent (y / 16). generalize dependent (y mod 16).
  generalize dependent (z / 64). generalize dependent (z mod 64).
  intros rz Bz qz Ez ry By qy Ey rx Bx qx Ex.
  assert (qy < 16) by lia. assert (qz < 4) by lia.
  destruct (divmod_pack rx qy 16) as [-> ->]; [assumption |].
  destruct (divmod_pack ry qz 4) as [-> ->]; [assumption |].
  destruct (divmod_pack rx 0 16) as [D1 _]; [lia |]. rewrite Nat.add_0_r in D1. rewrite D1.
  destruct (divmod_pack ry 0 4) as [D2 _]; [lia |]. rewrite Nat.add_0_r in D2. rewrite D2.
  repeat split; lia.
Qed.

Lemma btoa_shape (s : string) :
  s = EmptyString
  \/ exists x y z w t, Base64.btoa s = String x (String y (String z (String w t))).
Proof.
  destruct s as [|a [|b [|c r]]]; [now left | right ..]; do 5 eexists; reflexivity.
Qed.

Lemma dropPadding_group (e1 e2 e3 e4 : ascii) (t : string) :
  Ascii.eqb e4 Base64.pad = false ->
  (t = EmptyString \/ exists x y z w u, t = String x (String y (String z (String w u)))) ->
  Base64.dropPadding (String e1 (String e2 (String e3 (String e4 t))))
  = String e1 (String e2 (String e3 (String e4 (Base64.dropPadding t)))).
Proof.
  intros He [-> | (x & y & z & w & u & ->)].
  - cbn [Base64.dropPadding]. now rewrite He.
  - reflexivity.
Qed.

Lemma dropPadding_one (e1 e2 e3 : ascii) :
  Ascii.eqb e3 Base64.pad = false ->
  Base64.dropPadding (String e1 (String e2 (String e3 (String Base64.pad EmptyString))))
  = String e1 (String e2 (String e3 EmptyString)).
Proof. intros He. cbn [Base64.dropPadding]. rewrite He. reflexivity. Qed.

Lemma decodeUnpadded_group (a b c d : ascii) (rest : string) :
  Base64.decodeUnpadded (String a (String b (String c (String d rest))))
  = match Base64.decodeChar a, Base64.decodeChar b, Base64.decodeChar c,
          Base64.decodeChar d, Base64.decodeUnpadded rest with
    | Some p, Some q, Some r, Some t, Some tail =>
        Some (String (ascii_of_nat (p * 4 + q / 16))
                (String (ascii_of_nat ((q mod 16) * 16 + r / 4))
                   (String (ascii_of_nat ((r mod 4) * 64 + t)) tail)))
    | _, _, _, _, _ => None
    end.
Proof. reflexivity. Qed.

Lemma btoa_group (a b c : ascii) (rest : string) :
  Base64.btoa (String a (String b (String c rest)))
  = String (Base64.encodeChar (code a / 4))
      (String (Base64.encodeChar ((code a mod 4) * 16 + code b / 16))
         (String (Base64.encodeChar ((code b mod 16) * 4 + code c / 64))
            (String (Base64.encodeChar (code c mod 64)) (Base64.btoa rest)))).
Proof. reflexivity. Qed.

Lemma removeWhiteSpace_cons (c : ascii) (s : string) :
  isWhiteSpace c = false -> removeWhiteSpace (String c s) = String c (removeWhiteSpace s).
Proof. intros H. cbn. now rewrite H. Qed.

Lemma code_ascii (a : ascii) (n : nat) : n = code a -> ascii_of_nat n = a.
Proof. intros ->. apply ascii_nat_embedding. Qed.

Lemma btoa_round_trip_aux (n : nat) :
  forall s, String.length s <= n ->
    Base64.decodeUnpadded (Base64.dropPadding (Base64.btoa s)) = Some s
    /\ String.length (Base64.btoa s) mod 4 = 0
    /\ removeWhiteSpace (Base64.btoa s) = Base64.btoa s.
Proof.
  induction n as [|n IH]; intros s Hlen.
  - destruct s; [repeat split | cbn in Hlen; lia].
  - destruct s as [|a [|b [|c rest]]].
    + repeat split.
    + destruct (sextets (code a) 0 0 (code_bound a)) as
        (H1 & _ & _ & _ & H5 & _ & _ & _ & _ & E & _); [lia | lia |].
      change (Base64.btoa (String a EmptyString))
        with (String (Base64.encodeChar (code a / 4))
                (String (Base64.encodeChar ((code a mod 4) * 16))
                   (String Base64.pad (String Base64.pad EmptyString)))).
      split; [| split].
      * change (Base64.dropPadding _)
          with (String (Base64.encodeChar (code a / 4))
                  (String (Base64.encodeChar ((code a mod 4) * 16)) EmptyString)).
        change (Base64.decodeUnpadded _)
          with (match Base64.decodeChar (Base64.encodeChar (code a / 4)),
                      Base64.decodeChar (Base64.encodeChar ((code a mod 4) * 16)) with
                | Some p, Some q => Some (String (ascii_of_nat (p * 4 + q / 16)) EmptyString)
                | _, _ => None
                end).
        rewrite !decodeChar_encodeChar by assumption.
        f_equal. f_equal. now apply code_ascii.
      * reflexivity.
      * rewrite !removeWhiteSpace_cons; auto using encodeChar_not_space.
    + destruct (sextets (code a) (code b) 0 (code_bound a) (code_bound b)) as
        (H1 & H2 & _ & _ & _ & H6 & E1 & _ & _ & _ & E2); [lia |].
      change (Base64.btoa (String a (String b EmptyString)))
        with (String (Base64.encodeChar (code a / 4))
                (String (Base64.encodeChar ((code a mod 4) * 16 + code b / 16))
                   (String (Base64.encodeChar ((code b mod 16) * 4))
                      (String Base64.pad EmptyString)))).
      split; [| split].
      * rewrite dropPadding_one by (now apply encodeChar_not_pad).
        change (Base64.decodeUnpadded _)
          with (match Base64.decodeChar (Base64.encodeChar (code a / 4)),
                      Base64.decodeChar (Base64.encodeChar ((code a mod 4) * 16 + code b / 16)),
                      Base64.decodeChar (Base64.encodeChar ((code b mod 16) * 4)) with
                | Some p, Some q, Some r =>
                    Some (String (ascii_of_nat (p * 4 + q / 16))
                            (String (ascii_of_nat ((q mod 16) * 16 + r / 4)) EmptyString))
                | _, _, _ => None
                end).
        rewrite !decodeChar_encodeChar by assumption.
        f_equal. f_equal; [now apply code_ascii | f_equal; now apply code_ascii].
      * reflexivity.
      * rewrite !removeWhiteSpace_cons; auto using encodeChar_not_space.
    + destruct (sextets (code a) (code b) (code c) (code_bound a) (code_bound b) (code_bound c))
        as (H1 & H2 & H3 & H4 & _ & _ & E1 & E2 & E3 & _).
      destruct (IH rest) as (IHd & IHl & IHw); [cbn in Hlen; lia |].
      rewrite btoa_group. split; [| split].
      * rewrite dropPadding_group;
          [| now apply encodeChar_not_pad
           | destruct (btoa_shape rest) as [-> | Hs]; [now left | now right] ].
        rewrite decodeUnpadded_group, !decodeChar_encodeChar, IHd by assumption.
        f_equal. f_equal; [now apply code_ascii |].
        f_equal; [now apply code_ascii |]. f_equal. now apply code_ascii.
      * cbn [String.length].
        replace (S (S (S (S (String.length (Base64.btoa rest))))))
          with (String.length (Base64.btoa rest) + 1 * 4) by lia.
        now rewrite Nat.Div0.mod_add.
      * rewrite !removeWhiteSpace_cons; auto using encodeChar_not_space.
        now rewrite IHw.
Qed.

Lemma atob_btoa (s : string) : Base64.atob (Base64.btoa s) = Some s.
Proof.
  destruct (btoa_round_trip_aux (String.length s) s (Nat.le_refl _)) as (Hd & Hl & _).
  unfold Base64.atob. now rewrite Hl.
Qed.

Lemma btoa_no_space (s : string) : removeWhiteSpace (Base64.btoa s) = Base64.btoa s.
Proof. now destruct (btoa_round_trip_aux (String.length s) s (Nat.le_refl _)) as (_ & _ & H). Qed.

Lemma removeWhiteSpace_idem (s : string) :
  removeWhiteSpace (removeWhiteSpace s) = removeWhiteSpace s.
Proof.
  induction s as [|c s IH]; [reflexivity |]. cbn [removeWhiteSpace].
  destruct (isWhiteSpace c) eqn:Hc; [exact IH |].
  now rewrite removeWhiteSpace_cons, IH.
Qed.

(** With a platform [btoa] that is RFC 4648 base64 and a platform [atob]
    that inverts it, the bytes of an image survive the trip the Worker
    sends them on: what [fetchImageAsBase64] produces from a CDN response,
    [decodeBase64] turns back into exactly the bytes the CDN returned (the
    whitespace [decodeBase64] removes first is never part of an encoding).
    [decodeBase64] ignores whitespace in its input, and throws when the
    data is not a string. *)
Theorem image_bytes_round_trip (env : Env) :
  (forall s, btoa env s = Base64.btoa s) ->
  (forall s, atob env (btoa env s) = Some s) ->
  (forall imageId buffer contentType,
      cdn_fetch env (publicUrl env imageId) = Some (buffer, contentType) ->
      exists base64 mime,
        fetchImageAsBase64 env imageId = Ok (base64, mime)
        /\ decodeBase64 env (Some (JStr base64)) = Ok buffer)
  /\ (forall s, decodeBase64 env (Some (JStr s))
                = decodeBase64 env (Some (JStr (removeWhiteSpace s))))
  /\ (forall d, (forall s, d <> Some (JStr s)) -> decodeBase64 env d = Throw TypeError).
Proof.
  intros Hb Ha. split; [| split].
  - intros imageId buffer contentType Hfetch.
    unfold fetchImageAsBase64. rewrite Hfetch. do 2 eexists. split; [reflexivity |].
    unfold decodeBase64. rewrite Hb, btoa_no_space, <- Hb. now rewrite Ha.
  - intros s. unfold decodeBase64. now rewrite removeWhiteSpace_idem.
  - intros d Hd. unfold decodeBase64. destruct d as [[]|]; try reflexivity.
    now destruct (Hd s).
Qed.

Lemma image_bytes_round_trip_witness :
  exists base64 mime,
    fetchImageAsBase64 Codec.env "img-0" = Ok (base64, mime)
    /\ decodeBase64 Codec.env (Some (JStr base64)) = Ok "PNG".
Proof.
  apply (proj1 (image_bytes_round_trip Codec.env (fun s => eq_refl) atob_btoa)
           "img-0" "PNG" (Some "image/png")).
  reflexivity.
Defined.


(* ================================================================= *)
(** ** Metadata and columns *)

Ltac forget_prefix :=
  repeat match goal with
         | Hr : resolveSession _ _ _ = _ |- _ =>
             apply resolve_frame in Hr; destruct Hr as [Hr _]
         | Hp : parseHistory _ _ _ = _ |- _ =>
             apply parseHistory_quiet in Hp; destruct Hp as (_ & Hp & _)
         end.

Ltac solve_agrees :=
  unfold metadataAgrees; cbn; do 2 eexists;
  repeat split; try reflexivity;
  [ unfold publicUrl; eexists; reflexivity | .. ];
  try (intros ? ?; assumption);
  try (intros t Ht; cbn; destruct (truthy (summarizeParts _)); congruence).

Lemma handleEdit_rows (env : Env) (request : option EditRequestBody) (st st' : State)
    (r : Result Response) :
  handleEdit env request st = (r, st') ->
  forall row, In row (image_versions (db st')) ->
              In row (image_versions (db st)) \/ metadataAgrees row.
Proof.
  destruct request as [body|]; [| intros [= _ <-]; auto].
  unfold handleEdit, generateImageFromGemini, uploadToCloudflareImages,
    insertVersion, saveHistory.
  unfold_monad. intros H. cbn in H.
  repeat (step_in H; try discriminate).
  all: repeat match goal with p : (_ * _)%type |- _ => destruct p end;
       cbn [fst snd] in *; subst; injection H as <- <-.
  all: intros row Hin; cbn in Hin; forget_prefix.
  all: try (left; congruence).
  all: apply in_app_or in Hin as [Hin | [<- | []]]; [left; congruence | right].
  all: solve_agrees.
Qed.

Lemma handleUpload_rows (env : Env) (request : UploadRequest) (st st' : State)
    (r : Result Response) :
  handleUpload env request st = (r, st') ->
  forall row, In row (image_versions (db st')) ->
              In row (image_versions (db st)) \/ metadataAgrees row.
Proof.
  unfold handleUpload, uploadToCloudflareImages, insertVersion, insertSession.
  unfold_monad. intros H. cbn in H.
  repeat (step_in H; try discriminate).
  all: injection H as <- <-.
  all: intros row Hin; cbn in Hin.
  all: try (left; exact Hin).
  all: apply in_app_or in Hin as [Hin | [<- | []]]; [left; exact Hin | right].
  all: unfold metadataAgrees; cbn; do 2 eexists;
       repeat split; try reflexivity;
       [ unfold publicUrl; eexists; reflexivity | .. ];
       try discriminate.
  all: cbn; intros r0 Hr0; first [exact Hr0 | discriminate Hr0].
Qed.

Lemma metadata_invariant (st : State) :
  reachable st -> forall row, In row (image_versions (db st)) -> metadataAgrees row.
Proof.
  induction 1 as [|st st' _ IH Hstep]; [intros row [] |].
  intros row Hin.
  assert (Hrows : In row (image_versions (db st)) \/ metadataAgrees row).
  { destruct Hstep as [env request st0 | env request st0].
    - eapply handleUpload_rows; [apply surjective_pairing | exact Hin].
    - eapply handleEdit_rows; [apply surjective_pairing | exact Hin]. }
  destruct Hrows as [Hold | Hnew]; [now apply IH | exact Hnew].
Qed.

(** In every reachable state the metadata document of every version agrees
    with the columns of its row: it names the same session, the same
    parent (twice, as [parent_id] and [previous_version_id]), the same
    model and edit instruction, an aspect ratio and a diff summary only if
    the columns hold the same ones, and the image id that the row's URL
    ends with. *)
Theorem reachable_metadata_agrees (st : State) :
  reachable st -> forall row, In row (image_versions (db st)) -> metadataAgrees row.
Proof. exact (metadata_invariant st). Qed.

Lemma reachable_metadata_agrees_witness :
  Forall metadataAgrees (image_versions (db Scenario.afterPatio)).
Proof.
  apply Forall_forall.
  exact (reachable_metadata_agrees Scenario.afterPatio scenario_reachable).
Defined.


(* ================================================================= *)
(** ** The dispatcher *)

Lemma headerEntries_set_same (name value : string) (headers : list (string * string)) :
  headerEntries name (headersSet name value headers) = [(name, value)].
Proof.
  unfold headerEntries. induction headers as [|[k v] rest IH]; cbn.
  - now rewrite String.eqb_refl.
  - destruct (String.eqb_spec k name) as [-> | Hk]; cbn.
    + rewrite String.eqb_refl. f_equal.
      clear. induction rest as [|[k v] rest IH]; [reflexivity |]. cbn.
      destruct (String.eqb_spec k name); cbn; [exact IH |].
      destruct (String.eqb_spec k name); [contradiction | exact IH].
    + destruct (String.eqb_spec k name); [contradiction | exact IH].
Qed.

Lemma headerEntries_set_other (k name value : string) (headers : list (string * string)) :
  k <> name ->
  headerEntries k (headersSet name value headers) = headerEntries k headers.
Proof.
  intros Hk. unfold headerEntries. induction headers as [|[k' v] rest IH]; cbn.
  - destruct (String.eqb_spec name k); [congruence | reflexivity].
  - destruct (String.eqb_spec k' name) as [-> | Hk']; cbn.
    + destruct (String.eqb_spec name k); [congruence |].
      clear IH. induction rest as [|[k2 v2] rest IH]; [reflexivity |]. cbn.
      destruct (String.eqb_spec k2 name) as [-> | H2]; cbn.
      * destruct (String.eqb_spec name k); [congruence | exact IH].
      * destruct (String.eqb_spec k2 k); [f_equal |]; exact IH.
    + destruct (String.eqb_spec k' k); [f_equal |]; exact IH.
Qed.

Lemma withCors_entries (response : HttpResponse) :
  http_status (withCors response) = http_status response
  /\ http_body (withCors response) = http_body response
  /\ (forall name value,
        In (name, value) OK_HEADERS ->
        headerEntries (toLowerCase name) (http_headers (withCors response))
        = [(toLowerCase name, value)])
  /\ (forall name,
        ~ In name corsNames ->
        headerEntries name (http_headers (withCors response))
        = headerEntries name (http_headers response)).
Proof.
  split; [reflexivity | split; [reflexivity |]].
  unfold withCors. cbn [http_headers OK_HEADERS fold_left fst snd].
  set (h := http_headers response).
  change (toLowerCase "Access-Control-Allow-Origin") with "access-control-allow-origin".
  change (toLowerCase "Access-Control-Allow-Headers") with "access-control-allow-headers".
  change (toLowerCase "Access-Control-Allow-Methods") with "access-control-allow-methods".
  split.
  - intros name value [[= <- <-] | [[= <- <-] | [[= <- <-] | []]]].
    + change (toLowerCase "Access-Control-Allow-Origin") with "access-control-allow-origin".
      rewrite !headerEntries_set_other by discriminate. apply headerEntries_set_same.
    + change (toLowerCase "Access-Control-Allow-Headers") with "access-control-allow-headers".
      rewrite headerEntries_set_other by discriminate. apply headerEntries_set_same.
    + apply headerEntries_set_same.
  - intros name Hname. cbn in Hname.
    rewrite !headerEntries_set_other; [reflexivity | intuition congruence ..].
Qed.


(** [withCors] keeps the status and the body, leaves exactly one entry for
    each of the three CORS headers, with the value of [OK_HEADERS], whatever
    the response carried under those names before, and keeps every other
    header as it was. *)
Theorem withCors_headers (response : HttpResponse) :
  http_status (withCors response) = http_status response
  /\ http_body (withCors response) = http_body response
  /\ (forall name value,
        In (name, value) OK_HEADERS ->
        headerEntries (toLowerCase name) (http_headers (withCors response))
        = [(toLowerCase name, value)])
  /\ (forall name,
        ~ In name corsNames ->
        headerEntries name (http_headers (withCors response))
        = headerEntries name (http_headers response)).
Proof. exact (withCors_entries response). Qed.

Lemma withCors_headers_witness :
  headerEntries "content-type"
    (http_headers (withCors (httpJson (JsonBody (BError "Not found")) 404)))
  = [("content-type", "application/json")].
Proof.
  apply (proj2 (proj2 (proj2 (withCors_headers
                                (httpJson (JsonBody (BError "Not found")) 404))))
           "content-type").
  cbn. intuition discriminate.
Defined.

Lemma handleUpload_status (env : Env) (request : UploadRequest) (st st' : State)
    (resp : Response) :
  handleUpload env request st = (Ok resp, st') -> In (status resp) [200; 400; 415].
Proof.
  intros H. apply handleUpload_run in H. inversion H; subst; cbn; auto.
Qed.

Lemma handleEdit_status (env : Env) (request : option EditRequestBody) (st st' : State)
    (resp : Response) :
  handleEdit env request st = (Ok resp, st') -> In (status resp) [200; 400; 502].
Proof.
  destruct request as [body|]; [| intros [= <- _]; cbn; auto].
  intros H. apply handleEdit_run in H. inversion H; subst; cbn; auto.
  match goal with
  | Hu : _ \/ _ |- _ => destruct Hu as [(e & [=]) | (msg & [= ->])]
  end. cbn. auto.
Qed.

Lemma handleRenderAngle_total (d : DB) (angleId : option string) :
  exists r, handleRenderAngle d angleId r.
Proof.
  destruct (truthyOpt angleId) eqn:Ht.
  - destruct angleId as [a|]; [| discriminate Ht]. unfold truthyOpt in Ht.
    destruct (renderAngleRows d a) as [|v rows] eqn:Hrows.
    + eexists. now apply RenderAngle_none.
    + destruct (latest_exists (renderAngleRows d a)) as (result & Hres);
        [rewrite Hrows; discriminate |].
      eexists. apply RenderAngle_first; eassumption.
  - eexists. now apply RenderAngle_required.
Qed.

Lemma handleHistory_total (d : DB) (id : string) : exists r, handleHistory d id r.
Proof. eexists. apply History_rows. apply historyRows_exists. Qed.

Lemma handleView_total (d : DB) (id : string) : exists r, handleView d id r.
Proof.
  destruct (filter (viewMatches id) (image_versions d)) as [|v rows] eqn:Hrows.
  - eexists. now apply View_none.
  - eexists. apply (View_row d id v). rewrite Hrows. now left.
Qed.

Lemma dispatch_total (decodeURIComponent : string -> Result string) (env : Env)
    (req : Request) (st : State) :
  route req <> RoutePreflight ->
  exists r st', dispatch decodeURIComponent env req st r st'.
Proof.
  intros Hroute. destruct (route req) as [| | | |raw|raw|] eqn:Hr; [congruence | ..].
  - do 2 eexists. apply Dispatch_upload; [exact Hr | apply surjective_pairing].
  - do 2 eexists. apply Dispatch_edit; [exact Hr | apply surjective_pairing].
  - destruct (handleRenderAngle_total (db st) (req_angle_id req)) as (r & H).
    do 2 eexists. apply Dispatch_render; eassumption.
  - destruct (decodeURIComponent raw) as [id|e] eqn:Hd.
    + destruct (handleHistory_total (db st) id) as (r & H).
      do 2 eexists. eapply Dispatch_history; eassumption.
    + do 2 eexists. eapply Dispatch_history_malformed; eassumption.
  - destruct (decodeURIComponent raw) as [id|e] eqn:Hd.
    + destruct (handleView_total (db st) id) as (r & H).
      do 2 eexists. eapply Dispatch_view; eassumption.
    + do 2 eexists. eapply Dispatch_view_malformed; eassumption.
  - do 2 eexists. now apply Dispatch_none.
Qed.

Lemma dispatch_status (decodeURIComponent : string -> Result string) (env : Env)
    (req : Request) (st st' : State) (response : HttpResponse) :
  dispatch decodeURIComponent env req st (Ok response) st' ->
  In (http_status response) [200; 400; 404; 415; 502]
  /\ http_headers response = [("content-type", "application/json")].
Proof.
  intros H. inversion H; subst.
  - destruct r as [resp|]; [| discriminate]. cbn in *.
    match goal with Hr : Ok _ = Ok _ |- _ => injection Hr as <- end.
    split; [| reflexivity].
    match goal with Hu : handleUpload _ _ _ = _ |- _ => apply handleUpload_status in Hu end.
    cbn in *. intuition.
  - destruct r as [resp|]; [| discriminate]. cbn in *.
    match goal with Hr : Ok _ = Ok _ |- _ => injection Hr as <- end.
    split; [| reflexivity].
    match goal with Hu : handleEdit _ _ _ = _ |- _ => apply handleEdit_status in Hu end.
    cbn in *. intuition.
  - match goal with Hr : handleRenderAngle _ _ _ |- _ => inversion Hr; subst end;
      cbn; auto 10.
  - match goal with Hr : handleHistory _ _ _ |- _ => inversion Hr; subst end;
      cbn; auto 10.
  - match goal with Hr : handleView _ _ _ |- _ => inversion Hr; subst end;
      cbn; auto 10.
  - cbn. auto 10.
Qed.

Lemma fetch_total (decodeURIComponent : string -> Result string) (env : Env)
    (req : Request) (st : State) :
  exists response st', fetch decodeURIComponent env req st response st'.
Proof.
  destruct (route req) eqn:Hr;
    try (destruct (dispatch_total decodeURIComponent env req st) as ([response|e] & st' & H);
         [ congruence
         | do 2 eexists; apply Fetch_response; exact H
         | do 2 eexists; apply Fetch_error; exact H ]).
  do 2 eexists. now apply Fetch_preflight.
Qed.

(** The dispatcher never lets an error escape and never leaves a request
    unanswered: every request, in every state, gets a response; its status
    is one of 200, 400, 404, 415, 500 and 502; and it carries each of the
    three CORS headers exactly once, error responses and the preflight
    answer included. *)
Theorem fetch_always_answers (decodeURIComponent : string -> Result string) (env : Env)
    (req : Request) (st : State) :
  (exists response st', fetch decodeURIComponent env req st response st')
  /\ (forall response st',
         fetch decodeURIComponent env req st response st' ->
         In (http_status response) [200; 400; 404; 415; 500; 502]
         /\ forall name value,
              In (name, value) OK_HEADERS ->
              headerEntries (toLowerCase name) (http_headers response)
              = [(toLowerCase name, value)]).
Proof.
  split; [apply fetch_total |].
  intros response st' H. inversion H; subst.
  - split; [cbn; auto |].
    intros name value [[= <- <-] | [[= <- <-] | [[= <- <-] | []]]]; reflexivity.
  - match goal with Hd : dispatch _ _ _ _ _ _ |- _ => apply dispatch_status in Hd as [Hs _] end.
    destruct (withCors_entries response0) as (-> & _ & Hc & _).
    split; [cbn in *; intuition | exact Hc].
  - destruct (withCors_entries (httpJson (JsonBody (BError e)) 500)) as (-> & _ & Hc & _).
    split; [cbn; auto 10 | exact Hc].
Qed.

Lemma fetch_always_answers_witness :
  exists response st',
    fetch (fun s => Ok s) (Scenario.scenarioEnv 1)
      {| req_method := "GET"; req_pathname := "/api/history/uuid-1"; req_angle_id := None;
         req_form := Scenario.upload None; req_json := None |}
      Scenario.afterPatio response st'
    /\ In (http_status response) [200; 400; 404; 415; 500; 502].
Proof.
  destruct (fetch_always_answers (fun s => Ok s) (Scenario.scenarioEnv 1)
              {| req_method := "GET"; req_pathname := "/api/history/uuid-1";
                 req_angle_id := None; req_form := Scenario.upload None; req_json := None |}
              Scenario.afterPatio) as ((response & st' & H) & Hall).
  exists response, st'. split; [exact H | exact (proj1 (Hall response st' H))].
Defined.


Lemma route_post (req : Request) :
  route req = RouteUpload \/ route req = RouteEdit -> req_method req = "POST".
Proof.
  unfold route. destruct (String.eqb (req_method req) "OPTIONS"); [intros [|]; discriminate |].
  destruct (String.eqb_spec (req_method req) "POST") as [-> | _]; [reflexivity |].
  cbn [andb].
  repeat match goal with
         | |- context [if ?b then _ else _] => destruct b
         end; intros [|]; discriminate.
Qed.

(** Only a POST can change anything: for every other request the two
    tables, the event trace and the identifiers handed out are as before,
    and unless the answer is a 500 (whose error is logged) the whole state
    is. *)
Theorem fetch_reads_do_not_write (decodeURIComponent : string -> Result string)
    (env : Env) (req : Request) (st st' : State) (response : HttpResponse) :
  fetch decodeURIComponent env req st response st' ->
  req_method req <> "POST" ->
  db st' = db st /\ trace st' = trace st /\ uuid_calls st' = uuid_calls st
  /\ (http_status response <> 500 -> st' = st).
Proof.
  intros H Hm.
  assert (Hd : forall r st1, dispatch decodeURIComponent env req st r st1 -> st1 = st).
  { intros r st1 Hd. inversion Hd; subst; try reflexivity;
      exfalso; apply Hm; apply route_post; auto. }
  inversion H; subst.
  - repeat split.
  - match goal with Hx : dispatch _ _ _ _ _ _ |- _ => apply Hd in Hx; subst end.
    repeat split.
  - match goal with Hx : dispatch _ _ _ _ _ _ |- _ => apply Hd in Hx; subst end.
    repeat split. intros Hs. now destruct Hs.
Qed.

Lemma fetch_reads_do_not_write_witness :
  exists response st',
    fetch (fun s => Ok s) (Scenario.scenarioEnv 1)
      {| req_method := "GET"; req_pathname := "/api/render-angle";
         req_angle_id := Some "patio";
         req_form := Scenario.upload None; req_json := None |}
      Scenario.afterPatio response st'
    /\ db st' = db Scenario.afterPatio.
Proof.
  destruct (fetch_total (fun s => Ok s) (Scenario.scenarioEnv 1)
              {| req_method := "GET"; req_pathname := "/api/render-angle";
                 req_angle_id := Some "patio";
                 req_form := Scenario.upload None; req_json := None |}
              Scenario.afterPatio) as (response & st' & H).
  exists response, st'. split; [exact H |].
  apply (fetch_reads_do_not_write _ _ _ _ _ _ H). discriminate.
Defined.


(* ================================================================= *)
(** ** Looking a version up by either id *)

Lemma viewMatches_spec (id : string) (v : VersionRow) :
  viewMatches id v = true <-> iv_id v = id \/ artifactOf v = Some id.
Proof.
  unfold viewMatches. rewrite orb_true_iff, String.eqb_eq.
  destruct (artifactOf v) as [img|].
  - rewrite String.eqb_eq. split; intros [H | H]; auto; [right; congruence | right; congruence].
  - split; intros [H | H]; auto; discriminate.
Qed.

(** The view lookup finds a version under its version id and under the id
    of its image: it answers 404 exactly when no version has the given id
    in either role, and otherwise 200 with one of the matching versions;
    when version ids are unique and no image id equals the version id
    asked for, the answer is that version and nothing else. *)
Theorem view_by_either_id (d : DB) (id : string) :
  (exists r, handleView d id r)
  /\ (handleView d id (httpJson (JsonBody (BError "Image not found")) 404) <->
      forall v, In v (image_versions d) -> iv_id v <> id /\ artifactOf v <> Some id)
  /\ (forall r, handleView d id r -> http_status r = 200 ->
        exists row,
          In row (image_versions d)
          /\ (iv_id row = id \/ artifactOf row = Some id)
          /\ r = httpJson (ViewBody (iv_id row) (iv_image_url row) (iv_metadata row)) 200)
  /\ (forall v,
        NoDup (map iv_id (image_versions d)) ->
        In v (image_versions d) -> iv_id v = id ->
        (forall u, In u (image_versions d) -> artifactOf u <> Some id) ->
        forall r, handleView d id r ->
                  r = httpJson (ViewBody id (iv_image_url v) (iv_metadata v)) 200).
Proof.
  split; [apply handleView_total | split; [| split]].
  - split.
    + intros H v Hv. inversion H as [Hnone | row Hrow].
      assert (Hv' : viewMatches id v = false).
      { destruct (viewMatches id v) eqn:Hm; [| reflexivity].
        assert (Hin : In v (filter (viewMatches id) (image_versions d)))
          by (apply filter_In; auto).
        rewrite Hnone in Hin. destruct Hin. }
      split; intros Hc; assert (viewMatches id v = true) by (apply viewMatches_spec; auto);
        congruence.
    + intros H. apply View_none.
      destruct (filter (viewMatches id) (image_versions d)) as [|v rows] eqn:Hrows;
        [reflexivity | exfalso].
      assert (Hin : In v (filter (viewMatches id) (image_versions d)))
        by (rewrite Hrows; now left).
      apply filter_In in Hin as [Hin Hm]. apply viewMatches_spec in Hm.
      destruct (H v Hin) as [H1 H2]. destruct Hm; contradiction.
  - intros r H Hs. inversion H as [Hnone Hr | row Hrow Hr]; subst; [discriminate Hs |].
    apply filter_In in Hrow as [Hin Hm]. apply viewMatches_spec in Hm.
    exists row. auto.
  - intros v Hnd Hv Hid Hart r H. inversion H as [Hnone Hr | row Hrow Hr]; subst.
    + exfalso.
      assert (Hin : In v (filter (viewMatches (iv_id v)) (image_versions d))).
      { apply filter_In. split; [exact Hv |]. apply viewMatches_spec. now left. }
      rewrite Hnone in Hin. destruct Hin.
    + apply filter_In in Hrow as [Hin Hm]. apply viewMatches_spec in Hm.
      destruct Hm as [Hm | Hm]; [| now destruct (Hart row Hin)].
      assert (row = v) as ->; [| reflexivity].
      pose proof (find_by_key iv_id _ row Hnd Hin) as F1.
      pose proof (find_by_key iv_id _ v Hnd Hv) as F2.
      rewrite Hm in F1. congruence.
Qed.

Lemma view_by_either_id_witness :
  handleView (db Scenario.afterPatio) "no-such-id"
    (httpJson (JsonBody (BError "Image not found")) 404).
Proof.
  apply (proj2 (proj1 (proj2 (view_by_either_id (db Scenario.afterPatio) "no-such-id")))).
  intros v Hv. vm_compute in Hv. destruct Hv as [<- | [<- | []]]; split; discriminate.
Defined.


(* ================================================================= *)
(** ** What the oracle's SDK is handed *)

(** [toApiMessages] sends one message per turn and one part per part, with
    the turn's role.  On the wire a part is either an image or a text,
    never both and never a thought flag: an image part loses its text, any
    other part is sent as its text, [""] if it has none.  So a part goes
    out exactly as it is stored if and only if it has no thought flag and
    has either an image or a text but not both; and reading the sent part
    back with [normalizeParts] gives the stored part without its thought
    flag and with that one content.  The request names the configured model
    or the default, always carries a system instruction, and carries an
    image configuration exactly when the aspect ratio is a non-empty
    string. *)
Theorem toApiMessages_sends :
  (forall messages,
      List.length (toApiMessages messages) = List.length messages
      /\ Forall2 (fun m j => prop j "role" = role m
                             /\ prop j "parts" = Some (JArr (map toApiPart (parts m))))
                 messages (toApiMessages messages))
  /\ (forall p,
         prop (toApiPart p) "thought" = None
         /\ (hasInline p = true ->
             prop (toApiPart p) "text" = None /\ prop (toApiPart p) "inlineData" <> None)
         /\ (hasInline p = false ->
             prop (toApiPart p) "inlineData" = None
             /\ prop (toApiPart p) "text" = Some (JStr (orElse (text p) ""))))
  /\ (forall p,
         toApiPart p = jsonOfPart p <->
         thought p = None /\ (hasInline p = true <-> text p = None))
  /\ (forall p,
         normalPart p ->
         normalizePart (toApiPart p)
         = Ok {| text := if hasInline p then None else Some (orElse (text p) "");
                 inlineData := inlineData p;
                 thought := None |})
  /\ (forall env messages systemMessage aspectRatio,
         prop (geminiRequest env messages systemMessage aspectRatio) "model"
         = Some (JStr (orElse (GEMINI_MODEL env) DEFAULT_MODEL))
         /\ prop (geminiRequest env messages systemMessage aspectRatio) "contents"
            = Some (JArr (toApiMessages messages))
         /\ exists config,
              prop (geminiRequest env messages systemMessage aspectRatio) "config"
              = Some (JObj config)
              /\ assoc "systemInstruction" config <> None
              /\ assoc "imageConfig" config
                 = match aspectRatio with
                   | Some r => if truthy r
                               then Some (JObj [("aspectRatio", JStr r)])
                               else None
                   | None => None
                   end).
Proof.
  split; [| split; [| split; [| split]]].
  - intros messages. split; [apply length_map |].
    unfold toApiMessages. induction messages as [|m ms IH]; [constructor |].
    cbn [map]. constructor; [| exact IH].
    destruct m as [[r|] ps]; split; reflexivity.
  - intros [t [i|] th]; cbn; repeat split; try discriminate; intros [=].
  - intros [t i th]. unfold hasInline. cbn [inlineData text thought]. split.
    + destruct t, i as [[m d]|], th; cbn; intros H; try discriminate H;
        try (destruct d; discriminate H); split; try reflexivity; split; congruence.
    + intros [-> [H1 H2]]. destruct i as [[m d]|].
      * rewrite (H1 eq_refl). reflexivity.
      * destruct t; [reflexivity |]. now discriminate (H2 eq_refl).
  - intros [t i th]. unfold normalPart, hasInline. cbn [inlineData text thought].
    intros Hn. destruct i as [[m d]|]; [| reflexivity].
    assert (Hm : m <> JNull) by (apply (Hn _ eq_refl)).
    destruct d, m; try congruence; reflexivity.
  - intros env messages systemMessage aspectRatio.
    unfold geminiRequest, truthyOpt, orElse.
    destruct aspectRatio as [r|]; [destruct (truthy r) eqn:Hr |];
      (split; [reflexivity | split; [reflexivity |]]);
      eexists; (split; [reflexivity | split; [discriminate | reflexivity]]).
Qed.

Lemma toApiMessages_sends_witness :
  normalizePart (toApiPart {| text := Some "caption";
                              inlineData := Some {| mimeType := JStr "image/png";
                                                    data := Some (JStr "QUJD") |};
                              thought := Some (JBool true) |})
  = Ok (inlinePart "image/png" "QUJD").
Proof.
  apply (proj1 (proj2 (proj2 (proj2 toApiMessages_sends)))
           {| text := Some "caption";
              inlineData := Some {| mimeType := JStr "image/png";
                                    data := Some (JStr "QUJD") |};
              thought := Some (JBool true) |}).
  intros i [= <-]. discriminate.
Defined.


(* ================================================================= *)
(** ** The plan Worker: the loop over the photo operations *)

Lemma photoStep_cases (env : Planner.Env) (input : Planner.EditPayload)
    (acc : Planner.Loop) (op : Planner.PhotoOp) :
  quietStep acc
    (Planner.photoStep env input (Planner.hashString env (Planner.base_prompt input)) acc op)
  \/ photoTaken env input acc op
       (Planner.photoStep env input (Planner.hashString env (Planner.base_prompt input)) acc op).
Proof.
  unfold Planner.photoStep.
  destruct (Planner.po_op op) as [name|] eqn:Hop; [| left; unfold quietStep; tauto].
  destruct (truthy name) eqn:Hname; cbn [negb]; [| left; unfold quietStep; tauto].
  destruct (String.eqb_spec name "render_angle") as [Hr | Hr];
    destruct (String.eqb_spec name "local_edit") as [Hl | Hl]; cbn [negb andb].
  1: { exfalso. rewrite Hr in Hl. discriminate Hl. }
  3: { left. unfold quietStep. cbn. repeat split. right. do 3 eexists. split; [reflexivity |].
       now left. }
  all: destruct (Planner.po_angle_id op) as [angleId|] eqn:Hangle; unfold truthyOpt;
    [destruct (truthy angleId) eqn:Ha |]; cbn [negb].
  all: try (left; unfold quietStep; cbn; repeat split; right; do 3 eexists;
            split; [reflexivity | now right]).
  all: unfold Planner.fetchImageBytes;
    destruct (Planner.cdn env _) as [message | ok status bytes] eqn:Hcdn; [| destruct ok].
  all: try (left; unfold quietStep; cbn; repeat split; right; do 3 eexists;
            split; [reflexivity | now right]).
  all: unfold Planner.findCamera;
    destruct (find _ (Planner.angles input)) as [camera|] eqn:Hcam.
  all: try (left; unfold quietStep; cbn; repeat split; right; do 3 eexists;
            split; [reflexivity | now right]).
  all: right; unfold photoTaken, Planner.uploadBytesToImages, Planner.geminiGenerateView,
    Planner.geminiEdit, orElse; cbn; rewrite <- ?app_assoc; cbn [app];
    exists name, angleId, status, bytes; do 3 eexists;
    split; [exact Hop |]; split; [auto |]; split; [exact Hangle |];
    split; [now apply truthy_true |]; split; [exact Hcdn |];
    repeat split; try reflexivity.
  all: unfold Planner.buildPhotoNote; rewrite Hop, Hangle; subst name; cbn;
    unfold truthy in Ha; destruct angleId; [discriminate | reflexivity].
Qed.

Lemma fold_photoStep (env : Planner.Env) (input : Planner.EditPayload) (h : string)
    (P : Planner.Loop -> Prop) (ops : list Planner.PhotoOp) :
  (forall acc op, P acc -> P (Planner.photoStep env input h acc op)) ->
  forall init, P init -> P (fold_left (Planner.photoStep env input h) ops init).
Proof.
  intros Hstep. induction ops as [|op ops IH]; intros init Hinit; [exact Hinit |].
  cbn [fold_left]. apply IH. now apply Hstep.
Qed.

Lemma last_cons {A : Type} (l : list A) : forall x d : A, last (x :: l) d = last l x.
Proof.
  induction l as [|y l IH]; intros x d; [reflexivity |].
  change (last (x :: y :: l) d) with (last (y :: l) d). now rewrite !IH.
Qed.

Lemma chained_snoc (start : string) (photos : list Planner.Photo) (p : Planner.Photo) :
  chained start photos ->
  Planner.before_image_id p = last (map Planner.after_image_id photos) start ->
  chained start (photos ++ [p]).
Proof.
  revert start. induction photos as [|q photos IH]; intros start Hc Hb.
  - cbn in *. auto.
  - destruct Hc as [Hq Hc]. cbn [app chained]. split; [exact Hq |].
    apply IH; [exact Hc |]. rewrite Hb. cbn [map]. apply last_cons.
Qed.

Lemma last_snoc {A : Type} (l : list A) (x d : A) : last (l ++ [x]) d = x.
Proof. apply last_last. Qed.

Lemma combine_append {A B : Type} (a : list A) (c : list B) (b : list A) (d : list B) :
  List.length a = List.length c -> combine (a ++ b) (c ++ d) = combine a c ++ combine b d.
Proof.
  revert c. induction a as [|x a IH]; intros [|y c] H; try discriminate H; [reflexivity |].
  cbn. f_equal. apply IH. now injection H.
Qed.

Lemma combine_seq_snoc {A : Type} (first : nat) (l : list A) (x : A) :
  combine (seq first (List.length (l ++ [x]))) (l ++ [x])
  = combine (seq first (List.length l)) l ++ [(first + List.length l, x)].
Proof.
  rewrite length_app. cbn [List.length]. rewrite Nat.add_1_r, seq_S.
  rewrite combine_append by (now rewrite length_seq). reflexivity.
Qed.

Lemma imageIdsFrom_snoc2 (env : Planner.Env) (first n : nat) :
  imageIdsFrom env first (n + 2)
  = imageIdsFrom env first n
    ++ ["img_" +++ Planner.randomUUID env (first + n);
        "img_" +++ Planner.randomUUID env (S (first + n))].
Proof.
  unfold imageIdsFrom. replace (n + 2) with (S (S n)) by lia.
  rewrite seq_S, seq_S, !map_app, <- app_assoc. cbn [map app].
  now rewrite Nat.add_succ_r.
Qed.

Lemma photoStep_invariant (env : Planner.Env) (input : Planner.EditPayload)
    (w : Planner.World) (acc : Planner.Loop) (op : Planner.PhotoOp) :
  loopInvariant env input w acc ->
  loopInvariant env input w
    (Planner.photoStep env input (Planner.hashString env (Planner.base_prompt input)) acc op).
Proof.
  intros (ups & chunks & H1 & H2 & H3 & H4 & H5 & H6 & H7 & H8 & H9 & H10 & H11 & H0 & H12 & H13).
  destruct (photoStep_cases env input acc op) as [Hq | Ht].
  - destruct Hq as (Q1 & Q2 & Q3 & Q4 & Q5 & Q6 & _).
    exists ups, chunks. rewrite Q1, Q2, Q3, Q4, Q5, Q6. repeat split; assumption.
  - destruct Ht as (name & angleId & status & bytes & photo & preview & archival
                    & _ & _ & _ & _ & Hcdn & T1 & T2 & T3 & T4 & _ & T6 & T7 & T8 & T9
                    & T10 & T11 & _ & _ & T14 & T15 & T16 & T17).
    exists (ups ++ [preview; archival]), (chunks ++ [[bytes; bytes]]).
    rewrite T1, T2, T3, T4, T6, T7, combine_seq_snoc, !length_app, !map_app.
    cbn [List.length].
    rewrite T14, T15, T16, T17, H4, H10, H11, !flat_map_app.
    cbn [flat_map]. rewrite !app_nil_r.
    split; [now rewrite H1, <- app_assoc |].
    split; [lia |]. split; [lia |]. split; [reflexivity |].
    split; [rewrite H5, imageIdsFrom_snoc2, T10, T11, H2; reflexivity |].
    split; [rewrite H6; reflexivity |].
    split; [apply chained_snoc; [exact H7 | now rewrite T9, H8] |].
    split; [cbn [map]; now rewrite last_snoc |].
    split; [lia |].
    split; [rewrite <- app_assoc; do 2 f_equal; unfold photoMetadata; cbn [fst snd];
            rewrite H9; replace (1 + List.length (Planner.photos acc) + 1)
              with (2 + List.length (Planner.photos acc)) by lia; reflexivity |].
    split; [now rewrite <- app_assoc |].
    split; [rewrite firstn_app, length_map;
            replace (2 - List.length ups) with 0 by lia; cbn [firstn];
            now rewrite app_nil_r |].
    split.
    + rewrite List.concat_app. cbn [List.concat]. rewrite app_nil_r, <- H12.
      rewrite skipn_app, length_map.
      replace (2 - List.length ups) with 0 by lia. reflexivity.
    + apply Forall2_app; [exact H13 |]. constructor; [| constructor].
      exists status, bytes. rewrite T9. split; [exact Hcdn | reflexivity].
Qed.

Lemma serveEdit_invariant (env : Planner.Env) (input : Planner.EditPayload)
    (w w' : Planner.World) (result : Planner.Result_) :
  Planner.serveEdit env input w = (result, w') ->
  exists final,
    loopInvariant env input w final
    /\ Planner.world final = w'
    /\ Planner.result_photos result = Planner.photos final
    /\ Planner.new_image_ids result = Planner.newImageIds final
    /\ Planner.result_changelog result = Planner.changelog final
    /\ Planner.raster_preview_image_id result
       = "img_" +++ Planner.randomUUID env (Planner.uuids w)
    /\ Planner.parent_image_id result = Planner.current_image_id input
    /\ Planner.updated_svg result = planSvg env input.
Proof.
  unfold Planner.serveEdit, Planner.uploadBytesToImages. cbn.
  intros [= <- <-]. eexists. split; [| repeat split].
  apply fold_photoStep; [intros acc op; apply photoStep_invariant |].
  unfold loopInvariant. cbn.
  eexists [_; _], []. cbn.
  split; [rewrite <- app_assoc; reflexivity |].
  repeat split; try reflexivity; try constructor; lia.
Qed.

Lemma NoDup_map_injective {A B : Type} (f : A -> B) (l : list A) :
  (forall x y, f x = f y -> x = y) -> NoDup l -> NoDup (map f l).
Proof.
  intros Hf. induction 1 as [|x l Hx _ IH]; cbn [map]; constructor; [| exact IH].
  rewrite in_map_iff. intros (y & Hy & Hin). apply Hf in Hy. now subst.
Qed.

Lemma newUploads_app (w w' : Planner.World) (ups : list Planner.Upload) :
  Planner.uploads w' = Planner.uploads w ++ ups -> newUploads w w' = ups.
Proof.
  intros H. unfold newUploads. rewrite H, skipn_app, skipn_all, Nat.sub_diag. reflexivity.
Qed.

(** The photos of a request form a chain: the first starts from the
    current image of the request and each of the others from the preview
    the one before produced.  The ids the response lists are the plan
    preview and the plan archive followed by the preview and the archive of
    every photo, in order; they are the ids of the calls to the Images
    binding, one call per id, made from consecutive UUIDs, so they are
    pairwise different whenever the UUIDs are. *)
Theorem plan_photos_chain (env : Planner.Env) (input : Planner.EditPayload)
    (w w' : Planner.World) (result : Planner.Result_) :
  Planner.serveEdit env input w = (result, w') ->
  chained (Planner.current_image_id input) (Planner.result_photos result)
  /\ Planner.parent_image_id result = Planner.current_image_id input
  /\ (exists planArchive,
        Planner.new_image_ids result
        = Planner.raster_preview_image_id result :: planArchive
          :: flat_map (fun p => [Planner.after_image_id p; Planner.archival_image_id p])
                      (Planner.result_photos result))
  /\ Planner.new_image_ids result
     = imageIdsFrom env (Planner.uuids w)
         (2 + 2 * List.length (Planner.result_photos result))
  /\ map Planner.up_id (newUploads w w') = Planner.new_image_ids result
  /\ ((forall i j, Planner.randomUUID env i = Planner.randomUUID env j -> i = j) ->
      NoDup (Planner.new_image_ids result)).
Proof.
  intros H. apply serveEdit_invariant in H
    as (final & (ups & chunks & H1 & H2 & H3 & H4 & H5 & H6 & H7 & _)
        & <- & Hp & Hn & _ & Hr & Hpar & _).
  rewrite Hp, Hn, Hr, Hpar, (newUploads_app _ _ _ H1).
  split; [exact H7 | split; [reflexivity |]].
  split; [eexists; exact H6 |].
  split; [now rewrite H5, H3 |].
  split; [exact H4 |].
  intros Hinj. rewrite H5. unfold imageIdsFrom.
  apply NoDup_map_injective; [| apply seq_NoDup].
  intros x y Hxy. apply Hinj. now injection Hxy.
Qed.

Lemma plan_photos_chain_witness :
  chained "img_current"
    (Planner.result_photos
       (fst (Planner.serveEdit PlanScenario.env PlanScenario.input PlanScenario.start))).
Proof.
  apply (plan_photos_chain PlanScenario.env PlanScenario.input PlanScenario.start
           (snd (Planner.serveEdit PlanScenario.env PlanScenario.input PlanScenario.start))).
  apply surjective_pairing.
Defined.

(** Every call to the Images binding is labelled with where its bytes come
    from.  The two plan uploads carry the rasterised floor plan under
    operation number 1 with the request's current image as parent; the
    two uploads of the k-th photo carry operation number k + 1, the image
    the photo started from as parent and the photo's angle, and their
    bytes are the bytes the CDN returned for that image, unchanged.  A
    preview is WebP at quality 70 (plan) or 72 (photo), an archive is PNG
    at the default quality 82. *)
Theorem plan_uploads_labelled (env : Planner.Env) (input : Planner.EditPayload)
    (w w' : Planner.World) (result : Planner.Result_) :
  Planner.serveEdit env input w = (result, w') ->
  map Planner.up_metadata (newUploads w w')
  = planMetadata env input
    ++ flat_map (photoMetadata env input)
         (combine (seq 2 (List.length (Planner.result_photos result)))
                  (Planner.result_photos result))
  /\ map (fun u => (Planner.up_format u, Planner.up_quality u)) (newUploads w w')
     = [("image/webp", 70); ("image/png", 82)]
       ++ flat_map (fun _ => [("image/webp", 72); ("image/png", 82)])
                   (Planner.result_photos result)
  /\ firstn 2 (map Planner.up_bytes (newUploads w w'))
     = [Planner.rasterize env (Planner.updated_svg result) 1600 1000 144;
        Planner.rasterize env (Planner.updated_svg result) 1600 1000 144]
  /\ exists chunks,
       skipn 2 (map Planner.up_bytes (newUploads w w')) = List.concat chunks
       /\ Forall2 (fun p chunk =>
                     exists status bytes,
                       Planner.cdn env
                         (Planner.publicUrl env (Planner.before_image_id p) "public")
                       = Planner.FetchResponse true status bytes
                       /\ chunk = [bytes; bytes])
                  (Planner.result_photos result) chunks.
Proof.
  intros H. apply serveEdit_invariant in H
    as (final & (ups & chunks & H1 & _ & _ & _ & _ & _ & _ & _ & _ & H10 & H11 & H0 & H12 & H13)
        & <- & Hp & _ & _ & _ & _ & Hsvg).
  rewrite Hp, Hsvg, (newUploads_app _ _ _ H1).
  split; [exact H10 | split; [exact H11 | split; [exact H0 |]]].
  exists chunks. split; assumption.
Qed.

Lemma plan_uploads_labelled_witness :
  map (fun u => Planner.op_seq (Planner.up_metadata u))
      (newUploads PlanScenario.start
         (snd (Planner.serveEdit PlanScenario.env PlanScenario.input PlanScenario.start)))
  = [1; 1; 2; 2; 3; 3].
Proof.
  rewrite <- (map_map Planner.up_metadata Planner.op_seq).
  rewrite (proj1 (plan_uploads_labelled PlanScenario.env PlanScenario.input PlanScenario.start
                    (snd (Planner.serveEdit PlanScenario.env PlanScenario.input
                            PlanScenario.start))
                    (fst (Planner.serveEdit PlanScenario.env PlanScenario.input
                            PlanScenario.start))
                    (surjective_pairing _))).
  vm_compute. reflexivity.
Defined.


(* ================================================================= *)
(** ** The plan Worker: a binding that fails *)

Lemma photoStep_sameButStored (env : Planner.Env)
    (binding : string -> string -> Planner.Metadata -> string -> nat -> bool)
    (input : Planner.EditPayload) (h : string) (a b : Planner.Loop) (op : Planner.PhotoOp) :
  sameButStored a b ->
  sameButStored (Planner.photoStep (withImages env binding) input h a op)
                (Planner.photoStep env input h b op).
Proof.
  destruct a as [s1 c1 n1 p1 l1 [u1 k1 ups1]], b as [s2 c2 n2 p2 l2 [u2 k2 ups2]].
  unfold sameButStored. cbn. intros (-> & -> & -> & -> & -> & -> & Hups).
  unfold Planner.photoStep. cbn.
  destruct (Planner.po_op op) as [name|]; [| cbn; auto 10].
  destruct (truthy name); cbn [negb]; [| cbn; auto 10].
  destruct (negb (String.eqb name "render_angle") && negb (String.eqb name "local_edit"));
    [cbn; auto 10 |].
  destruct (negb (truthyOpt (Planner.po_angle_id op))); [cbn; auto 10 |].
  unfold Planner.fetchImageBytes, Planner.publicUrl. cbn.
  destruct (Planner.cdn env _) as [message | ok status bytes]; [cbn; auto 10 |].
  destruct ok; [| cbn; auto 10].
  destruct (Planner.findCamera (Planner.angles input) _); [| cbn; auto 10].
  unfold Planner.uploadBytesToImages. cbn. rewrite !map_app, Hups. cbn.
  repeat split; reflexivity.
Qed.

Lemma fold_sameButStored (env : Planner.Env)
    (binding : string -> string -> Planner.Metadata -> string -> nat -> bool)
    (input : Planner.EditPayload) (h : string) (ops : list Planner.PhotoOp) :
  forall a b,
    sameButStored a b ->
    sameButStored (fold_left (Planner.photoStep (withImages env binding) input h) ops a)
                  (fold_left (Planner.photoStep env input h) ops b).
Proof.
  induction ops as [|op ops IH]; intros a b H; [exact H |].
  cbn [fold_left]. apply IH. now apply photoStep_sameButStored.
Qed.

Lemma serveEdit_fold (env : Planner.Env) (input : Planner.EditPayload) (w : Planner.World) :
  Planner.serveEdit env input w
  = (planResult env input w
       (fold_left (Planner.photoStep env input (Planner.hashString env (Planner.base_prompt input)))
                  (Planner.photo_ops input) (planStart env input w)),
     Planner.world
       (fold_left (Planner.photoStep env input (Planner.hashString env (Planner.base_prompt input)))
                  (Planner.photo_ops input) (planStart env input w))).
Proof. reflexivity. Qed.

Lemma planStart_sameButStored (env : Planner.Env)
    (binding : string -> string -> Planner.Metadata -> string -> nat -> bool)
    (input : Planner.EditPayload) (w : Planner.World) :
  sameButStored (planStart (withImages env binding) input w) (planStart env input w).
Proof.
  unfold sameButStored, planStart, Planner.uploadBytesToImages.
  cbn [Planner.opSeq Planner.currentId Planner.newImageIds Planner.photos Planner.changelog
       Planner.world Planner.uuids Planner.uploads fst snd].
  rewrite !map_app. repeat split; reflexivity.
Qed.

(** Whether the Images binding stores the bytes or throws makes no
    difference to the answer: with any other binding in its place the
    Worker returns the same result, ids included, draws the same UUIDs and
    makes the same calls to the binding; a valid request is answered 200
    in either case. *)
Theorem binding_failures_are_ignored (env : Planner.Env)
    (binding : string -> string -> Planner.Metadata -> string -> nat -> bool)
    (input : Planner.EditPayload) (w : Planner.World) :
  fst (Planner.serveEdit (withImages env binding) input w) = fst (Planner.serveEdit env input w)
  /\ Planner.uuids (snd (Planner.serveEdit (withImages env binding) input w))
     = Planner.uuids (snd (Planner.serveEdit env input w))
  /\ map uploadCall (Planner.uploads (snd (Planner.serveEdit (withImages env binding) input w)))
     = map uploadCall (Planner.uploads (snd (Planner.serveEdit env input w)))
  /\ Planner.replyStatus
       (fst (Planner.fetch (withImages env binding) "POST" "/edit" (Planner.Accepted input) w))
     = 200.
Proof.
  pose proof (fold_sameButStored env binding input
                (Planner.hashString env (Planner.base_prompt input))
                (Planner.photo_ops input) _ _ (planStart_sameButStored env binding input w))
    as (_ & _ & H3 & H4 & H5 & H6 & H7).
  rewrite !serveEdit_fold. cbn [fst snd].
  split; [| split; [exact H6 | split; [exact H7 |]]].
  - unfold planResult.
    change (Planner.hashString (withImages env binding)) with (Planner.hashString env).
    rewrite H3, H4, H5. reflexivity.
  - unfold Planner.fetch. change (String.eqb "POST" "OPTIONS") with false.
    change (String.eqb "POST" "POST" && String.eqb "/edit" "/edit") with true.
    cbv iota. now destruct (Planner.serveEdit _ _ _).
Qed.

Lemma binding_failures_are_ignored_witness :
  fst (Planner.serveEdit (withImages PlanScenario.env (fun _ _ _ _ _ => false))
         PlanScenario.input PlanScenario.start)
  = fst (Planner.serveEdit PlanScenario.env PlanScenario.input PlanScenario.start).
Proof.
  apply (binding_failures_are_ignored PlanScenario.env (fun _ _ _ _ _ => false)
           PlanScenario.input PlanScenario.start).
Defined.


(* ================================================================= *)
(** ** The plan Worker: the changelog *)

Lemma assoc_app {A : Type} (k : string) (l l' : list (string * A)) :
  assoc k (l ++ l') = match assoc k l with Some v => Some v | None => assoc k l' end.
Proof.
  induction l as [|[k' v] l IH]; [reflexivity |]. cbn.
  destruct (String.eqb k k'); [reflexivity | exact IH].
Qed.

Lemma assoc_setField_same (k : string) (v : json) (fields : list (string * json)) :
  assoc k (Planner.setField k v fields) = Some v.
Proof.
  induction fields as [|[k' v'] rest IH]; cbn.
  - now rewrite String.eqb_refl.
  - destruct (String.eqb_spec k' k) as [-> | Hk]; cbn.
    + now rewrite String.eqb_refl.
    + destruct (String.eqb_spec k k'); [congruence | exact IH].
Qed.

Lemma assoc_setField_other (k k' : string) (v : json) (fields : list (string * json)) :
  k <> k' -> assoc k (Planner.setField k' v fields) = assoc k fields.
Proof.
  intros Hk. induction fields as [|[k2 v2] rest IH]; cbn.
  - destruct (String.eqb_spec k k'); [congruence | reflexivity].
  - destruct (String.eqb_spec k2 k') as [-> | H2]; cbn.
    + destruct (String.eqb_spec k k'); [congruence | reflexivity].
    + destruct (String.eqb_spec k k2); [reflexivity | exact IH].
Qed.

Lemma assoc_spread (k : string) (extra : list (string * json)) :
  forall base,
    assoc k (Planner.spread base extra)
    = match lastValue k extra with Some v => Some v | None => assoc k base end.
Proof.
  unfold Planner.spread, lastValue.
  induction extra as [|[k1 v1] extra IH]; intros base; [reflexivity |].
  cbn [fold_left rev fst snd]. rewrite IH, assoc_app. cbn [assoc].
  destruct (assoc k (rev extra)); [reflexivity |].
  destruct (String.eqb_spec k k1) as [-> | Hk].
  - apply assoc_setField_same.
  - now apply assoc_setField_other.
Qed.

Lemma lastValue_absent (k : string) (fields : list (string * json)) :
  assoc k fields = None -> lastValue k fields = None.
Proof.
  unfold lastValue. induction fields as [|[k' v] rest IH]; [reflexivity |].
  cbn. destruct (String.eqb_spec k k'); [discriminate |].
  intros H. rewrite assoc_app, (IH H). cbn.
  destruct (String.eqb_spec k k'); [congruence | reflexivity].
Qed.

Lemma photoStep_log (env : Planner.Env) (input : Planner.EditPayload)
    (ops : list Planner.PhotoOp) (acc : Planner.Loop) (op : Planner.PhotoOp) :
  logInvariant input ops acc ->
  logInvariant input (ops ++ [op])
    (Planner.photoStep env input (Planner.hashString env (Planner.base_prompt input)) acc op).
Proof.
  intros (photoLog & H1 & H2 & H3 & H4).
  assert (Hnamed : forall b, named op = b ->
            List.length (filter named (ops ++ [op]))
            = List.length (filter named ops) + (if b then 1 else 0)).
  { intros b Hb. rewrite filter_app, length_app. cbn [filter]. rewrite Hb.
    destruct b; reflexivity. }
  assert (Hsnoc : forall entry,
            List.length (filter isDone (photoLog ++ [entry]))
            = List.length (filter isDone photoLog) + (if isDone entry then 1 else 0)).
  { intros entry. rewrite filter_app, length_app. cbn [filter].
    destruct (isDone entry); reflexivity. }
  unfold Planner.photoStep.
  destruct (Planner.po_op op) as [name|] eqn:Hop.
  2: { assert (Hn : named op = false) by (unfold named; now rewrite Hop).
       exists photoLog. rewrite (Hnamed false Hn), Nat.add_0_r. auto. }
  destruct (truthy name) eqn:Hname; cbn [negb].
  2: { assert (Hn : named op = false) by (unfold named, truthyOpt; now rewrite Hop).
       exists photoLog. rewrite (Hnamed false Hn), Nat.add_0_r. auto. }
  assert (Hn : named op = true) by (unfold named, truthyOpt; now rewrite Hop).
  assert (Hquiet : forall status more w,
            status <> "done" ->
            logInvariant input (ops ++ [op])
              {| Planner.opSeq := Planner.opSeq acc;
                 Planner.currentId := Planner.currentId acc;
                 Planner.newImageIds := Planner.newImageIds acc;
                 Planner.photos := Planner.photos acc;
                 Planner.changelog :=
                   Planner.changelog acc
                   ++ [("op", JStr name) :: ("status", JStr status) :: more];
                 Planner.world := w |}).
  { intros status more w Hs. unfold logInvariant.
    exists (photoLog ++ [("op", JStr name) :: ("status", JStr status) :: more]).
    cbn [Planner.changelog Planner.photos].
    rewrite H1, <- app_assoc, length_app, (Hnamed true Hn), Hsnoc, H2, H3.
    unfold isDone. cbn [assoc]. change (String.eqb "status" "op") with false.
    change (String.eqb "status" "status") with true. cbv iota.
    destruct (String.eqb_spec status "done"); [contradiction |].
    rewrite Nat.add_0_r. cbn [List.length]. auto. }
  destruct (String.eqb_spec name "render_angle") as [Hr | Hr];
    destruct (String.eqb_spec name "local_edit") as [Hl | Hl]; cbn [negb andb].
  1: { exfalso. rewrite Hr in Hl. discriminate Hl. }
  3: { apply Hquiet. discriminate. }
  all: destruct (Planner.po_angle_id op) as [angleId|] eqn:Hangle; unfold truthyOpt;
    [destruct (truthy angleId) eqn:Ha |]; cbn [negb];
    try (apply Hquiet; discriminate).
  all: unfold Planner.fetchImageBytes;
    destruct (Planner.cdn env _) as [message | ok status bytes]; [| destruct ok];
    lazy beta iota zeta;
    try (apply Hquiet; discriminate).
  all: destruct (Planner.findCamera (Planner.angles input) _);
    lazy beta iota zeta;
    try (apply Hquiet; discriminate).
  all: unfold Planner.uploadBytesToImages, orElse; cbn [fst snd];
    unfold logInvariant;
    exists (photoLog ++ [[("op", JStr name); ("angle_id", JStr angleId);
                          ("status", JStr "done")]]);
    cbn [Planner.changelog Planner.photos];
    rewrite H1, <- app_assoc, !length_app, (Hnamed true Hn), Hsnoc, H2, H3;
    cbn [List.length];
    (split; [reflexivity |]); (split; [reflexivity |]); (split; [reflexivity |]);
    apply Forall_app; (split; [exact H4 |]); constructor; [| constructor];
    cbn [Planner.ph_angle Planner.notes]; unfold Planner.buildPhotoNote;
    rewrite Hop, Hangle, Ha; subst name; cbn;
    (split; [now apply truthy_true | auto]).
Qed.

Lemma fold_log (env : Planner.Env) (input : Planner.EditPayload) (ops : list Planner.PhotoOp) :
  forall seen acc,
    logInvariant input seen acc ->
    logInvariant input (seen ++ ops)
      (fold_left (Planner.photoStep env input (Planner.hashString env (Planner.base_prompt input)))
                 ops acc).
Proof.
  induction ops as [|op ops IH]; intros seen acc H.
  - now rewrite app_nil_r.
  - cbn [fold_left]. replace (seen ++ op :: ops) with ((seen ++ [op]) ++ ops)
      by (now rewrite <- app_assoc).
    apply IH. now apply photoStep_log.
Qed.

(** The changelog of a response starts with the floor-plan entries, which
    are the [ops_applied] of the response, one per floor-plan operation;
    then comes exactly one entry for every photo operation that has a
    name, and the entries marked done are as many as the photos.  Every
    photo has an angle, and its note is ["Rendered angle"] or ["Applied
    local edit for"] followed by that angle, never the fallback text.  A
    floor-plan entry names its operation and is marked done, unless the
    operation carries a [status] property of its own, which then takes
    the place of the mark. *)
Theorem plan_changelog (env : Planner.Env) (input : Planner.EditPayload)
    (w w' : Planner.World) (result : Planner.Result_) :
  Planner.serveEdit env input w = (result, w') ->
  (exists photoLog,
      Planner.result_changelog result = Planner.ops_applied result ++ photoLog
      /\ List.length photoLog = List.length (filter named (Planner.photo_ops input))
      /\ List.length (filter isDone photoLog) = List.length (Planner.result_photos result))
  /\ Forall (fun p =>
               Planner.ph_angle p <> EmptyString
               /\ (Planner.notes p = "Rendered angle " +++ Planner.ph_angle p
                   \/ Planner.notes p = "Applied local edit for " +++ Planner.ph_angle p))
            (Planner.result_photos result)
  /\ Forall2 (fun op entry =>
                (assoc "op" (Planner.fo_rest op) = None ->
                 assoc "op" entry = Some (JStr (orElse (Planner.fo_op op) "unknown")))
                /\ assoc "status" entry
                   = Some (match lastValue "status" (Planner.fo_rest op) with
                           | Some v => v
                           | None => JStr "done"
                           end))
             (Planner.floor_plan_ops input) (Planner.ops_applied result).
Proof.
  intros H. rewrite serveEdit_fold in H. injection H as <- _.
  unfold planResult. cbn [Planner.result_changelog Planner.ops_applied Planner.result_photos].
  assert (Hstart : logInvariant input [] (planStart env input w)).
  { exists []. unfold planStart. cbn [Planner.changelog Planner.photos].
    rewrite app_nil_r. repeat split. constructor. }
  apply (fold_log env input (Planner.photo_ops input)) in Hstart.
  destruct Hstart as (photoLog & H1 & H2 & H3 & H4). cbn [app] in H2.
  split; [exists photoLog; auto | split; [exact H4 |]].
  unfold Planner.summarizeOps.
  clear. generalize (Planner.floor_plan_ops input) as fops.
  induction fops as [|op ops IH]; cbn [map]; [constructor |].
  constructor; [| exact IH].
  rewrite !assoc_spread. unfold Planner.opObject, lastValue.
  rewrite !rev_app_distr, !assoc_app. split.
  - intros Hno. apply lastValue_absent in Hno. unfold lastValue in Hno. rewrite Hno.
    destruct (Planner.fo_op op); reflexivity.
  - destruct (assoc "status" (rev (Planner.fo_rest op))); [reflexivity |].
    destruct (Planner.fo_op op); reflexivity.
Qed.

Lemma plan_changelog_witness :
  Forall (fun p =>
            Planner.ph_angle p <> EmptyString
            /\ (Planner.notes p = "Rendered angle " +++ Planner.ph_angle p
                \/ Planner.notes p = "Applied local edit for " +++ Planner.ph_angle p))
         (Planner.result_photos
            (fst (Planner.serveEdit PlanScenario.env PlanScenario.input PlanScenario.start))).
Proof.
  apply (plan_changelog PlanScenario.env PlanScenario.input PlanScenario.start
           (snd (Planner.serveEdit PlanScenario.env PlanScenario.input PlanScenario.start))).
  apply surjective_pairing.
Defined.


(* ================================================================= *)
(** ** The plan Worker: annotating the floor plan *)

Lemma append_assoc (a b c : string) : (a +++ b) +++ c = a +++ b +++ c.
Proof. induction a as [|x a IH]; cbn; [reflexivity | now rewrite IH]. Qed.

Lemma append_nil_r (a : string) : a +++ EmptyString = a.
Proof. induction a as [|x a IH]; cbn; [reflexivity | now rewrite IH]. Qed.

Lemma dropChars_append (p s : string) : dropChars (String.length p) (p +++ s) = s.
Proof. induction p as [|c p IH]; [reflexivity | exact IH]. Qed.

Lemma splitOn_first (pattern after : string) :
  forall before s,
    firstOccurrence s pattern before after ->
    Planner.splitOn s pattern = Some (before, after).
Proof.
  induction before as [|c before IH]; intros s [Hs Hmin].
  - cbn [String.append] in Hs. subst s.
    destruct (pattern +++ after) as [|x r] eqn:Hpa; cbn [Planner.splitOn].
    + assert (Hst : startsWith EmptyString pattern = true)
        by (apply startsWith_spec; exists after; now rewrite Hpa).
      rewrite Hst, <- Hpa, dropChars_append. reflexivity.
    + assert (Hst : startsWith (String x r) pattern = true)
        by (apply startsWith_spec; exists after; now rewrite Hpa).
      rewrite Hst, <- Hpa, dropChars_append. reflexivity.
  - cbn [String.append] in Hs. subst s. cbn [Planner.splitOn].
    destruct (startsWith (String c (before +++ pattern +++ after)) pattern) eqn:Hst.
    + exfalso. apply startsWith_spec in Hst as (post & Hpost).
      specialize (Hmin EmptyString post Hpost). cbn in Hmin. lia.
    + rewrite (IH (before +++ pattern +++ after)); [reflexivity |].
      split; [reflexivity |]. intros b' a' Hb'.
      specialize (Hmin (String c b') a'). cbn in Hmin. rewrite Hb' in Hmin.
      specialize (Hmin eq_refl). lia.
Qed.

Lemma occurs_includes (s before after : string) (pattern : string) :
  s = before +++ pattern +++ after -> includes s pattern = true.
Proof. intros H. apply includes_spec. now exists before, after. Qed.

Lemma allChars_append (p : ascii -> bool) (a b : string) :
  allChars p (a +++ b) = allChars p a && allChars p b.
Proof. induction a as [|c a IH]; cbn; [reflexivity | now rewrite IH, andb_assoc]. Qed.

Lemma expand_plain (matched before after : string) :
  forall x rest,
    allChars notDollar x = true ->
    Planner.expand (x +++ rest) matched before after
    = x +++ Planner.expand rest matched before after.
Proof.
  induction x as [|c x IH]; intros rest H; [reflexivity |].
  cbn [allChars] in H. apply andb_prop in H as [Hc Hx].
  cbn [String.append Planner.expand]. unfold notDollar in Hc.
  destruct (Ascii.eqb c Planner.dollar); [discriminate Hc |].
  now rewrite IH.
Qed.

(** [svgApply] leaves the drawing alone when there are no operations.
    Otherwise it adds one comment that lists the operations: just before
    the first closing [svg] tag when the drawing has one, the rest of the
    drawing following unchanged, and at the very end when it has none.
    The list appears as written as long as it contains no dollar sign; a
    dollar sign is read as a replacement pattern, so an operation named
    [$&] is listed as the closing tag itself. *)
Theorem svgApply_comment (env : Planner.Env) (svg : string) :
  Planner.svgApply env svg [] = svg
  /\ (forall ops,
        ops <> [] -> includes svg "</svg>" = false ->
        Planner.svgApply env svg ops
        = svg +++ Planner.newline +++ "<!-- ops:" +++ opDetails env ops +++ " -->")
  /\ (forall ops before after,
        ops <> [] -> firstOccurrence svg "</svg>" before after ->
        allChars notDollar (opDetails env ops) = true ->
        Planner.svgApply env svg ops
        = before +++ Planner.newline +++ "<!-- ops:" +++ opDetails env ops +++ " -->"
            +++ Planner.newline +++ "</svg>" +++ after)
  /\ (forall before after rest,
        firstOccurrence svg "</svg>" before after ->
        Planner.svgApply env svg [{| Planner.fo_op := Some "$&"; Planner.fo_rest := rest |}]
        = before +++ Planner.newline +++ "<!-- ops:</svg> -->"
            +++ Planner.newline +++ "</svg>" +++ after).
Proof.
  split; [reflexivity | split; [| split]].
  - intros [|op ops] Hne Hinc; [congruence |].
    unfold Planner.svgApply. rewrite Hinc. reflexivity.
  - intros [|op ops] before after Hne Hfirst Hplain; [congruence |].
    unfold Planner.svgApply. fold (opDetails env (op :: ops)).
    rewrite (occurs_includes svg before after "</svg>" (proj1 Hfirst)).
    unfold Planner.replace. rewrite (splitOn_first _ _ _ _ Hfirst).
    set (d := opDetails env (op :: ops)) in *.
    rewrite <- (append_nil_r (Planner.newline +++ "<!-- ops:" +++ d +++ " -->"
                                +++ Planner.newline +++ "</svg>")) at 1.
    rewrite expand_plain.
    + cbn [Planner.expand]. rewrite append_nil_r, !append_assoc. reflexivity.
    + rewrite !allChars_append, Hplain. reflexivity.
  - intros before after rest Hfirst.
    unfold Planner.svgApply.
    rewrite (occurs_includes svg before after "</svg>" (proj1 Hfirst)).
    unfold Planner.replace. rewrite (splitOn_first _ _ _ _ Hfirst).
    cbn. reflexivity.
Qed.

Lemma svgApply_comment_witness :
  Planner.svgApply PlanScenario.env "<svg><g/></svg>"
    [{| Planner.fo_op := Some "extend_wall"; Planner.fo_rest := [] |}]
  = "<svg><g/>" +++ Planner.newline +++ "<!-- ops:extend_wall -->"
      +++ Planner.newline +++ "</svg>" +++ "".
Proof.
  apply (proj1 (proj2 (proj2 (svgApply_comment PlanScenario.env "<svg><g/></svg>")))
           [{| Planner.fo_op := Some "extend_wall"; Planner.fo_rest := [] |}]
           "<svg><g/>" "").
  - discriminate.
  - split; [reflexivity |]. intros b a H.
    destruct b as [|c1 [|c2 [|c3 [|c4 [|c5 [|c6 [|c7 [|c8 [|c9 b]]]]]]]]];
      cbn in *; try discriminate H; lia.
  - reflexivity.
Defined.


(* ================================================================= *)
(** ** The diff summary is trimmed *)

Lemma trimEnd_head (c : ascii) (r : string) :
  isWhiteSpace c = false -> exists r', trimEnd (String c r) = String c r'.
Proof.
  intros Hc. cbn [trimEnd]. destruct (trimEnd r); [rewrite Hc |]; eauto.
Qed.

Lemma trimEnd_idem (s : string) : trimEnd (trimEnd s) = trimEnd s.
Proof.
  induction s as [|c s IH]; [reflexivity |]. cbn [trimEnd].
  destruct (trimEnd s) as [|c' r'] eqn:Hs.
  - destruct (isWhiteSpace c) eqn:Hc; [reflexivity |]. cbn [trimEnd]. now rewrite Hc.
  - cbn [trimEnd] in *. now rewrite IH.
Qed.

Lemma trim_head (t : string) :
  trim t = EmptyString \/ exists c r, trim t = String c r /\ isWhiteSpace c = false.
Proof.
  unfold trim. induction t as [|c t IH]; [now left |]. cbn [trimStart].
  destruct (isWhiteSpace c) eqn:Hc; [exact IH |].
  right. destruct (trimEnd_head c t Hc) as (r' & ->). eauto.
Qed.

Lemma trimStart_head (c : ascii) (r : string) :
  isWhiteSpace c = false -> trimStart (String c r) = String c r.
Proof. intros Hc. cbn [trimStart]. now rewrite Hc. Qed.

Lemma trimEnd_trim (t : string) : trimEnd (trim t) = trim t.
Proof. unfold trim. apply trimEnd_idem. Qed.

Lemma trimEnd_append (a b : string) :
  trimEnd b <> EmptyString -> trimEnd (a +++ b) = a +++ trimEnd b.
Proof.
  intros Hb. induction a as [|c a IH]; [reflexivity |].
  cbn [String.append trimEnd]. rewrite IH.
  destruct (a +++ trimEnd b) eqn:Hab; [| reflexivity].
  exfalso. destruct a; cbn in Hab; [contradiction | discriminate].
Qed.

Lemma join_trimmed (xs : list string) :
  Forall (fun x => x <> EmptyString /\ trimEnd x = x
                   /\ exists c r, x = String c r /\ isWhiteSpace c = false) xs ->
  xs <> [] ->
  join " " xs <> EmptyString
  /\ trimEnd (join " " xs) = join " " xs
  /\ trimStart (join " " xs) = join " " xs.
Proof.
  induction 1 as [|x xs (Hx & He & c & r & -> & Hc) Hxs IH]; intros Hne; [congruence |].
  destruct xs as [|y ys].
  - cbn [join]. repeat split; [exact Hx | exact He | now apply trimStart_head].
  - destruct IH as (J1 & J2 & _); [discriminate |].
    change (join " " (String c r :: y :: ys))
      with (String c r +++ " " +++ join " " (y :: ys)).
    split; [discriminate | split].
    + rewrite trimEnd_append.
      * f_equal. rewrite (trimEnd_append " ") by (now rewrite J2). now rewrite J2.
      * rewrite (trimEnd_append " ") by (now rewrite J2). discriminate.
    + cbn [String.append]. now apply trimStart_head.
Qed.

(** The summary [summarizeParts] builds has no whitespace at either end:
    trimming it changes nothing.  It only depends on the parts that have
    visible text, and it is the text itself, trimmed, when exactly one part
    has any. *)
Theorem summarizeParts_trimmed (parts : list GeminiPart) :
  trim (summarizeParts parts) = summarizeParts parts
  /\ summarizeParts (filter hasText parts) = summarizeParts parts
  /\ (forall p t, filter hasText parts = [p] -> text p = Some t ->
                  summarizeParts parts = trim t).
Proof.
  unfold summarizeParts. split; [| split].
  - destruct (filter hasText parts) as [|p ps] eqn:Hf; [reflexivity |].
    destruct (join_trimmed
                (map (fun part => match text part with Some t => trim t | None => "" end)
                     (p :: ps))) as (_ & He & Hs).
    + apply Forall_map. apply Forall_forall. intros q Hq.
      rewrite <- Hf in Hq. apply filter_In in Hq as [_ Hq].
      pose proof (hasText_trim q Hq) as Hne. unfold hasText in Hq.
      destruct (text q) as [t|]; [| discriminate].
      split; [exact Hne | split; [apply trimEnd_trim |]].
      destruct (trim_head t) as [Hz | (c & r & Hz & Hc)]; [contradiction | eauto].
    + discriminate.
    + set (j := join _ _) in *. unfold trim. now rewrite Hs, He.
  - f_equal. f_equal. clear. induction parts as [|p ps IH]; [reflexivity |].
    cbn [filter]. destruct (hasText p) eqn:Hp; cbn [filter]; [rewrite Hp |]; now rewrite IH.
  - intros p t -> Ht. cbn. now rewrite Ht.
Qed.

Lemma summarizeParts_trimmed_witness :
  summarizeParts [inlinePart "image/png" "QUJD"; textPart "  Added a patio door. "]
  = trim "  Added a patio door. ".
Proof.
  apply (proj2 (proj2 (summarizeParts_trimmed
                         [inlinePart "image/png" "QUJD"; textPart "  Added a patio door. "]))
           (textPart "  Added a patio door. ")).
  - reflexivity.
  - reflexivity.
Defined.


(* ================================================================= *)
(** ** What an edit takes over from the version it edits *)

Lemma handleEdit_inherits (env : Env) (body : EditRequestBody) (st st' : State)
    (r : Result Response) :
  handleEdit env (Some body) st = (r, st') ->
  forall row, In row (image_versions (db st')) ->
    In row (image_versions (db st))
    \/ exists pv session st1,
         resolveSession env body st = (Ok (pv, Some session), st1)
         /\ iv_aspect_ratio row = editAspect body (match pv with
                                                   | Some p => vr_aspect_ratio p
                                                   | None => None
                                                   end)
         /\ iv_base_prompt row = Some (match pv with
                                       | Some p => vr_base_prompt p
                                       | None => ps_base_prompt session
                                       end)
         /\ (exists md, iv_metadata row = Some md
                        /\ md_aspect_ratio md = iv_aspect_ratio row).
Proof.
  unfold handleEdit, generateImageFromGemini, uploadToCloudflareImages,
    insertVersion, saveHistory.
  unfold_monad. intros H. cbn in H.
  repeat (step_in H; try discriminate).
  all: repeat match goal with p : (_ * _)%type |- _ => destruct p end;
       cbn [fst snd] in *; subst; injection H as <- <-.
  all: intros row Hin; cbn in Hin.
  all: repeat match goal with
         | Hp : parseHistory _ _ _ = _ |- _ =>
             apply parseHistory_quiet in Hp; destruct Hp as (_ & Hp & _)
         end.
  all: match goal with
       | Hr : resolveSession _ _ _ = _ |- _ =>
           pose proof (resolve_frame _ _ _ _ _ Hr) as [Hfr _]
       | _ => idtac
       end.
  all: try (left; congruence).
  all: apply in_app_or in Hin as [Hin | [<- | []]]; [left; congruence | right].
  all: do 3 eexists; split; [first [eassumption | reflexivity] |].
  all: unfold editAspect, supportedAspectRatio; cbn.
  all: match goal with Hb : (truthyOpt _ && _) = _ |- _ => rewrite Hb end.
  all: repeat split; eexists; split; reflexivity.
Qed.

(** In every reachable state, a successful edit that names an existing
    version as its previous version stores that version's design intent
    with the new row, whatever intent the request carries; and the new
    row's aspect ratio, in the column and in the metadata alike, is the
    request's when that is one of the supported ratios, and otherwise
    whatever the previous version's column holds. *)
Theorem edit_inherits (env : Env) (st : State) (v : VersionRow) (body : EditRequestBody) :
  reachable st ->
  In v (image_versions (db st)) ->
  iv_id v <> EmptyString ->
  (forall c, iv_chat_id v = Some c -> c <> EmptyString) ->
  previous_version_id body = Some (iv_id v) ->
  forall resp st',
    handleEdit env (Some body) st = (Ok resp, st') -> status resp = 200 ->
    exists row md,
      image_versions (db st') = image_versions (db st) ++ [row]
      /\ iv_base_prompt row = Some (orElse (iv_base_prompt v) "")
      /\ iv_aspect_ratio row = editAspect body (iv_aspect_ratio v)
      /\ iv_metadata row = Some md
      /\ md_aspect_ratio md = editAspect body (iv_aspect_ratio v).
Proof.
  intros Hreach Hv Hv0 Hc0 Hp resp st' H Hst.
  pose proof (integrity_invariant st Hreach) as Hint.
  assert (Hres : exists s,
             resolveSession env body st = (Ok (Some (versionRecord v), Some s), st)).
  { pose proof Hint as (Hn1 & Hn2 & Hchat & Hpar).
    destruct (Hchat v Hv) as (c & Hc & Hin).
    apply in_map_iff in Hin as (s & <- & Hs).
    exists s. apply resolve_previous; auto. }
  destruct Hres as (s & Hres).
  pose proof H as Hrun. apply handleEdit_run in Hrun.
  inversion Hrun; subst; clear Hrun; try discriminate Hst.
  - match goal with
    | Hu : _ \/ _ |- _ => destruct Hu as [(e & [=]) | (msg & [= ->])]
    end. discriminate Hst.
  - match goal with
    | Hp' : Prepared _ _ _ _ _ _ _ _ |- _ =>
        pose proof Hp' as (_ & st1 & imgs & ms & Hres' & Hparse & _)
    end.
    rewrite Hres in Hres'. injection Hres' as <- <- <-.
    apply parseHistory_quiet in Hparse as (_ & Hdb & _).
    assert (Hrow : In row (image_versions (db st'))).
    { match goal with
      | Hv' : image_versions (db st') = _ |- _ => rewrite Hv'
      end. apply in_or_app. right. now left. }
    destruct (handleEdit_inherits env body st st' _ H row Hrow)
      as [Hold | (pv & s' & st1 & Hres' & Ha & Hb & md' & Hm & Hma)].
    + exfalso.
      match goal with
      | Hfresh : ~ In (iv_id row) _ |- _ => apply Hfresh
      end. rewrite Hdb. now apply in_map.
    + rewrite Hres in Hres'. injection Hres' as <- <- <-.
      exists row, md'. rewrite <- Hdb. cbn in Ha, Hb.
      repeat split; try assumption. congruence.
Qed.

Lemma edit_inherits_witness :
  exists row md,
    image_versions (db Inherit.afterEdit) = image_versions (db Inherit.afterUpload) ++ [row]
    /\ iv_base_prompt row = Some "modern kitchen"
    /\ iv_aspect_ratio row = Some "7:5"
    /\ iv_metadata row = Some md
    /\ md_aspect_ratio md = Some "7:5".
Proof.
  assert (Hreach : reachable Inherit.afterUpload).
  { apply (reach_step initial); [apply reach_initial |].
    apply (step_upload (Scenario.scenarioEnv 0) Inherit.upload). }
  eassert (Hin : In _ (image_versions (db Inherit.afterUpload))).
  { vm_compute. left. reflexivity. }
  refine (edit_inherits (Scenario.scenarioEnv 1) Inherit.afterUpload _ Inherit.edit
            Hreach Hin _ _ _
            (jsonResponse
               (BEdited "img-1" "uuid-2" "https://imagedelivery.net/acct/img-1/public"
                  "Added a patio door."
                  "Would you like to explore another perspective beyond the patio angle?")
               200)
            Inherit.afterEdit _ _).
  - discriminate.
  - intros c [= <-]. discriminate.
  - reflexivity.
  - vm_compute. reflexivity.
  - reflexivity.
Defined.


(* ================================================================= *)
(** ** An inferred angle is always used *)

(** Whenever [inferCameraAngle] finds an angle, the angle is a non-empty
    string, so neither truthiness test downstream drops it: the system
    instruction carries the line that focuses on it, right before the
    closing line, and the follow-up suggestion names it whether or not the
    oracle returned any text. *)
Theorem inferred_angle_is_used (env : Env) (prompt intent : string) (hint : option string)
    (a : string) (hasDiffText : bool) :
  inferCameraAngle prompt hint = Some a ->
  a <> EmptyString
  /\ buildFollowupSuggestion (inferCameraAngle prompt hint) hasDiffText
     = "Would you like to explore another perspective beyond the " +++ a +++ " angle?"
  /\ exists lines,
       parts (buildSystemInstruction env intent (inferCameraAngle prompt hint))
       = [textPart (join (String (ascii_of_nat 10) EmptyString)
                      (lines
                       ++ ["Focus on the " +++ a +++ " angle unless directed otherwise.";
                           "Preserve project context across turns and never overwrite previous versions; always branch new variations."]))]
       /\ (lines = [orElse (SYSTEM_PROMPT env) DEFAULT_SYSTEM_PROMPT]
           \/ lines = [orElse (SYSTEM_PROMPT env) DEFAULT_SYSTEM_PROMPT;
                       "Design intent: " +++ intent]).
Proof.
  intros H. pose proof (inferCameraAngle_nonempty _ _ _ H) as Ha. rewrite H.
  split; [now apply truthy_true | split].
  - unfold buildFollowupSuggestion. now rewrite Ha.
  - unfold buildSystemInstruction, truthyOpt, orElse at 2. rewrite Ha.
    destruct (truthy intent).
    + exists [orElse (SYSTEM_PROMPT env) DEFAULT_SYSTEM_PROMPT; "Design intent: " +++ intent].
      split; [reflexivity | now right].
    + exists [orElse (SYSTEM_PROMPT env) DEFAULT_SYSTEM_PROMPT].
      split; [reflexivity | now left].
Qed.

Lemma inferred_angle_is_used_witness :
  buildFollowupSuggestion (inferCameraAngle "Render the PATIO at dusk" (Some "  ")) false
  = "Would you like to explore another perspective beyond the patio angle?".
Proof.
  apply (inferred_angle_is_used (Scenario.scenarioEnv 0) "Render the PATIO at dusk"
           "modern kitchen" (Some "  ") "patio" false).
  reflexivity.
Defined.
